(** * coinmarketcap-mcp: the progressive resolver and its catalog client

    A shallow embedding of [src/coinmarketcap_mcp/server.py] and
    [src/coinmarketcap_mcp/cmc_api.py], and the properties of the
    specification checked against it.  Embedded are the resolver
    [search_cryptocurrency] with its helpers, the client operations on
    catalog entries and the stand-alone score [_calculate_similarity]; the
    pass-through tools, which the resolver does not call, are left out.

    Modelling conventions.

    - A Python [str] is a [string]; its characters are read as the code
      points U+0000 to U+00FF.  The character classes of [str.isspace],
      [str.isdigit], [\s] and [\w] are those of CPython on that block.
      [str.lower] is exact on the block.  [str.upper] is exact on it except
      for U+00B5 and U+00FF, whose upper-case forms lie outside the block and
      which are left as they are.
    - JSON documents exchanged with the remote API are typed by the shape the
      API documents: an envelope with an optional status and an optional
      payload; a payload that is a list of catalog entries (map endpoint) or
      a mapping from keys to one entry or a list of entries (info endpoint);
      an entry with its id, name, symbol and slug, and an optional rank and
      optional urls.  A [null] payload behaves as an absent one in every
      place the code reads it.  What the code does when it meets the other
      payload shape is modelled (it raises inside a [try] block).
    - Python exceptions are values of [exn]; a computation that may raise
      returns a [result].  The network is a function from the requests made so
      far and the current request to an outcome; every request is appended to
      a trace, so that a lookup that is not made is one that is not in the
      trace.
    - Dictionaries built by the code with a fixed set of keys are records; a
      key that may be missing is an optional field.
    - Similarity scores are Python floats, IEEE 754 binary64 numbers.  A
      finite float is modelled by the rational it denotes, and every
      operation on floats rounds its exact result to the nearest binary64
      number, ties to the even significand ([b64]).  A literal such as 0.9
      is the binary64 number nearest to the decimal; 0.0 and 1.0 are exact.
      All scores lie between 0 and 1, so overflow does not occur and is not
      modelled. *)

From Stdlib Require Import String Ascii List ZArith QArith Bool Lia.
From Stdlib Require Import Qround Qpower Lqa.
From Stdlib Require Import Permutation Sorted DecimalString.
Import ListNotations.

Local Close Scope Q_scope.
Local Open Scope string_scope.
Local Open Scope list_scope.

(* ================================================================== *)
(** * Python strings *)
(* ================================================================== *)

Definition code (c : ascii) : N := N_of_ascii c.

Definition in_range (lo hi : N) (c : ascii) : bool :=
  (N.leb lo (code c) && N.leb (code c) hi)%bool.

Definition is_code (n : N) (c : ascii) : bool := N.eqb (code c) n.

(** [a-z], [A-Z], [0-9] as the regular expressions of the source write them. *)
Definition is_az (c : ascii) : bool := in_range 97 122 c.
Definition is_AZ (c : ascii) : bool := in_range 65 90 c.
Definition is_09 (c : ascii) : bool := in_range 48 57 c.

(** [str.isspace], which is also what [str.strip()] removes and what [\s]
    matches: TAB..CR, FS..US, SPACE, NEL (U+0085) and NBSP (U+00A0). *)
Definition isspace (c : ascii) : bool :=
  in_range 9 13 c || in_range 28 32 c || is_code 133 c || is_code 160 c.

(** [str.isdigit]: the decimal digits and the superscript digits
    U+00B2, U+00B3 and U+00B9. *)
Definition isdigit (c : ascii) : bool :=
  is_09 c || is_code 178 c || is_code 179 c || is_code 185 c.

(** [\w]: alphanumeric characters ([str.isalnum]) and the underscore. *)
Definition is_word (c : ascii) : bool :=
  is_09 c || is_AZ c || is_code 95 c || is_az c
  || is_code 170 c || is_code 178 c || is_code 179 c || is_code 181 c
  || is_code 185 c || is_code 186 c || in_range 188 190 c
  || in_range 192 214 c || in_range 216 246 c || in_range 248 255 c.

Definition lower_char (c : ascii) : ascii :=
  if is_AZ c || in_range 192 214 c || in_range 216 222 c
  then ascii_of_N (code c + 32) else c.

Definition upper_char (c : ascii) : string :=
  if is_az c || in_range 224 246 c || in_range 248 254 c
  then String (ascii_of_N (code c - 32)) ""
  else if is_code 223 c then "SS"
  else String c "".

Fixpoint lower (s : string) : string :=
  match s with
  | "" => ""
  | String c s' => String (lower_char c) (lower s')
  end.

Fixpoint upper (s : string) : string :=
  match s with
  | "" => ""
  | String c s' => upper_char c ++ upper s'
  end.

(** [s.lstrip(chars)], [s.rstrip(chars)] and [s.strip(chars)], with the set
    of characters given as a predicate. *)
Fixpoint lstrip (p : ascii -> bool) (s : string) : string :=
  match s with
  | "" => ""
  | String c s' => if p c then lstrip p s' else s
  end.

Fixpoint rstrip (p : ascii -> bool) (s : string) : string :=
  match s with
  | "" => ""
  | String c s' =>
      match rstrip p s' with
      | "" => if p c then "" else String c ""
      | r => String c r
      end
  end.

Definition strip_chars (p : ascii -> bool) (s : string) : string :=
  rstrip p (lstrip p s).

(** [s.strip()] *)
Definition strip (s : string) : string := strip_chars isspace s.

Definition is_hyphen (c : ascii) : bool := is_code 45 c.
Definition is_slash (c : ascii) : bool := is_code 47 c.

(** Truth value of a string and of an optional string: [None] and the empty
    string are false. *)
Definition truthy (s : string) : bool := negb (s =? "").

Definition truthy_opt (o : option string) : bool :=
  match o with
  | Some s => truthy s
  | None => false
  end.

Definition startswith (s pre : string) : bool := prefix pre s.

(** [s[:n]] for [0 <= n] and [s[n:]]. *)
Definition take (n : nat) (s : string) : string := substring 0 n s.
Definition drop (n : nat) (s : string) : string :=
  substring n (String.length s - n) s.

Definition endswith (s suf : string) : bool :=
  (String.length suf <=? String.length s)%nat
  && (drop (String.length s - String.length suf) s =? suf).

(** [needle in hay] *)
Fixpoint contains (needle hay : string) : bool :=
  prefix needle hay ||
  match hay with
  | "" => false
  | String _ hay' => contains needle hay'
  end.

(** [s[-1]], for a non-empty [s]. *)
Fixpoint last_char (s : string) : option ascii :=
  match s with
  | "" => None
  | String c "" => Some c
  | String _ s' => last_char s'
  end.

(** [re.sub(r'[^...]', '', s)]: the characters of the class are kept. *)
Fixpoint keep (p : ascii -> bool) (s : string) : string :=
  match s with
  | "" => ""
  | String c s' => if p c then String c (keep p s') else keep p s'
  end.

Definition starts_in (p : ascii -> bool) (s : string) : bool :=
  match s with
  | "" => false
  | String c _ => p c
  end.

(** [re.sub(r'[...]+', r, s)]: every maximal run of characters of the class
    is replaced by [r]; the replacement is emitted at the end of the run. *)
Fixpoint sub_runs (p : ascii -> bool) (r : string) (s : string) : string :=
  match s with
  | "" => ""
  | String c s' =>
      if p c
      then if starts_in p s' then sub_runs p r s' else r ++ sub_runs p r s'
      else String c (sub_runs p r s')
  end.

(** [s.split(sep)[0]] for a one-character separator. *)
Fixpoint before (sep : ascii -> bool) (s : string) : string :=
  match s with
  | "" => ""
  | String c s' => if sep c then "" else String c (before sep s')
  end.

(** [re.findall(r'\w{3,}', s)]: the maximal runs of word characters that
    have three characters or more, from left to right.  [cur] is the run
    being read, reversed. *)
Fixpoint word_runs (cur : list ascii) (s : string) : list string :=
  let flush (k : list string) :=
    if (3 <=? List.length cur)%nat
    then string_of_list_ascii (rev cur) :: k else k in
  match s with
  | "" => flush []
  | String c s' =>
      if is_word c then word_runs (c :: cur) s'
      else flush (word_runs [] s')
  end.

Definition findall_words (s : string) : list string := word_runs [] s.

(** [str(n)] for an integer and for a length. *)
Definition str_of_Z (n : Z) : string := NilZero.string_of_int (Z.to_int n).
Definition str_of_nat (n : nat) : string :=
  NilZero.string_of_uint (Nat.to_uint n).

(** [set(l)] and [a & b] on strings, as duplicate-free lists. *)
Definition set_of (l : list string) : list string := nodup string_dec l.

Definition mem (x : string) (l : list string) : bool :=
  existsb (String.eqb x) l.

Definition inter (a b : list string) : list string :=
  filter (fun x => mem x b) a.

(* ================================================================== *)
(** * server.py: the pure helpers *)
(* ================================================================== *)

(** [_name_to_slug], lines 383-390. *)
Definition slug_char (c : ascii) : bool :=
  is_az c || is_09 c || isspace c || is_hyphen c.

Definition space_or_underscore (c : ascii) : bool :=
  isspace c || is_code 95 c.

Definition _name_to_slug (name : string) : string :=
  let slug := strip (lower name) in
  let slug := keep slug_char slug in
  let slug := sub_runs space_or_underscore "-" slug in
  let slug := sub_runs is_hyphen "-" slug in
  strip_chars is_hyphen slug.

(** [_normalize_url], lines 393-400. *)
Definition remove_prefix (pre url : string) : string :=
  if startswith url pre then drop (String.length pre) url else url.

Definition _normalize_url (url : string) : string :=
  let url := strip (lower url) in
  let url := rstrip is_slash url in
  fold_left (fun url pre => remove_prefix pre url)
            ["https://"; "http://"; "www."] url.

(** [_extract_domain], lines 403-410. *)
Definition _extract_domain (url : string) : string :=
  let url := _normalize_url url in
  let domain := before is_slash url in
  before (is_code 58) domain.

(** [_generate_symbol_variations], lines 162-207.  [variations] is the list
    the source appends to; every rule is a guarded append. *)
Definition expansions : list (string * list string) :=
  [ ("RNDR", ["RENDER"]);
    ("GRT", ["GRAPH"]);
    ("FET", ["FETCH"; "ASI"]);
    ("AGIX", ["ASI"]);
    ("OCEAN", ["ASI"]);
    ("LUNA", ["LUNC"; "LUNA2"]);
    ("UST", ["USTC"]);
    ("MATIC", ["POL"]) ].

Fixpoint lookup {V : Type} (k : string) (d : list (string * V)) : option V :=
  match d with
  | [] => None
  | (k', v) :: d' => if k =? k' then Some v else lookup k d'
  end.

Definition suffixes : list string :=
  ["TOKEN"; "COIN"; "PROTOCOL"; "NETWORK"; "FINANCE"; "SWAP"; "DAO"].

Definition last_is (p : ascii -> bool) (s : string) : bool :=
  match last_char s with
  | Some c => p c
  | None => false
  end.

Definition _generate_symbol_variations (symbol : string) : list string :=
  let symbol := strip (upper symbol) in
  let variations := [] in
  let variations :=
    match lookup symbol expansions with
    | Some targets => variations ++ targets
    | None => variations
    end in
  let variations :=
    fold_left
      (fun variations suffix =>
         if endswith symbol suffix
            && (String.length suffix <? String.length symbol)%nat
         then variations
              ++ [take (String.length symbol - String.length suffix) symbol]
         else variations)
      suffixes variations in
  let variations :=
    if (String.length symbol <=? 4)%nat
    then fold_left
           (fun variations suffix => variations ++ [(symbol ++ suffix)%string])
           ["TOKEN"; "COIN"] variations
    else variations in
  let variations :=
    if truthy symbol && last_is isdigit symbol
    then variations ++ [rstrip is_09 symbol]
    else variations in
  let variations :=
    if (3 <=? String.length symbol)%nat && endswith symbol "R"
    then variations
         ++ [(take (String.length symbol - 1) symbol ++ "ER")%string]
    else variations in
  let variations :=
    if (3 <=? String.length symbol)%nat && endswith symbol "N"
    then variations ++ [(symbol ++ "ET")%string]
    else variations in
  variations.

(* ================================================================== *)
(** * Exceptions *)
(* ================================================================== *)

(** The exceptions the two modules raise or receive.  [TransportError]
    stands for whatever the HTTP layer raises (connection failure, a body
    that is not JSON); [TypeError] and [AttributeError] are raised by the
    interpreter when a payload has the other shape. *)
Inductive exn : Type :=
| ValueError (msg : string)
| CoinMarketCapAPIError (status_code : Z) (message : option string)
                        (error_code : Z)
| TransportError (msg : string)
| TypeError (msg : string)
| AttributeError (msg : string).

Inductive result (A : Type) : Type :=
| Ok (a : A)
| Raise (e : exn).

Arguments Ok {A} a.
Arguments Raise {A} e.

(** [str(None)] is ["None"]. *)
Definition str_opt (o : option string) : string :=
  match o with
  | Some s => s
  | None => "None"
  end.

(** [str(e)], the text an f-string prints for [{e}]. *)
Definition str_exn (e : exn) : string :=
  match e with
  | ValueError msg | TransportError msg | TypeError msg
  | AttributeError msg => msg
  | CoinMarketCapAPIError status_code message _ =>
      "CoinMarketCap API error (" ++ str_of_Z status_code ++ "): "
        ++ str_opt message
  end.

(* ================================================================== *)
(** * Data model *)
(* ================================================================== *)

Record Urls : Type := { website : option (list string) }.

(** A catalog entry as the remote API returns it.  [entry_rank] is absent
    on entries of the info endpoint, [entry_urls] on those of the map
    endpoint. *)
Record Entry : Type := {
  entry_id : Z;
  entry_name : string;
  entry_symbol : string;
  entry_slug : string;
  entry_rank : option Z;
  entry_urls : option Urls
}.

(** A candidate: [{**item, "_match_method": ..., ...}].  A field that is
    [None] is a key the dictionary does not have.  ["_homepage_match"] holds
    a string or [False]. *)
Record Candidate : Type := {
  item : Entry;
  _match_method : string;
  _confidence : string;
  _matched_query : option string;
  _original_query : option string;
  _similarity : option Q;
  _match_type : option string;
  _warning : option string;
  _homepage_match : option (string + bool);
  _website_urls : option (list string)
}.

(** An entry kept by the fuzzy search:
    [{**item, "_similarity": ..., "_match_type": ...}]. *)
Record FuzzyMatch : Type := {
  fm_item : Entry;
  fm_similarity : Q;
  fm_match_type : option string
}.

Record Query : Type := {
  q_name : option string;
  q_symbol : option string;
  q_homepage : option string
}.

Record SearchResult : Type := {
  query : Query;
  found : bool;
  match_count : nat;
  best_match : option Candidate;
  all_matches : list Candidate;
  search_log : list string;
  warnings : option (list string)
}.

(* ================================================================== *)
(** * cmc_api.py: the catalog client *)
(* ================================================================== *)

Inductive param : Type :=
| PStr (s : string)
| PInt (n : Z).

Record Request : Type := {
  method : string;
  path : string;
  params : list (string * param)
}.

Record Status : Type := {
  error_code : option Z;
  error_message : option (option string)
}.

Inductive InfoValue : Type :=
| One (info : Entry)
| Many (infos : list Entry).

Inductive Payload : Type :=
| DataList (l : list Entry)
| DataDict (d : list (string * InfoValue)).

Record Envelope : Type := {
  status : option Status;
  data : option Payload
}.

Record Response : Type := {
  status_code : Z;
  json : Envelope
}.

Inductive Outcome : Type :=
| Failed (msg : string)
| Replied (response : Response).

(** httpx: [Response.is_success] is true for the status codes 200 to 299. *)
Definition is_success (response : Response) : bool :=
  (200 <=? status_code response)%Z && (status_code response <=? 299)%Z.

Definition Trace : Type := list Request.

(** A client call: it reads the trace of the requests made so far and
    returns its result with the trace extended by the requests it made. *)
Definition IO (A : Type) : Type := Trace -> result A * Trace.

Record Client : Type := { api_key : string }.

Definition get_or {A : Type} (o : option A) (default : A) : A :=
  match o with
  | Some a => a
  | None => default
  end.

Section CatalogClient.

Variable transport : Trace -> Request -> Outcome.

(** [CoinMarketCapClient._request], lines 236-263. *)
Definition _request (self : Client) (method path : string)
    (params : list (string * param)) : IO Envelope :=
  fun trace =>
    let request :=
      {| method := method; path := path; params := params |} in
    match transport trace request with
    | Failed msg => (Raise (TransportError msg), trace ++ [request])
    | Replied response =>
        let data := json response in
        let status :=
          get_or (status data)
                 {| error_code := None; error_message := None |} in
        let error_code := get_or (error_code status) 0%Z in
        if negb (error_code =? 0)%Z || negb (is_success response)
        then
          let error_msg :=
            get_or (error_message status) (Some "Unknown error") in
          (Raise (CoinMarketCapAPIError (status_code response) error_msg
                                        error_code),
           trace ++ [request])
        else (Ok data, trace ++ [request])
    end.

(** [params[key] = value] when [value] is truthy. *)
Definition set_if (key : string) (value : option string)
    (params : list (string * param)) : list (string * param) :=
  if truthy_opt value
  then params ++ [(key, PStr (get_or value ""))]
  else params.

(** [CoinMarketCapClient.get_cryptocurrency_map], lines 45-81. *)
Definition get_cryptocurrency_map (self : Client)
    (symbol slug : option string) (listing_status : string)
    (start limit : Z) (sort : string) : IO Envelope :=
  let params :=
    [ ("listing_status", PStr listing_status); ("start", PInt start);
      ("limit", PInt limit); ("sort", PStr sort) ] in
  let params := set_if "symbol" symbol params in
  let params := set_if "slug" slug params in
  _request self "GET" "/v1/cryptocurrency/map" params.

(** [CoinMarketCapClient.get_cryptocurrency_info], lines 83-117. *)
Definition get_cryptocurrency_info (self : Client)
    (id symbol slug address : option string) : IO Envelope :=
  let params := [] in
  let params := set_if "id" id params in
  let params := set_if "symbol" symbol params in
  let params := set_if "slug" slug params in
  let params := set_if "address" address params in
  match params with
  | [] =>
      fun trace =>
        (Raise (ValueError
                  "At least one of id, symbol, slug, or address is required"),
         trace)
  | _ => _request self "GET" "/v2/cryptocurrency/info" params
  end.

End CatalogClient.

(* ================================================================== *)
(** * Python lists: [list.sort(key=...)] *)
(* ================================================================== *)

(** [list.sort] is stable and compares keys with [<] only.  The model is
    the insertion sort that puts an element behind the elements of the
    sorted tail whose key is strictly smaller: the one ordering of the list
    that is ascending by key and keeps elements of equal key in their
    original order. *)
Section ListSort.

Context {A K : Type}.
Variable key : A -> K.
Variable lt : K -> K -> bool.

Fixpoint insert (x : A) (l : list A) : list A :=
  match l with
  | [] => [x]
  | y :: l' => if lt (key y) (key x) then y :: insert x l' else x :: l
  end.

Fixpoint list_sort (l : list A) : list A :=
  match l with
  | [] => []
  | x :: l' => insert x (list_sort l')
  end.

End ListSort.

Definition nonempty {A : Type} (l : list A) : bool :=
  match l with
  | [] => false
  | _ :: _ => true
  end.

(* ================================================================== *)
(** * server.py: fuzzy name match *)
(* ================================================================== *)

(* ---------------------------------------------------------------- *)
(** ** Floats *)

(** [2 ** e] *)
Definition pow2 (e : Z) : Q := (2 ^ e)%Q.

(** The integer nearest to [x], ties to the even one. *)
Definition rne (x : Q) : Z :=
  let f := Qfloor x in
  match (x - inject_Z f ?= 1 # 2)%Q with
  | Lt => f
  | Eq => if Z.even f then f else (f + 1)%Z
  | Gt => (f + 1)%Z
  end.

(** [floor(log2 x)] for [0 < x]. *)
Definition flog2 (x : Q) : Z :=
  let e := (Z.log2 (Qnum x) - Z.log2 (Zpos (Qden x)))%Z in
  if Qle_bool (pow2 e) x then e else (e - 1)%Z.

(** The exponent of the last place of the binary64 numbers around [x]: a
    significand of 53 bits, and the spacing [2 ** -1074] of the subnormal
    numbers below [2 ** -1022]. *)
Definition ulp_exponent (x : Q) : Z := Z.max (flog2 x - 52) (-1074).

Definition b64_pos (x : Q) : Q :=
  (inject_Z (rne (x / pow2 (ulp_exponent x))) * pow2 (ulp_exponent x))%Q.

(** The binary64 number nearest to [x], ties to the even significand. *)
Definition b64 (x : Q) : Q :=
  match (x ?= 0)%Q with
  | Eq => 0%Q
  | Gt => b64_pos x
  | Lt => (- b64_pos (- x))%Q
  end.

(** [x + y] and [x * y] on floats, and [n / m] on integers with [0 < m]. *)
Definition float_add (x y : Q) : Q := b64 (x + y)%Q.
Definition float_mul (x y : Q) : Q := b64 (x * y)%Q.
Definition int_div (n m : nat) : Q :=
  b64 (inject_Z (Z.of_nat n) / inject_Z (Z.of_nat m))%Q.

(** [round(x, 2)]: the decimal with two places nearest to the float [x],
    ties to the even one, read back as a float. *)
Definition round2 (x : Q) : Q := b64 (rne (x * 100)%Q # 100).

Arguments pow2 : simpl never.
Arguments b64 : simpl never.
Arguments float_add : simpl never.
Arguments float_mul : simpl never.
Arguments int_div : simpl never.
Arguments round2 : simpl never.

(* ---------------------------------------------------------------- *)
(** ** The score of an entry *)

(** [[^a-z0-9]] removed. *)
Definition alnum (c : ascii) : bool := is_az c || is_09 c.

Definition clean (s : string) : string := keep alnum s.

(** The body of the loop of [_fuzzy_search_by_name], lines 229-259: the
    similarity of one catalog entry and the rule that gave it. *)
Definition similarity_of (name_lower name_clean : string) (item : Entry)
    : Q * option string :=
  let item_name := lower (entry_name item) in
  let item_slug := lower (entry_slug item) in
  let item_name_clean := clean item_name in
  let item_slug_clean := clean item_slug in
  if (name_clean =? item_name_clean) || (name_clean =? item_slug_clean)
  then (1%Q, Some "exact")
  else if contains name_clean item_name_clean
          || contains name_clean item_slug_clean
  then (b64 (9 # 10), Some "contains")
  else if contains item_name_clean name_clean
          || contains item_slug_clean name_clean
  then
    if (5 <=? String.length item_name_clean)%nat
    then (b64 (85 # 100), Some "reverse_contains")
    else (0%Q, None)
  else
    let query_words := set_of (findall_words name_lower) in
    let name_words := set_of (findall_words item_name) in
    if nonempty query_words && nonempty name_words
    then
      let overlap := inter query_words name_words in
      if nonempty overlap
      then
        (float_add (b64 (6 # 10))
           (float_mul
              (int_div (List.length overlap)
                       (Nat.max (List.length query_words)
                                (List.length name_words)))
              (b64 (3 # 10))),
         Some "word_overlap")
      else (0%Q, None)
    else (0%Q, None).

(** Lines 261-266: the entry is kept when its similarity reaches 0.6. *)
Definition fuzzy_item (name_lower name_clean : string)
    (matches : list FuzzyMatch) (item : Entry) : list FuzzyMatch :=
  let (similarity, match_type) := similarity_of name_lower name_clean item in
  if Qle_bool (b64 (6 # 10)) similarity
  then matches ++ [ {| fm_item := item;
                       fm_similarity := round2 similarity;
                       fm_match_type := match_type |} ]
  else matches.

(** The sort key of line 269, a pair, and [<] on pairs. *)
Definition match_key (x : FuzzyMatch) : Q * Z :=
  ((- fm_similarity x)%Q, get_or (entry_rank (fm_item x)) 99999%Z).

Definition pair_lt (k1 k2 : Q * Z) : bool :=
  match (fst k1 ?= fst k2)%Q with
  | Lt => true
  | Eq => (snd k1 <? snd k2)%Z
  | Gt => false
  end.

Section Server.

Variable transport : Trace -> Request -> Outcome.

(** [_fuzzy_search_by_name], lines 210-273.  It never raises: whatever
    the [try] block raises gives the empty list.  On a mapping payload the
    loop is either not entered or raises at [item.get] on a key. *)
Definition _fuzzy_search_by_name (client : Client) (name : string)
    : Trace -> list FuzzyMatch * Trace :=
  fun trace =>
    let name_lower := strip (lower name) in
    let name_clean := clean name_lower in
    let matches := [] in
    match get_cryptocurrency_map transport client None None
                                 "active" 1 5000 "cmc_rank" trace with
    | (Ok result, trace) =>
        match get_or (data result) (DataList []) with
        | DataList data =>
            let matches :=
              fold_left (fuzzy_item name_lower name_clean) data matches in
            let matches := list_sort match_key pair_lt matches in
            (firstn 5 matches, trace)
        | DataDict _ => ([], trace)
        end
    | (Raise _, trace) => ([], trace)
    end.

(* ---------------------------------------------------------------- *)
(** ** Homepage verification *)

Definition with_homepage_match (c : Candidate) (confidence : string)
    (warning : option string) (homepage_match : string + bool)
    (website_urls : list string) : Candidate :=
  {| item := item c;
     _match_method := _match_method c;
     _confidence := confidence;
     _matched_query := _matched_query c;
     _original_query := _original_query c;
     _similarity := _similarity c;
     _match_type := _match_type c;
     _warning := warning;
     _homepage_match := Some homepage_match;
     _website_urls := Some website_urls |}.

(** The body of the loop of [_verify_candidates_by_homepage], lines
    345-375.  It raises when the metadata found under the candidate's id is
    a list: [info.get] is not an attribute of a list. *)
Definition verify_candidate (info_data : list (string * InfoValue))
    (homepage normalized_homepage : string) (candidate : Candidate)
    : result Candidate :=
  let cid := str_of_Z (entry_id (item candidate)) in
  match lookup cid info_data with
  | None => Ok candidate
  | Some (Many _) =>
      Raise (AttributeError "'list' object has no attribute 'get'")
  | Some (One info) =>
      let urls := get_or (entry_urls info) {| website := None |} in
      let website_urls := get_or (website urls) [] in
      let exact_match :=
        existsb (fun url => _normalize_url url =? normalized_homepage)
                website_urls in
      let domain_match :=
        existsb (fun url => _extract_domain url =? _extract_domain homepage)
                website_urls in
      if exact_match
      then Ok (with_homepage_match candidate "verified" None
                                   (inl "exact") website_urls)
      else if domain_match
      then Ok (with_homepage_match candidate
                 (if _confidence candidate =? "low"
                  then "medium" else _confidence candidate)
                 (_warning candidate) (inl "domain") website_urls)
      else Ok (with_homepage_match candidate (_confidence candidate)
                 (_warning candidate) (inr false) website_urls)
  end.

(** [for candidate in candidates: ...] inside the [try] block: the
    candidates are updated in place from left to right, and an exception
    leaves the loop with the updates made so far. *)
Fixpoint verify_loop (info_data : list (string * InfoValue))
    (homepage normalized_homepage : string) (candidates : list Candidate)
    : list Candidate :=
  match candidates with
  | [] => []
  | candidate :: rest =>
      match verify_candidate info_data homepage normalized_homepage
                             candidate with
      | Ok candidate' =>
          candidate'
            :: verify_loop info_data homepage normalized_homepage rest
      | Raise _ => candidate :: rest
      end
  end.

(** [_verify_candidates_by_homepage], lines 327-380.  On a list payload
    [cid in info_data] is false for every candidate, a list of objects
    holding no string. *)
Definition _verify_candidates_by_homepage (client : Client)
    (candidates : list Candidate) (homepage : string)
    : Trace -> list Candidate * Trace :=
  fun trace =>
    let normalized_homepage := _normalize_url homepage in
    let ids_to_check :=
      map (fun c => str_of_Z (entry_id (item c))) (firstn 10 candidates) in
    match ids_to_check with
    | [] => (candidates, trace)
    | _ =>
        match get_cryptocurrency_info transport client
                (Some (String.concat "," ids_to_check)) None None None
                trace with
        | (Ok info_result, trace) =>
            match get_or (data info_result) (DataDict []) with
            | DataDict info_data =>
                (verify_loop info_data homepage normalized_homepage
                             candidates,
                 trace)
            | DataList _ => (candidates, trace)
            end
        | (Raise _, trace) => (candidates, trace)
        end
    end.

(* ---------------------------------------------------------------- *)
(** ** The strategies of [search_cryptocurrency] *)

(** The local variables of one call that the strategies update, and the
    trace of the requests made. *)
Record Run : Type := {
  candidates : list Candidate;
  log : list string;
  calls : Trace
}.

Definition new_candidate (item : Entry) (match_method confidence : string)
    (matched_query original_query : option string) : Candidate :=
  {| item := item;
     _match_method := match_method;
     _confidence := confidence;
     _matched_query := matched_query;
     _original_query := original_query;
     _similarity := None;
     _match_type := None;
     _warning := None;
     _homepage_match := None;
     _website_urls := None |}.

Definition map_lookup (client : Client) (symbol : string) : IO Envelope :=
  get_cryptocurrency_map transport client (Some symbol) None
                         "active" 1 100 "cmc_rank".

(** Strategy 1, lines 46-61.  On a mapping payload the loop visits the
    keys, and [{**item}] of a string raises. *)
Definition exact_symbol (client : Client) (symbol : option string)
    (run : Run) : Run :=
  if truthy_opt symbol then
    let symbol := get_or symbol "" in
    let symbol_upper := strip (upper symbol) in
    let failed (e : exn) (trace : Trace) :=
      {| candidates := candidates run;
         log := log run ++ [("exact_symbol(" ++ symbol_upper
                               ++ "): failed - " ++ str_exn e)%string];
         calls := trace |} in
    let nothing (trace : Trace) :=
      {| candidates := candidates run; log := log run; calls := trace |} in
    match map_lookup client symbol_upper (calls run) with
    | (Ok result, trace) =>
        match get_or (data result) (DataList []) with
        | DataList [] => nothing trace
        | DataList data =>
            {| candidates :=
                 candidates run
                 ++ map (fun item =>
                           new_candidate item "exact_symbol" "high"
                                         (Some symbol_upper) None) data;
               log := log run
                      ++ [("exact_symbol(" ++ symbol_upper ++ "): "
                             ++ str_of_nat (List.length data)
                             ++ " found")%string];
               calls := trace |}
        | DataDict [] => nothing trace
        | DataDict _ =>
            failed (TypeError "'str' object is not a mapping") trace
        end
    | (Raise e, trace) => failed e trace
    end
  else run.

(** The loop of strategy 2, lines 66-84, entered with no candidate. *)
Fixpoint try_variations (client : Client) (symbol : string)
    (variations : list string) (run : Run) : Run :=
  match variations with
  | [] => run
  | variant :: rest =>
      if variant =? upper symbol
      then try_variations client symbol rest run
      else
        let no_match (trace : Trace) :=
          {| candidates := candidates run;
             log := log run ++ [("symbol_variation(" ++ variant
                                   ++ "): no match")%string];
             calls := trace |} in
        let nothing (trace : Trace) :=
          {| candidates := candidates run; log := log run;
             calls := trace |} in
        match map_lookup client variant (calls run) with
        | (Ok result, trace) =>
            match get_or (data result) (DataList []) with
            | DataList [] =>
                try_variations client symbol rest (nothing trace)
            | DataList data =>
                {| candidates :=
                     candidates run
                     ++ map (fun item =>
                               new_candidate item "symbol_variation"
                                 "medium" (Some variant)
                                 (Some (upper symbol))) data;
                   log := log run
                          ++ [("symbol_variation(" ++ variant ++ "): "
                                 ++ str_of_nat (List.length data)
                                 ++ " found")%string];
                   calls := trace |}
            | DataDict [] =>
                try_variations client symbol rest (nothing trace)
            | DataDict _ =>
                try_variations client symbol rest (no_match trace)
            end
        | (Raise _, trace) =>
            try_variations client symbol rest (no_match trace)
        end
  end.

(** Strategy 2, lines 64-84. *)
Definition symbol_variation (client : Client) (symbol : option string)
    (run : Run) : Run :=
  if truthy_opt symbol && negb (nonempty (candidates run)) then
    let symbol := get_or symbol "" in
    let variations := _generate_symbol_variations symbol in
    try_variations client symbol variations run
  else run.

(** The candidates of one value of the info mapping, lines 94-114. *)
Definition slug_candidate (slug : string) (item : Entry) : Candidate :=
  new_candidate
    {| entry_id := entry_id item; entry_name := entry_name item;
       entry_symbol := entry_symbol item; entry_slug := entry_slug item;
       entry_rank := None; entry_urls := None |}
    "slug" "medium" (Some slug) None.

Definition slug_candidates (slug : string) (kv : string * InfoValue)
    : list Candidate :=
  match snd kv with
  | Many info => map (slug_candidate slug) info
  | One info => [slug_candidate slug info]
  end.

(** Strategy 3, lines 87-117.  On a list payload [data.items()] raises. *)
Definition slug_from_name (client : Client) (name : option string)
    (run : Run) : Run :=
  if truthy_opt name && negb (nonempty (candidates run)) then
    let name := get_or name "" in
    let slug := _name_to_slug name in
    let failed (e : exn) (trace : Trace) :=
      {| candidates := candidates run;
         log := log run ++ [("slug(" ++ slug ++ "): no match - "
                               ++ str_exn e)%string];
         calls := trace |} in
    let nothing (trace : Trace) :=
      {| candidates := candidates run; log := log run; calls := trace |} in
    match get_cryptocurrency_info transport client None None (Some slug)
                                  None (calls run) with
    | (Ok result, trace) =>
        match get_or (data result) (DataDict []) with
        | DataDict [] => nothing trace
        | DataDict data =>
            let candidates :=
              candidates run ++ flat_map (slug_candidates slug) data in
            {| candidates := candidates;
               log := log run
                      ++ [("slug(" ++ slug ++ "): "
                             ++ str_of_nat (List.length candidates)
                             ++ " found")%string];
               calls := trace |}
        | DataList [] => nothing trace
        | DataList _ =>
            failed (AttributeError
                      "'list' object has no attribute 'items'") trace
        end
    | (Raise e, trace) => failed e trace
    end
  else run.

Definition fuzzy_candidate (m : FuzzyMatch) : Candidate :=
  {| item := fm_item m;
     _match_method := "fuzzy_name";
     _confidence := "low";
     _matched_query := None;
     _original_query := None;
     _similarity := Some (fm_similarity m);
     _match_type := fm_match_type m;
     _warning := Some "Fuzzy match - verify with homepage or manual check";
     _homepage_match := None;
     _website_urls := None |}.

(** Strategy 4, lines 120-133. *)
Definition fuzzy_name (client : Client) (name : option string) (run : Run)
    : Run :=
  if truthy_opt name && negb (nonempty (candidates run)) then
    let name := get_or name "" in
    let (fuzzy_matches, trace) :=
      _fuzzy_search_by_name client name (calls run) in
    match fuzzy_matches with
    | [] =>
        {| candidates := candidates run;
           log := log run ++ [("fuzzy_name(" ++ name
                                 ++ "): no match")%string];
           calls := trace |}
    | _ =>
        {| candidates := candidates run ++ map fuzzy_candidate fuzzy_matches;
           log := log run
                  ++ [("fuzzy_name(" ++ name ++ "): "
                         ++ str_of_nat (List.length fuzzy_matches)
                         ++ " found")%string];
           calls := trace |}
    end
  else run.

(** Strategy 5, lines 136-138. *)
Definition homepage_verification (client : Client)
    (homepage : option string) (run : Run) : Run :=
  if truthy_opt homepage && nonempty (candidates run) then
    let homepage := get_or homepage "" in
    let (candidates, trace) :=
      _verify_candidates_by_homepage client (candidates run) homepage
                                     (calls run) in
    {| candidates := candidates;
       log := log run
              ++ [("homepage_verification: checked "
                     ++ str_of_nat (List.length candidates)
                     ++ " candidates")%string];
       calls := trace |}
  else run.

(** Lines 42-138: the five strategies in order, from no candidate. *)
Definition run_strategies (client : Client)
    (name symbol homepage : option string) (trace : Trace) : Run :=
  let run := {| candidates := []; log := []; calls := trace |} in
  let run := exact_symbol client symbol run in
  let run := symbol_variation client symbol run in
  let run := slug_from_name client name run in
  let run := fuzzy_name client name run in
  homepage_verification client homepage run.

(* ---------------------------------------------------------------- *)
(** ** [_get_client] and [search_cryptocurrency] *)

(** The two variables of [os.environ] that [_get_client] reads. *)
Record Environ : Type := {
  COINMARKETCAP_API_KEY : option string;
  CMC_API_KEY : option string
}.

Variable environ : Environ.

(** [a or b] on optional strings. *)
Definition or_else (a b : option string) : option string :=
  if truthy_opt a then a else b.

(** [_get_client], lines 697-711: the result and the new value of the
    global [_client]. *)
Definition _get_client (_client : option Client)
    : result Client * option Client :=
  match _client with
  | Some client => (Ok client, _client)
  | None =>
      let api_key :=
        or_else (COINMARKETCAP_API_KEY environ) (CMC_API_KEY environ) in
      if negb (truthy_opt api_key)
      then
        (Raise (ValueError
                  ("COINMARKETCAP_API_KEY or CMC_API_KEY environment "
                   ++ "variable is required. "
                   ++ "Get your free API key at "
                   ++ "https://coinmarketcap.com/api/")),
         None)
      else
        let client := {| api_key := get_or api_key "" |} in
        (Ok client, Some client)
  end.

(** The process state a call reads and leaves: the global [_client] and
    the requests made so far. *)
Record World : Type := {
  _client : option Client;
  requests : Trace
}.

Definition confidence_order : list (string * Z) :=
  [("verified", 0%Z); ("high", 1%Z); ("medium", 2%Z); ("low", 3%Z)].

(** The sort key of line 142.  Every candidate has a ["_confidence"], so
    the default of [x.get] is not reached. *)
Definition confidence_key (x : Candidate) : Z :=
  get_or (lookup (_confidence x) confidence_order) 3%Z.

(** Lines 145-149. *)
Definition make_warnings (candidates : list Candidate)
    (homepage : option string) : list string :=
  let warnings := [] in
  let warnings :=
    match candidates with
    | c :: _ =>
        if _confidence c =? "low"
        then warnings
             ++ [("Best match is low confidence - "
                  ++ "provide homepage URL for verification")%string]
        else warnings
    | [] => warnings
    end in
  let warnings :=
    if (1 <? List.length candidates)%nat && negb (truthy_opt homepage)
    then warnings
         ++ [("Multiple matches ("
                ++ str_of_nat (List.length candidates)
                ++ ") - provide homepage URL to disambiguate")%string]
    else warnings in
  warnings.

(** Lines 140-159: sort, warnings and the returned dictionary. *)
Definition make_result (name symbol homepage : option string)
    (candidates : list Candidate) (search_log : list string)
    : SearchResult :=
  let candidates := list_sort confidence_key Z.ltb candidates in
  let warnings := make_warnings candidates homepage in
  {| query := {| q_name := name; q_symbol := symbol;
                 q_homepage := homepage |};
     found := (0 <? List.length candidates)%nat;
     match_count := List.length candidates;
     best_match := match candidates with
                   | c :: _ => Some c
                   | [] => None
                   end;
     all_matches := firstn 10 candidates;
     search_log := search_log;
     warnings := match warnings with
                 | [] => None
                 | _ => Some warnings
                 end |}.

(** [search_cryptocurrency], lines 16-159. *)
Definition search_cryptocurrency (name symbol homepage : option string)
    (world : World) : result SearchResult * World :=
  if negb (truthy_opt (or_else name symbol))
  then (Raise (ValueError "At least one of name or symbol is required"),
        world)
  else
    match _get_client (_client world) with
    | (Raise e, slot) =>
        (Raise e, {| _client := slot; requests := requests world |})
    | (Ok client, slot) =>
        let run :=
          run_strategies client name symbol homepage (requests world) in
        (Ok (make_result name symbol homepage (candidates run) (log run)),
         {| _client := slot; requests := calls run |})
    end.

End Server.

(* ================================================================== *)
(** * Vocabulary of the specification *)
(* ================================================================== *)

(** Every character of [s] is in the class [p]. *)
Fixpoint all_chars (p : ascii -> bool) (s : string) : bool :=
  match s with
  | "" => true
  | String c s' => p c && all_chars p s'
  end.

(** No two neighbouring characters of [s] are both in the class [p]. *)
Fixpoint no_adjacent (p : ascii -> bool) (s : string) : bool :=
  match s with
  | "" => true
  | String c s' => negb (p c && starts_in p s') && no_adjacent p s'
  end.

(** The alphabet of a slug: [a-z], [0-9] and the hyphen. *)
Definition slug_letter (c : ascii) : bool := is_az c || is_09 c || is_hyphen c.

(** The shape of a derived slug: slug letters only, hyphens single and
    neither first nor last. *)
Definition is_slug (s : string) : bool :=
  all_chars slug_letter s && no_adjacent is_hyphen s
  && negb (starts_in is_hyphen s) && negb (last_is is_hyphen s).

(** The six rules of symbol variation, each as the list it contributes for
    a symbol that is already upper-cased and trimmed. *)
Definition rule_a (symbol : string) : list string :=
  get_or (lookup symbol expansions) [].

Definition rule_b (symbol : string) : list string :=
  flat_map
    (fun suffix =>
       if endswith symbol suffix
          && (String.length suffix <? String.length symbol)%nat
       then [take (String.length symbol - String.length suffix) symbol]
       else [])
    suffixes.

Definition rule_c (symbol : string) : list string :=
  if (String.length symbol <=? 4)%nat
  then [(symbol ++ "TOKEN")%string; (symbol ++ "COIN")%string] else [].

Definition rule_d (symbol : string) : list string :=
  if truthy symbol && last_is isdigit symbol
  then [rstrip is_09 symbol] else [].

Definition rule_e (symbol : string) : list string :=
  if (3 <=? String.length symbol)%nat && endswith symbol "R"
  then [(take (String.length symbol - 1) symbol ++ "ER")%string] else [].

Definition rule_f (symbol : string) : list string :=
  if (3 <=? String.length symbol)%nat && endswith symbol "N"
  then [(symbol ++ "ET")%string] else [].

(** The transport status is in the success range. *)
Definition in_success_range (status_code : Z) : Prop :=
  (200 <= status_code <= 299)%Z.

(** Sample catalog used to run the model. *)
Definition bitcoin : Entry :=
  {| entry_id := 1; entry_name := "Bitcoin"; entry_symbol := "BTC";
     entry_slug := "bitcoin"; entry_rank := Some 1%Z;
     entry_urls := Some {| website := Some ["https://bitcoin.org/"] |} |}.

Definition ethereum : Entry :=
  {| entry_id := 1027; entry_name := "Ethereum"; entry_symbol := "ETH";
     entry_slug := "ethereum"; entry_rank := Some 2%Z;
     entry_urls := Some {| website := Some ["https://www.ethereum.org"] |} |}.

Definition ethereum_classic : Entry :=
  {| entry_id := 1321; entry_name := "Ethereum Classic";
     entry_symbol := "ETC"; entry_slug := "ethereum-classic";
     entry_rank := Some 30%Z;
     entry_urls :=
       Some {| website := Some ["https://ethereumclassic.org"] |} |}.

Definition reply_ok (payload : Payload) : Outcome :=
  Replied
    {| status_code := 200;
       json := {| status := Some {| error_code := Some 0%Z;
                                    error_message := Some None |};
                  data := Some payload |} |}.

Definition reply_error (status_code : Z) (message : string) : Outcome :=
  Replied
    {| status_code := status_code;
       json := {| status := Some {| error_code := Some status_code;
                                    error_message := Some (Some message) |};
                  data := None |} |}.

Definition param_is (key value : string) (request : Request) : bool :=
  match lookup key (params request) with
  | Some (PStr s) => s =? value
  | _ => false
  end.

Definition has_param (key : string) (request : Request) : bool :=
  match lookup key (params request) with
  | Some _ => true
  | None => false
  end.

(** A remote catalog of three assets: the map endpoint answers a symbol
    lookup with the assets of that symbol and a lookup without symbol with
    the whole catalog; the info endpoint answers a lookup by id with the
    metadata of bitcoin and ethereum and rejects every other lookup. *)
Definition sample_transport (_ : Trace) (request : Request) : Outcome :=
  if path request =? "/v1/cryptocurrency/map" then
    if has_param "symbol" request then
      reply_ok
        (DataList
           (filter (fun e => param_is "symbol" (entry_symbol e) request)
                   [bitcoin; ethereum; ethereum_classic]))
    else reply_ok (DataList [bitcoin; ethereum; ethereum_classic])
  else if has_param "id" request then
    reply_ok (DataDict [("1", One bitcoin); ("1027", One ethereum)])
  else reply_error 400 "Not found".

(** A remote catalog that lists nothing. *)
Definition empty_catalog (_ : Trace) (request : Request) : Outcome :=
  if path request =? "/v1/cryptocurrency/map"
  then reply_ok (DataList [])
  else reply_error 400 "Not found".

Definition sample_environ : Environ :=
  {| COINMARKETCAP_API_KEY := Some "test-api-key"; CMC_API_KEY := None |}.

Definition sample_client : Client := {| api_key := "test-api-key" |}.

Definition sample_world : World := {| _client := None; requests := [] |}.

(** The rank of a confidence tier in the final sort: the smaller, the
    higher the tier. *)
Definition tier_rank (tier : string) : Z :=
  get_or (lookup tier confidence_order) 3%Z.

(** The candidates of [l] whose sort key is [k], in the order of [l]. *)
Definition of_key {A : Type} (key : A -> Z) (k : Z) (l : list A) : list A :=
  filter (fun a => (key a =? k)%Z) l.

(** A client is configured: the global [_client] is set, or one of the two
    environment variables holds a key. *)
Definition configured (environ : Environ) (world : World) : bool :=
  match _client world with
  | Some _ => true
  | None =>
      truthy_opt (or_else (COINMARKETCAP_API_KEY environ)
                          (CMC_API_KEY environ))
  end.

(** Every request is answered by a failure: the transport raises, or the
    reply carries an error code or a status outside the success range. *)
Definition always_failing (transport : Trace -> Request -> Outcome) : Prop :=
  forall self method path params trace,
  exists e trace',
    _request transport self method path params trace = (Raise e, trace').

(** A transport that cannot reach the remote API. *)
Definition unreachable (_ : Trace) (_ : Request) : Outcome :=
  Failed "All connection attempts failed".

(** What a strategy does to a run without candidates when it finds none:
    it leaves the run without candidates and appends [extra] to the log. *)
Definition finds_nothing (run run' : Run) (extra : list string) : Prop :=
  candidates run' = [] /\ log run' = log run ++ extra.

(** [info.get("urls", {}).get("website", [])] *)
Definition website_urls_of (info : Entry) : list string :=
  get_or (website (get_or (entry_urls info) {| website := None |})) [].

(** The key under which the metadata of a candidate is looked up. *)
Definition cid_of (c : Candidate) : string := str_of_Z (entry_id (item c)).

(** The candidate's fetched metadata is a single object: the loop of the
    verification does not stop at this candidate. *)
Definition not_a_list (info_data : list (string * InfoValue))
    (c : Candidate) : Prop :=
  forall infos, lookup (cid_of c) info_data <> Some (Many infos).

(** The request [get_cryptocurrency_map(symbol=symbol)] sends. *)
Definition lookup_request (symbol : string) : Request :=
  {| method := "GET";
     path := "/v1/cryptocurrency/map";
     params :=
       set_if "symbol" (Some symbol)
         [ ("listing_status", PStr "active"); ("start", PInt 1);
           ("limit", PInt 100); ("sort", PStr "cmc_rank") ] |}.

(** The request of the fuzzy search for the catalog page. *)
Definition catalog_request : Request :=
  {| method := "GET";
     path := "/v1/cryptocurrency/map";
     params :=
       [ ("listing_status", PStr "active"); ("start", PInt 1);
         ("limit", PInt 5000); ("sort", PStr "cmc_rank") ] |}.

(** U+00B2, SUPERSCRIPT TWO: a digit for [str.isdigit], not one of
    [0123456789]. *)
Definition superscript_two : ascii := "178"%char.

(** The symbol [A] followed by U+00B2, and the same with a space on each
    side. *)
Definition a_squared : string := String "A" (String superscript_two "").
Definition padded_a_squared : string := (" " ++ a_squared ++ " ")%string.

(** An asset whose name is its ticker and whose slug is the long name. *)
Definition short_name_long_slug : Entry :=
  {| entry_id := 1321; entry_name := "ETC"; entry_symbol := "ETC";
     entry_slug := "ethereum-classic"; entry_rank := Some 30%Z;
     entry_urls := None |}.

Definition one_asset_catalog (_ : Trace) (request : Request) : Outcome :=
  if path request =? "/v1/cryptocurrency/map"
  then reply_ok (DataList [short_name_long_slug])
  else reply_error 400 "Not found".

(** A client call raised. *)
Definition raised {A : Type} (outcome : result A * Trace) : bool :=
  match fst outcome with
  | Raise _ => true
  | Ok _ => false
  end.

(** The number of the requests [made], sent one after the other on top of
    [trace], at which [_request] raises. *)
Fixpoint failures (transport : Trace -> Request -> Outcome) (self : Client)
    (trace : Trace) (made : list Request) : nat :=
  match made with
  | [] => 0
  | request :: rest =>
      (if raised (_request transport self (method request) (path request)
                           (params request) trace)
       then 1 else 0)
      + failures transport self (trace ++ [request]) rest
  end.

(** A strategy accounts for its failures: it only adds requests to the
    trace, and it adds at least one log entry for each request that
    failed. *)
Definition accounts (transport : Trace -> Request -> Outcome)
    (self : Client) (run run' : Run) : Prop :=
  exists made,
    calls run' = calls run ++ made
    /\ List.length (log run) + failures transport self (calls run) made
       <= List.length (log run').

(** The mocked map endpoint of the unit tests: the same two assets for
    every lookup. *)
Definition mocked_map (_ : Trace) (request : Request) : Outcome :=
  if path request =? "/v1/cryptocurrency/map"
  then reply_ok (DataList [bitcoin; ethereum])
  else reply_error 400 "Invalid value for symbol".

(** An asset whose name has no letter or digit. *)
Definition symbols_only_name : Entry :=
  {| entry_id := 9999; entry_name := "$$$"; entry_symbol := "USD3";
     entry_slug := "dollar"; entry_rank := Some 4000%Z;
     entry_urls := None |}.



(** An info endpoint that answers a lookup by id with a list of objects for
    ethereum and with a single object for bitcoin. *)
Definition list_valued_metadata (_ : Trace) (request : Request) : Outcome :=
  if path request =? "/v1/cryptocurrency/map"
  then reply_ok (DataList [bitcoin; ethereum])
  else reply_ok (DataDict [("1027", Many [ethereum]); ("1", One bitcoin)]).

(** Two candidates of the fuzzy match, in the order ethereum, bitcoin. *)
Definition fuzzy_ethereum : Candidate :=
  fuzzy_candidate {| fm_item := ethereum; fm_similarity := 1;
                     fm_match_type := Some "exact" |}.

Definition fuzzy_bitcoin : Candidate :=
  fuzzy_candidate {| fm_item := bitcoin; fm_similarity := b64 (9 # 10);
                     fm_match_type := Some "contains" |}.

(* ================================================================== *)
(** * Vocabulary of the further properties *)
(* ================================================================== *)

(** What homepage verification may do to a candidate: the entry, the match
    method and the other resolver fields stay, and the confidence does not
    fall. *)
Definition upgrade_of (c c' : Candidate) : Prop :=
  item c' = item c
  /\ _match_method c' = _match_method c
  /\ _matched_query c' = _matched_query c
  /\ _original_query c' = _original_query c
  /\ _similarity c' = _similarity c
  /\ _match_type c' = _match_type c
  /\ (tier_rank (_confidence c') <= tier_rank (_confidence c))%Z.

(** [any(_normalize_url(url) == normalized_homepage for url in urls)] and
    [any(_extract_domain(url) == _extract_domain(homepage) for ...)]. *)
Definition exact_match (homepage : string) (urls : list string) : bool :=
  existsb (fun url => _normalize_url url =? _normalize_url homepage) urls.

Definition domain_match (homepage : string) (urls : list string) : bool :=
  existsb (fun url => _extract_domain url =? _extract_domain homepage) urls.

(** The four match methods and the confidence a strategy gives its
    candidates. *)
Definition match_methods : list string :=
  ["exact_symbol"; "symbol_variation"; "slug"; "fuzzy_name"].

Definition base_tier (match_method : string) : string :=
  if match_method =? "exact_symbol" then "high"
  else if match_method =? "fuzzy_name" then "low"
  else "medium".

(** A candidate as a lookup strategy creates it. *)
Definition fresh (c : Candidate) : Prop :=
  In (_match_method c) match_methods
  /\ _confidence c = base_tier (_match_method c)
  /\ _homepage_match c = None
  /\ _website_urls c = None
  /\ (_warning c <> None <-> _match_method c = "fuzzy_name").

(** A candidate as a result holds it: its confidence is the one of its
    method or a higher one, and it carries a warning exactly when it is a
    fuzzy match that was not verified. *)
Definition coherent (c : Candidate) : Prop :=
  In (_match_method c) match_methods
  /\ (_confidence c = base_tier (_match_method c)
      \/ _confidence c = "verified"
      \/ (_match_method c = "fuzzy_name" /\ _confidence c = "medium"))
  /\ (_warning c <> None
      <-> _match_method c = "fuzzy_name" /\ _confidence c <> "verified").

(** The candidates found by the four lookup strategies, before the
    homepage verification. *)
Definition lookup_strategies (transport : Trace -> Request -> Outcome)
    (client : Client) (name symbol : option string) (trace : Trace) : Run :=
  fuzzy_name transport client name
    (slug_from_name transport client name
       (symbol_variation transport client symbol
          (exact_symbol transport client symbol
             {| candidates := []; log := []; calls := trace |}))).

(** Every candidate of the list was created by the method [m]. *)
Definition all_fresh (m : string) (cands : list Candidate) : Prop :=
  Forall (fun c => fresh c /\ _match_method c = m) cands.

Definition all_coherent (m : string) (cands : list Candidate) : Prop :=
  Forall (fun c => coherent c /\ _match_method c = m) cands.

(** A gated strategy leaves a run that has candidates as it is, and gives
    a run without candidates only candidates of its own method. *)
Definition gated (m : string) (strategy : Run -> Run) : Prop :=
  forall run,
    (candidates run <> [] -> candidates (strategy run) = candidates run)
    /\ (candidates run = [] -> all_fresh m (candidates (strategy run))).

(** A strategy sends at most [n] requests and touches the trace in no
    other way. *)
Definition sends (n : nat) (run run' : Run) : Prop :=
  exists made, calls run' = calls run ++ made /\ List.length made <= n.

(** The variants strategy 2 does not skip, in the order it tries them. *)
Definition unskipped (symbol : string) : list string :=
  filter (fun variant => negb (variant =? upper symbol))
         (_generate_symbol_variations symbol).

(** A character that [str.lower] leaves as it is, and one that [str.upper]
    leaves as it is. *)
Definition lowered (c : ascii) : bool := Ascii.eqb (lower_char c) c.

Definition upper_fixed (c : ascii) : bool :=
  upper_char c =? String c EmptyString.

(** A digit for [str.isdigit] that is not one of [0123456789]. *)
Definition other_digit (c : ascii) : bool := isdigit c && negb (is_09 c).

(** Neither a slash nor a colon. *)
Definition host_char (c : ascii) : bool :=
  negb (is_slash c) && negb (is_code 58 c).

(* ================================================================== *)
(** * cmc_api.py: the quotes operation *)
(* ================================================================== *)

(** [CoinMarketCapClient.get_cryptocurrency_quotes_latest], lines 119-150.
    The payload of the endpoint is a mapping from keys to entries; no code
    embedded here reads it. *)
Definition get_cryptocurrency_quotes_latest
    (transport : Trace -> Request -> Outcome) (self : Client)
    (id symbol slug : option string) (convert : string) : IO Envelope :=
  let params := [("convert", PStr convert)] in
  let params := set_if "id" id params in
  let params := set_if "symbol" symbol params in
  let params := set_if "slug" slug params in
  if negb (truthy_opt (or_else (or_else id symbol) slug))
  then
    fun trace =>
      (Raise (ValueError "At least one of id, symbol, or slug is required"),
       trace)
  else _request transport self "GET" "/v2/cryptocurrency/quotes/latest"
                params.

(** The parameters a caller supplied: those that are neither [None] nor
    empty, as the pairs a request carries. *)
Definition supplied (arguments : list (string * option string))
    : list (string * param) :=
  map (fun kv => (fst kv, PStr (get_or (snd kv) "")))
      (filter (fun kv => truthy_opt (snd kv)) arguments).

(* ================================================================== *)
(** * Vocabulary of the fuzzy name match *)
(* ================================================================== *)

(** The values of ["_match_type"]. *)
Definition match_types : list string :=
  ["exact"; "contains"; "reverse_contains"; "word_overlap"].

(** What the rules of lines 239-259 give: no rule and the similarity 0.0,
    or a rule and a similarity between 0.6 and 1.0, which is 1.0 for the
    exact rule and at most 0.9 for the others. *)
Definition well_scored (similarity : Q) (match_type : option string)
    : Prop :=
  match match_type with
  | None => similarity = 0%Q
  | Some rule =>
      In rule match_types
      /\ (b64 (6 # 10) <= similarity)%Q
      /\ ((rule = "exact" /\ (similarity == 1)%Q)
          \/ (rule <> "exact" /\ (similarity <= b64 (9 # 10))%Q))
  end.

(** The float nearest to a number of hundredths between 0.60 and 1.00, as
    [round(x, 2)] gives for a kept score. *)
Definition hundredths (q : Q) : Prop :=
  exists n : Z, (60 <= n <= 100)%Z /\ q = b64 (n # 100).

(** The entry of a match, scored against the query: the match holds the
    rounded similarity and the rule, and the similarity reached 0.6. *)
Definition scored (name_lower name_clean : string) (m : FuzzyMatch) : Prop :=
  (b64 (6 # 10)
   <= fst (similarity_of name_lower name_clean (fm_item m)))%Q
  /\ fm_similarity m
     = round2 (fst (similarity_of name_lower name_clean (fm_item m)))
  /\ fm_match_type m
     = snd (similarity_of name_lower name_clean (fm_item m)).

(** The rank the sort of line 269 reads. *)
Definition rank_of (m : FuzzyMatch) : Z :=
  get_or (entry_rank (fm_item m)) 99999%Z.

(** [a] is not behind [b] in the order of line 269: the larger similarity
    first, equal similarities by ascending rank. *)
Definition ranked_before (a b : FuzzyMatch) : Prop :=
  (fm_similarity b < fm_similarity a)%Q
  \/ ((fm_similarity a == fm_similarity b)%Q /\ (rank_of a <= rank_of b)%Z).

(** The alphanumeric lower-case form the rules compare. *)
Definition query_clean (name : string) : string :=
  clean (strip (lower name)).

(* ================================================================== *)
(** * server.py: the stand-alone similarity score *)
(* ================================================================== *)

(** [re.findall(r'\w+', s)]: the maximal runs of word characters, from left
    to right.  [cur] is the run being read, reversed. *)
Fixpoint all_word_runs (cur : list ascii) (s : string) : list string :=
  let flush (k : list string) :=
    if (1 <=? List.length cur)%nat
    then string_of_list_ascii (rev cur) :: k else k in
  match s with
  | "" => flush []
  | String c s' =>
      if is_word c then all_word_runs (c :: cur) s'
      else flush (all_word_runs [] s')
  end.

Definition findall_all_words (s : string) : list string :=
  all_word_runs [] s.

(** [a | b] on strings, as a duplicate-free list. *)
Definition union (a b : list string) : list string :=
  nodup string_dec (a ++ b).

(** The loop of lines 313-317: the number of leading positions at which the
    two strings agree. *)
Fixpoint common_prefix (a b : string) : nat :=
  match a, b with
  | String x a', String y b' =>
      if Ascii.eqb x y then S (common_prefix a' b') else 0
  | _, _ => 0
  end.

(** Lines 298-305: the word rule, [None] when it does not return. *)
Definition jaccard_score (query_lower name_lower : string) : option Q :=
  let query_words := set_of (findall_all_words query_lower) in
  let name_words := set_of (findall_all_words name_lower) in
  if nonempty query_words && nonempty name_words
  then
    let intersection := inter query_words name_words in
    let union := union query_words name_words in
    let jaccard := int_div (List.length intersection) (List.length union) in
    if Qle_bool (b64 (5 # 10)) jaccard
    then Some (float_add (b64 (7 # 10)) (float_mul jaccard (b64 (2 # 10))))
    else None
  else None.

(** Lines 308-320: the prefix rule, [None] when it does not return. *)
Definition prefix_score (query_clean name_clean : string) : option Q :=
  if (String.length query_clean <=? 10)%nat
     && (String.length name_clean <=? 15)%nat
  then
    let max_len :=
      Nat.max (String.length query_clean) (String.length name_clean) in
    if (0 <? max_len)%nat
    then
      let prefix_ratio := int_div (common_prefix query_clean name_clean)
                                  max_len in
      if Qle_bool (b64 (6 # 10)) prefix_ratio
      then Some (float_add (b64 (7 # 10))
                           (float_mul prefix_ratio (b64 (1 # 10))))
      else None
    else None
  else None.

(** [_calculate_similarity], lines 276-324. *)
Definition _calculate_similarity (query name symbol slug : string) : Q :=
  let query_clean := clean (lower query) in
  let name_clean := clean (lower name) in
  let slug_clean := clean (lower slug) in
  if (query_clean =? name_clean) || (query_clean =? slug_clean)
  then 1%Q
  else if contains query_clean name_clean || contains query_clean slug_clean
  then b64 (9 # 10)
  else if startswith name_clean query_clean
          || startswith slug_clean query_clean
  then b64 (85 # 100)
  else
    match jaccard_score (lower query) (lower name) with
    | Some score => score
    | None =>
        match prefix_score query_clean name_clean with
        | Some score => score
        | None => 0%Q
        end
    end.

(** The query is the name or the slug, up to case and to characters that
    are not letters or digits. *)
Definition same_clean (query name slug : string) : Prop :=
  clean (lower query) = clean (lower name)
  \/ clean (lower query) = clean (lower slug).

(* ================================================================== *)
(** * Facts about characters and strings *)
(* ================================================================== *)

(** A statement about one character is settled on its 256 values. *)
Ltac by_char c :=
  destruct c as [[] [] [] [] [] [] [] []]; vm_compute; try reflexivity;
  try discriminate; auto.

Lemma slug_letter_lower (c : ascii) :
  slug_letter c = true -> lower_char c = c.
Proof. by_char c. Qed.

Lemma slug_letter_not_space (c : ascii) :
  slug_letter c = true -> space_or_underscore c = false.
Proof. by_char c. Qed.

Lemma slug_letter_isspace (c : ascii) :
  slug_letter c = true -> isspace c = false.
Proof. by_char c. Qed.

Lemma slug_letter_slug_char (c : ascii) :
  slug_letter c = true -> slug_char c = true.
Proof. by_char c. Qed.

Lemma slug_char_letter (c : ascii) :
  slug_char c = true -> space_or_underscore c = false ->
  slug_letter c = true.
Proof. by_char c. Qed.

Lemma is_hyphen_eq (c : ascii) : is_hyphen c = true -> c = "-"%char.
Proof. by_char c. Qed.

Lemma is_hyphen_letter (c : ascii) : is_hyphen c = true -> slug_letter c = true.
Proof. by_char c. Qed.

Section Strings.

Variable p : ascii -> bool.

Lemma all_chars_keep (s : string) : all_chars p (keep p s) = true.
Proof.
  induction s as [|c s IH]; simpl; auto.
  destruct (p c) eqn:E; simpl; auto. now rewrite E.
Qed.

Lemma keep_id (s : string) : all_chars p s = true -> keep p s = s.
Proof.
  induction s as [|c s IH]; simpl; auto.
  intros H. apply andb_true_iff in H as [-> H]. now rewrite IH.
Qed.

Lemma all_chars_impl (q : ascii -> bool) (s : string) :
  (forall c, p c = true -> q c = true) ->
  all_chars p s = true -> all_chars q s = true.
Proof.
  intros Hpq. induction s as [|c s IH]; simpl; auto.
  intros H. apply andb_true_iff in H as [Hc H].
  now rewrite (Hpq _ Hc), IH.
Qed.

Lemma lstrip_none (s : string) : starts_in p s = false -> lstrip p s = s.
Proof. destruct s as [|c s]; simpl; auto. now intros ->. Qed.

Lemma starts_in_lstrip (s : string) : starts_in p (lstrip p s) = false.
Proof.
  induction s as [|c s IH]; simpl; auto.
  destruct (p c) eqn:E; simpl; auto.
Qed.

Lemma rstrip_none (s : string) : last_is p s = false -> rstrip p s = s.
Proof.
  unfold last_is. induction s as [|c s IH]; simpl; auto.
  destruct s as [|c' s'].
  - simpl. now intros ->.
  - intros H. rewrite (IH H). reflexivity.
Qed.

Lemma rstrip_cons (c : ascii) (s : string) :
  rstrip p (String c s) = EmptyString \/
  rstrip p (String c s) = String c (rstrip p s).
Proof.
  simpl. destruct (rstrip p s); [destruct (p c)|]; auto.
Qed.

Lemma last_is_rstrip (s : string) : last_is p (rstrip p s) = false.
Proof.
  unfold last_is. induction s as [|c s IH]; simpl; auto.
  destruct (rstrip p s) as [|c' r] eqn:E.
  - destruct (p c) eqn:Ec; simpl; auto.
  - exact IH.
Qed.

Lemma starts_in_rstrip (s : string) :
  starts_in p s = false -> starts_in p (rstrip p s) = false.
Proof.
  destruct s as [|c s]; auto.
  destruct (rstrip_cons c s) as [-> | ->]; auto.
Qed.

Lemma sub_runs_none (r s : string) :
  all_chars (fun c => negb (p c)) s = true -> sub_runs p r s = s.
Proof.
  induction s as [|c s IH]; simpl; auto.
  intros H. apply andb_true_iff in H as [Hc H].
  apply negb_true_iff in Hc. now rewrite Hc, IH.
Qed.

Lemma sub_runs_single (c0 : ascii) (s : string) :
  (forall c, p c = true -> c = c0) ->
  no_adjacent p s = true -> sub_runs p (String c0 EmptyString) s = s.
Proof.
  intros Hp. induction s as [|c s IH]; simpl; auto.
  intros H. apply andb_true_iff in H as [Hc H]. rewrite (IH H).
  destruct (p c) eqn:E; auto.
  simpl in Hc. apply negb_true_iff in Hc. rewrite Hc. simpl.
  now rewrite (Hp _ E).
Qed.

Lemma starts_in_sub_runs (c0 : ascii) (s : string) :
  p c0 = true ->
  starts_in p (sub_runs p (String c0 EmptyString) s) = starts_in p s.
Proof.
  intros H0. induction s as [|c s IH]; simpl; auto.
  destruct (p c) eqn:E; simpl; [|now rewrite E].
  destruct (starts_in p s) eqn:Es; simpl; [now rewrite IH | exact H0].
Qed.

Lemma no_adjacent_sub_runs (c0 : ascii) (s : string) :
  p c0 = true ->
  no_adjacent p (sub_runs p (String c0 EmptyString) s) = true.
Proof.
  intros H0. induction s as [|c s IH]; simpl; auto.
  destruct (p c) eqn:E.
  - destruct (starts_in p s) eqn:Es; auto.
    simpl. rewrite IH, starts_in_sub_runs, Es by assumption.
    now rewrite andb_false_r.
  - simpl. now rewrite E, IH.
Qed.

End Strings.

Section StringsTwoClasses.

Variables p q : ascii -> bool.

Lemma all_chars_lstrip (s : string) :
  all_chars q s = true -> all_chars q (lstrip p s) = true.
Proof.
  induction s as [|c s IH]; simpl; auto.
  intros H. destruct (p c); auto.
  apply andb_true_iff in H as [_ H]. auto.
Qed.

Lemma all_chars_rstrip (s : string) :
  all_chars q s = true -> all_chars q (rstrip p s) = true.
Proof.
  induction s as [|c s IH]; auto.
  intros H. simpl in H. apply andb_true_iff in H as [Hc H].
  destruct (rstrip_cons p c s) as [-> | ->]; simpl; auto.
  now rewrite Hc, IH.
Qed.

Lemma no_adjacent_lstrip (s : string) :
  no_adjacent q s = true -> no_adjacent q (lstrip p s) = true.
Proof.
  induction s as [|c s IH]; simpl; auto.
  intros H. destruct (p c); [|simpl; exact H].
  apply andb_true_iff in H as [_ H]. auto.
Qed.

Lemma starts_in_rstrip_le (s : string) :
  starts_in q (rstrip p s) = true -> starts_in q s = true.
Proof.
  destruct s as [|c s]; auto.
  destruct (rstrip_cons p c s) as [-> | ->]; simpl; auto. discriminate.
Qed.

Lemma no_adjacent_rstrip (s : string) :
  no_adjacent q s = true -> no_adjacent q (rstrip p s) = true.
Proof.
  induction s as [|c s IH]; auto.
  intros H. simpl in H. apply andb_true_iff in H as [Hc H].
  destruct (rstrip_cons p c s) as [-> | ->]; simpl; auto.
  rewrite (IH H), andb_true_r.
  destruct (q c); auto. simpl in *.
  destruct (starts_in q (rstrip p s)) eqn:E; auto.
  apply starts_in_rstrip_le in E. now rewrite E in Hc.
Qed.

(** Replacing the runs of [p] by one character of [q] in a string of class
    [p] or [q] gives a string of class [q]. *)
Lemma all_chars_sub_runs (c0 : ascii) (s : string) :
  q c0 = true ->
  all_chars (fun c => p c || q c) s = true ->
  all_chars q (sub_runs p (String c0 EmptyString) s) = true.
Proof.
  intros H0. induction s as [|c s IH]; simpl; auto.
  intros H. apply andb_true_iff in H as [Hc H].
  destruct (p c) eqn:E.
  - destruct (starts_in p s); simpl; auto. now rewrite H0, IH.
  - simpl in *. now rewrite Hc, IH.
Qed.

End StringsTwoClasses.

Lemma starts_in_outside (p : ascii -> bool) (s : string) :
  all_chars (fun c => negb (p c)) s = true -> starts_in p s = false.
Proof.
  destruct s as [|c s]; simpl; auto.
  intros H. apply andb_true_iff in H as [H _]. now apply negb_true_iff.
Qed.

Lemma last_is_outside (p : ascii -> bool) (s : string) :
  all_chars (fun c => negb (p c)) s = true -> last_is p s = false.
Proof.
  unfold last_is. induction s as [|c s IH]; simpl; auto.
  intros H. apply andb_true_iff in H as [Hc H].
  destruct s as [|c' s']; [now apply negb_true_iff | auto].
Qed.

Lemma lower_slug_letters (s : string) :
  all_chars slug_letter s = true -> lower s = s.
Proof.
  induction s as [|c s IH]; simpl; auto.
  intros H. apply andb_true_iff in H as [Hc H].
  now rewrite slug_letter_lower, IH.
Qed.

Lemma slug_char_split (c : ascii) :
  slug_char c = true -> space_or_underscore c || slug_letter c = true.
Proof. by_char c. Qed.

Lemma slug_letter_or_hyphen (c : ascii) :
  slug_letter c = true -> is_hyphen c || slug_letter c = true.
Proof. intros ->. apply orb_true_r. Qed.

(** What [_name_to_slug] returns has the shape of a slug. *)
Lemma name_to_slug_is_slug (name : string) :
  is_slug (_name_to_slug name) = true.
Proof.
  unfold _name_to_slug, is_slug, strip_chars.
  set (x2 := keep slug_char (strip (lower name))).
  set (x3 := sub_runs space_or_underscore "-" x2).
  set (x4 := sub_runs is_hyphen "-" x3).
  assert (H2 : all_chars slug_char x2 = true) by apply all_chars_keep.
  assert (H3 : all_chars slug_letter x3 = true).
  { apply all_chars_sub_runs; [reflexivity|].
    revert H2. apply all_chars_impl, slug_char_split. }
  assert (H4 : all_chars slug_letter x4 = true).
  { apply all_chars_sub_runs; [reflexivity|].
    revert H3. apply all_chars_impl, slug_letter_or_hyphen. }
  assert (N4 : no_adjacent is_hyphen x4 = true)
    by now apply no_adjacent_sub_runs.
  rewrite all_chars_rstrip by now apply all_chars_lstrip.
  rewrite no_adjacent_rstrip by now apply no_adjacent_lstrip.
  rewrite starts_in_rstrip by apply starts_in_lstrip.
  now rewrite last_is_rstrip.
Qed.

(** A string that has the shape of a slug is its own slug. *)
Lemma name_to_slug_fixed (s : string) :
  is_slug s = true -> _name_to_slug s = s.
Proof.
  unfold is_slug. intros H.
  apply andb_true_iff in H as [H Hlast].
  apply andb_true_iff in H as [H Hfirst].
  apply andb_true_iff in H as [Hall Hadj].
  apply negb_true_iff in Hlast, Hfirst.
  assert (Hsp : all_chars (fun c => negb (isspace c)) s = true).
  { revert Hall. apply all_chars_impl. intros c Hc.
    now rewrite slug_letter_isspace. }
  assert (Hsu : all_chars (fun c => negb (space_or_underscore c)) s = true).
  { revert Hall. apply all_chars_impl. intros c Hc.
    now rewrite slug_letter_not_space. }
  unfold _name_to_slug, strip, strip_chars.
  rewrite lower_slug_letters by assumption.
  rewrite (lstrip_none isspace) by now apply starts_in_outside.
  rewrite (rstrip_none isspace) by now apply last_is_outside.
  rewrite keep_id
    by (revert Hall; apply all_chars_impl, slug_letter_slug_char).
  rewrite (sub_runs_none space_or_underscore) by assumption.
  rewrite sub_runs_single by (assumption || apply is_hyphen_eq).
  rewrite lstrip_none by assumption.
  now rewrite rstrip_none.
Qed.

(** C7.  Slug derivation is idempotent, and it maps the three names of the
    specification to the slugs given there. *)
Theorem name_to_slug_idempotent :
  (forall s : string, _name_to_slug (_name_to_slug s) = _name_to_slug s)
  /\ _name_to_slug "Render Token" = "render-token"
  /\ _name_to_slug "USD Coin (USDC)" = "usd-coin-usdc"
  /\ _name_to_slug "The Graph" = "the-graph".
Proof.
  split; [|repeat split; reflexivity].
  intros s. apply name_to_slug_fixed, name_to_slug_is_slug.
Qed.

(* ================================================================== *)
(** * Rounding to binary64 *)
(* ================================================================== *)

Lemma pow2_pos (e : Z) : (0 < pow2 e)%Q.
Proof. apply Qpower_0_lt. reflexivity. Qed.

Lemma pow2_le (a b : Z) : (a <= b)%Z -> (pow2 a <= pow2 b)%Q.
Proof. intros H. apply Qpower_le_compat_l; [exact H | discriminate]. Qed.

Lemma pow2_lt (a b : Z) : (a < b)%Z -> (pow2 a < pow2 b)%Q.
Proof. intros H. apply Qpower_lt_compat_l; [exact H | reflexivity]. Qed.

Lemma pow2_add (a b : Z) : (pow2 (a + b) == pow2 a * pow2 b)%Q.
Proof. apply Qpower_plus. discriminate. Qed.

Lemma pow2_nonneg (a : Z) :
  (0 <= a)%Z -> (pow2 a == inject_Z (2 ^ a))%Q.
Proof. intros H. unfold pow2. now rewrite Zpower_Qpower. Qed.

Lemma rne_floor (x : Q) : (Qfloor x <= rne x <= Qfloor x + 1)%Z.
Proof.
  unfold rne. destruct (_ ?= _)%Q; [destruct (Z.even _)| |]; lia.
Qed.

Lemma rne_inject_Z (n : Z) : rne (inject_Z n) = n.
Proof.
  unfold rne. rewrite Qfloor_Z.
  destruct (Qcompare_spec (inject_Z n - inject_Z n) (1 # 2)) as [H|H|H];
    [exfalso; lra | reflexivity | exfalso; lra].
Qed.

Lemma rne_monotone (x y : Q) : (x <= y)%Q -> (rne x <= rne y)%Z.
Proof.
  intros H. pose proof (Qfloor_resp_le x y H) as Hf.
  destruct (Z.eq_dec (Qfloor x) (Qfloor y)) as [E|E].
  - unfold rne. rewrite <- E.
    destruct (Qcompare_spec (x - inject_Z (Qfloor x)) (1 # 2)) as [Hx|Hx|Hx];
      destruct (Qcompare_spec (y - inject_Z (Qfloor x)) (1 # 2))
        as [Hy|Hy|Hy];
      try (exfalso; lra); try destruct (Z.even _); lia.
  - pose proof (rne_floor x). pose proof (rne_floor y). lia.
Qed.

Lemma flog2_spec (x : Q) :
  (0 < x)%Q -> (pow2 (flog2 x) <= x)%Q /\ (x < pow2 (flog2 x + 1))%Q.
Proof.
  destruct x as [n d]. intros Hx.
  assert (Hn : (0 < n)%Z).
  { revert Hx. unfold Qlt. simpl. lia. }
  unfold flog2. cbn [Qnum Qden].
  set (a := Z.log2 n). set (b := Z.log2 (Z.pos d)).
  destruct (Z.log2_spec n Hn) as [Ha1 Ha2]. fold a in Ha1, Ha2.
  destruct (Z.log2_spec (Z.pos d) ltac:(lia)) as [Hb1 Hb2].
  fold b in Hb1, Hb2.
  assert (Ha0 : (0 <= a)%Z) by apply Z.log2_nonneg.
  assert (Hb0 : (0 <= b)%Z) by apply Z.log2_nonneg.
  assert (Hx' : (n # d == inject_Z n / inject_Z (Z.pos d))%Q).
  { rewrite Qmake_Qdiv. reflexivity. }
  assert (Hd : (0 < inject_Z (Z.pos d))%Q) by reflexivity.
  assert (HA : (pow2 a <= inject_Z n)%Q /\ (inject_Z n < pow2 (a + 1))%Q).
  { rewrite !pow2_nonneg by lia. rewrite <- Zle_Qle, <- Zlt_Qlt.
    unfold Z.succ in Ha2. lia. }
  assert (HB : (pow2 b <= inject_Z (Z.pos d))%Q
               /\ (inject_Z (Z.pos d) < pow2 (b + 1))%Q).
  { rewrite !pow2_nonneg by lia. rewrite <- Zle_Qle, <- Zlt_Qlt.
    unfold Z.succ in Hb2. lia. }
  set (N := inject_Z n) in *. set (D := inject_Z (Z.pos d)) in *.
  clearbody N D.
  assert (Hlow : (pow2 (a - b - 1) < N / D)%Q).
  { apply Qlt_shift_div_l; [exact Hd|].
    assert (E : (pow2 a == pow2 (a - b - 1) * pow2 (b + 1))%Q).
    { rewrite <- pow2_add. now replace (a - b - 1 + (b + 1))%Z with a by lia. }
    pose proof (pow2_pos (a - b - 1)). nra. }
  assert (Hup : (N / D < pow2 (a - b + 1))%Q).
  { apply Qlt_shift_div_r; [exact Hd|].
    assert (E : (pow2 (a + 1) == pow2 (a - b + 1) * pow2 b)%Q).
    { rewrite <- pow2_add. now replace (a - b + 1 + b)%Z with (a + 1)%Z by lia. }
    pose proof (pow2_pos (a - b + 1)). nra. }
  destruct (Qle_bool (pow2 (a - b)) (n # d)) eqn:E.
  - apply Qle_bool_iff in E. rewrite Hx' in *. split; [exact E | exact Hup].
  - rewrite Hx'. split; [now apply Qlt_le_weak|].
    replace (a - b - 1 + 1)%Z with (a - b)%Z by lia.
    apply Qnot_le_lt. intros H. rewrite <- Hx' in H.
    apply Qle_bool_iff in H. congruence.
Qed.

Lemma flog2_monotone (x y : Q) :
  (0 < x)%Q -> (x <= y)%Q -> (flog2 x <= flog2 y)%Z.
Proof.
  intros Hx Hxy.
  destruct (flog2_spec x Hx) as [Hx1 _].
  destruct (flog2_spec y ltac:(lra)) as [_ Hy2].
  assert (H : (pow2 (flog2 x) < pow2 (flog2 y + 1))%Q) by lra.
  apply Qpower_lt_compat_l_inv in H; [lia | reflexivity].
Qed.

Lemma rne_le_integer (x : Q) (n : Z) :
  (x <= inject_Z n)%Q -> (rne x <= n)%Z.
Proof. intros H. rewrite <- (rne_inject_Z n). now apply rne_monotone. Qed.

Lemma rne_ge_integer (x : Q) (n : Z) :
  (inject_Z n <= x)%Q -> (n <= rne x)%Z.
Proof. intros H. rewrite <- (rne_inject_Z n). now apply rne_monotone. Qed.

Lemma b64_pos_monotone (x y : Q) :
  (0 < x)%Q -> (x <= y)%Q -> (b64_pos x <= b64_pos y)%Q.
Proof.
  intros Hx Hxy. assert (Hy : (0 < y)%Q) by lra.
  pose proof (flog2_monotone x y Hx Hxy) as He.
  unfold b64_pos, ulp_exponent.
  set (qx := Z.max (flog2 x - 52) (-1074)).
  set (qy := Z.max (flog2 y - 52) (-1074)).
  pose proof (pow2_pos qx) as Hpx. pose proof (pow2_pos qy) as Hpy.
  destruct (Z.eq_dec qx qy) as [E|E].
  - rewrite <- E. apply Qmult_le_compat_r; [|lra].
    rewrite <- Zle_Qle. apply rne_monotone.
    apply Qle_shift_div_l; [exact Hpx|].
    setoid_replace (x / pow2 qx * pow2 qx)%Q with x by (field; lra).
    exact Hxy.
  - assert (Hq : (qx < qy)%Z) by lia.
    assert (Hqy : qy = (flog2 y - 52)%Z) by lia.
    assert (Hexy : (flog2 x < flog2 y)%Z) by lia.
    destruct (flog2_spec x Hx) as [_ Hx2].
    destruct (flog2_spec y Hy) as [Hy1 _].
    apply (Qle_trans _ (pow2 (flog2 y))).
    + (* rounding [x] does not pass the power of two below [y] *)
      assert (Hk : (0 <= flog2 y - qx)%Z) by lia.
      assert (Hpow : (pow2 (flog2 y)
                      == inject_Z (2 ^ (flog2 y - qx)) * pow2 qx)%Q).
      { rewrite <- pow2_nonneg by lia. rewrite <- pow2_add.
        now replace (flog2 y - qx + qx)%Z with (flog2 y) by lia. }
      rewrite Hpow. apply Qmult_le_compat_r; [|lra].
      rewrite <- Zle_Qle. apply rne_le_integer.
      apply Qle_shift_div_r; [exact Hpx|]. rewrite <- Hpow.
      apply (Qle_trans _ (pow2 (flog2 x + 1))); [lra|].
      apply pow2_le. lia.
    + assert (Hpow : (pow2 (flog2 y) == inject_Z (2 ^ 52) * pow2 qy)%Q).
      { rewrite <- pow2_nonneg by lia. rewrite <- pow2_add.
        now replace (52 + qy)%Z with (flog2 y) by lia. }
      rewrite Hpow. apply Qmult_le_compat_r; [|lra].
      rewrite <- Zle_Qle. apply rne_ge_integer.
      apply Qle_shift_div_l; [exact Hpy|]. now rewrite <- Hpow.
Qed.

Lemma b64_pos_nonneg (x : Q) : (0 < x)%Q -> (0 <= b64_pos x)%Q.
Proof.
  intros Hx. unfold b64_pos.
  pose proof (pow2_pos (ulp_exponent x)) as Hp.
  apply Qmult_le_0_compat; [|lra].
  change 0%Q with (inject_Z 0). rewrite <- Zle_Qle. apply rne_ge_integer.
  change (inject_Z 0) with 0%Q.
  apply Qle_shift_div_l; [exact Hp | lra].
Qed.

(** Rounding to binary64 is monotone on the numbers that are not
    negative. *)
Lemma b64_monotone (x y : Q) :
  (0 <= x)%Q -> (x <= y)%Q -> (b64 x <= b64 y)%Q.
Proof.
  intros Hx Hxy. unfold b64.
  destruct (Qcompare_spec x 0) as [Ex|Ex|Ex];
    destruct (Qcompare_spec y 0) as [Ey|Ey|Ey]; try (exfalso; lra).
  - lra.
  - now apply b64_pos_nonneg.
  - now apply b64_pos_monotone.
Qed.

Lemma b64_nonneg (x : Q) : (0 <= x)%Q -> (0 <= b64 x)%Q.
Proof. intros H. apply (b64_monotone 0 x); [lra | exact H]. Qed.

Lemma b64_comp (x y : Q) : (0 <= x)%Q -> (x == y)%Q -> (b64 x == b64 y)%Q.
Proof.
  intros Hx E. apply Qle_antisym; apply b64_monotone; lra.
Qed.

Lemma rne_comp (x y : Q) : (x == y)%Q -> rne x = rne y.
Proof. intros E. apply Z.le_antisymm; apply rne_monotone; lra. Qed.

Lemma b64_zero : b64 0 = 0%Q.
Proof. reflexivity. Qed.

Lemma b64_one : (b64 1 == 1)%Q.
Proof. vm_compute. reflexivity. Qed.

Lemma round2_monotone (x y : Q) :
  (0 <= x)%Q -> (x <= y)%Q -> (round2 x <= round2 y)%Q.
Proof.
  intros Hx Hxy. unfold round2.
  assert (H0 : (0 <= rne (x * 100))%Z).
  { apply rne_ge_integer. change (inject_Z 0) with 0%Q. lra. }
  assert (H1 : (rne (x * 100) <= rne (y * 100))%Z).
  { apply rne_monotone. lra. }
  apply b64_monotone; unfold Qle; simpl; lia.
Qed.

Lemma round2_comp (x y : Q) :
  (0 <= x)%Q -> (x == y)%Q -> (round2 x == round2 y)%Q.
Proof. intros Hx E. apply Qle_antisym; apply round2_monotone; lra. Qed.

Lemma quotient_range (n m : nat) :
  n <= m ->
  (0 <= inject_Z (Z.of_nat n) / inject_Z (Z.of_nat m))%Q
  /\ (inject_Z (Z.of_nat n) / inject_Z (Z.of_nat m) <= 1)%Q.
Proof.
  intros H.
  destruct (Z.of_nat m) as [|p|p] eqn:Em; try lia.
  - replace n with 0 by lia. split; vm_compute; discriminate.
  - assert (Hn : (0 <= Z.of_nat n <= Z.pos p)%Z) by lia.
    set (k := Z.of_nat n) in *. clearbody k.
    unfold Qdiv, Qinv, inject_Z. cbn [Qnum Qden].
    unfold Qle, Qmult. cbn [Qnum Qden]. split; nia.
Qed.

(** A quotient of integers [n <= m] is a float between 0.0 and 1.0. *)
Lemma int_div_range (n m : nat) :
  n <= m -> (0 <= int_div n m)%Q /\ (int_div n m <= 1)%Q.
Proof.
  intros H. destruct (quotient_range n m H) as [H0 H1]. unfold int_div.
  split; [now apply b64_nonneg|].
  rewrite <- b64_one. now apply b64_monotone.
Qed.

(** The scores [c0 + x * c1] of the word and prefix rules grow with the
    ratio [x]. *)
Lemma scaled_sum_bounds (c0 c1 x low high : Q) :
  (0 <= c0)%Q -> (0 <= c1)%Q -> (0 <= low)%Q -> (low <= x)%Q ->
  (x <= high)%Q ->
  (float_add c0 (float_mul low c1) <= float_add c0 (float_mul x c1))%Q
  /\ (float_add c0 (float_mul x c1) <= float_add c0 (float_mul high c1))%Q.
Proof.
  intros H0 H1 Hlow Hx Hhigh. unfold float_add, float_mul.
  assert (Hl : (0 <= low * c1)%Q) by nra.
  assert (Hm : (0 <= x * c1)%Q) by nra.
  assert (L1 : (b64 (low * c1) <= b64 (x * c1))%Q)
    by (apply b64_monotone; [exact Hl | nra]).
  assert (L2 : (b64 (x * c1) <= b64 (high * c1))%Q)
    by (apply b64_monotone; [exact Hm | nra]).
  pose proof (b64_nonneg _ Hl). pose proof (b64_nonneg _ Hm).
  split; apply b64_monotone; lra.
Qed.

(** The arithmetic of the scores on three inputs: an overlap of one word
    in four scores 0.6749999999999999 and is stored as 0.67; a full
    overlap scores 0.8999999999999999, below the literal 0.9; half of the
    words in common give 0.7999999999999999 in the stand-alone score, and
    a prefix ratio of 3/5 gives the float 0.76. *)
Example float_scores :
  let overlap (k m : nat) :=
    float_add (b64 (6 # 10)) (float_mul (int_div k m) (b64 (3 # 10))) in
  (overlap 1%nat 4%nat < 675 # 1000)%Q
  /\ (round2 (overlap 1%nat 4%nat) == b64 (67 # 100))%Q
  /\ (overlap 4%nat 4%nat < b64 (9 # 10))%Q
  /\ (round2 (overlap 4%nat 4%nat) == b64 (9 # 10))%Q
  /\ (float_add (b64 (7 # 10)) (float_mul (int_div 1%nat 2%nat) (b64 (2 # 10)))
      < b64 (8 # 10))%Q
  /\ (float_add (b64 (7 # 10)) (float_mul (int_div 3%nat 5%nat) (b64 (1 # 10)))
      == b64 (76 # 100))%Q
  /\ (b64 (1 # 10) == 3602879701896397 # 36028797018963968)%Q.
Proof. vm_compute. repeat split. Qed.

(* ================================================================== *)
(** * Symbol variations *)
(* ================================================================== *)

Lemma fold_left_guarded_append {A B : Type} (c : B -> bool) (f : B -> A)
    (l : list B) (acc : list A) :
  fold_left (fun acc x => if c x then acc ++ [f x] else acc) l acc
  = acc ++ flat_map (fun x => if c x then [f x] else []) l.
Proof.
  revert acc. induction l as [|x l IH]; intros acc; simpl.
  - now rewrite app_nil_r.
  - rewrite IH. destruct (c x); simpl; [now rewrite <- app_assoc | reflexivity].
Qed.

(** The list returned is the concatenation of what the six rules
    contribute, in the order (a) to (f). *)
Lemma generate_symbol_variations_rules (symbol : string) :
  _generate_symbol_variations symbol
  = let s := strip (upper symbol) in
    rule_a s ++ rule_b s ++ rule_c s ++ rule_d s ++ rule_e s ++ rule_f s.
Proof.
  unfold _generate_symbol_variations, rule_a, rule_b, rule_c, rule_d,
    rule_e, rule_f.
  cbv zeta. set (s := strip (upper symbol)).
  rewrite fold_left_guarded_append.
  set (B := flat_map _ suffixes). clearbody B.
  destruct (lookup s expansions) as [targets|]; simpl get_or;
    destruct (String.length s <=? 4)%nat;
    destruct (truthy s && last_is isdigit s);
    destruct ((3 <=? String.length s)%nat && endswith s "R");
    destruct ((3 <=? String.length s)%nat && endswith s "N");
    simpl fold_left; rewrite <- ?app_assoc; simpl app;
    rewrite ?app_nil_r; reflexivity.
Qed.

(** C8.  Symbol variation generation is a function of the symbol alone whose
    output is the concatenation of the contributions of the rules (a) to
    (f), nothing removed; it includes the variations the specification
    lists. *)
Theorem generate_symbol_variations_includes :
  (forall symbol : string,
      _generate_symbol_variations symbol
      = let s := strip (upper symbol) in
        rule_a s ++ rule_b s ++ rule_c s ++ rule_d s ++ rule_e s ++ rule_f s)
  /\ In "RENDER" (_generate_symbol_variations "RNDR")
  /\ In "POL" (_generate_symbol_variations "MATIC")
  /\ In "LUNC" (_generate_symbol_variations "LUNA")
  /\ In "LUNA2" (_generate_symbol_variations "LUNA")
  /\ In "SOLTOKEN" (_generate_symbol_variations "SOL")
  /\ In "SOLCOIN" (_generate_symbol_variations "SOL")
  /\ In "BTC" (_generate_symbol_variations "BTCTOKEN").
Proof.
  split; [exact generate_symbol_variations_rules|].
  repeat split; vm_compute; tauto.
Qed.

(* ================================================================== *)
(** * The catalog client *)
(* ================================================================== *)

Section RequestFacts.

Variable transport : Trace -> Request -> Outcome.

Lemma is_success_range (response : Response) :
  is_success response = true <-> in_success_range (status_code response).
Proof.
  unfold is_success, in_success_range.
  rewrite andb_true_iff, !Z.leb_le. tauto.
Qed.

(** C9.  Once the transport has answered, [_request] raises the API error
    with the transport status code, the error message and the application
    error code of the envelope exactly when that error code is not zero or
    the status code is outside the success range; each condition is enough,
    and when neither holds the parsed response is returned. *)
Theorem request_fails_exactly_when (self : Client) (method path : string)
    (params : list (string * param)) (trace : Trace) (response : Response) :
  let request := {| method := method; path := path; params := params |} in
  let status :=
    get_or (status (json response))
           {| error_code := None; error_message := None |} in
  let code := get_or (error_code status) 0%Z in
  let message := get_or (error_message status) (Some "Unknown error") in
  let outcome := _request transport self method path params trace in
  transport trace request = Replied response ->
  (code <> 0%Z -> 
   outcome = (Raise (CoinMarketCapAPIError (status_code response) message
                                           code),
              trace ++ [request]))
  /\ (~ in_success_range (status_code response) ->
      outcome = (Raise (CoinMarketCapAPIError (status_code response) message
                                              code),
                 trace ++ [request]))
  /\ (code = 0%Z -> in_success_range (status_code response) ->
      outcome = (Ok (json response), trace ++ [request]))
  /\ ((exists e, fst outcome = Raise e)
      <-> code <> 0%Z \/ ~ in_success_range (status_code response)).
Proof.
  intros request status code message outcome Hreply.
  unfold outcome, _request. fold request. rewrite Hreply.
  fold status. fold code. fold message.
  assert (Hrange : is_success response = false ->
                   ~ in_success_range (status_code response)).
  { rewrite <- is_success_range. congruence. }
  destruct (Z.eqb_spec code 0) as [Hc|Hc];
    destruct (is_success response) eqn:Hs; simpl;
    [apply is_success_range in Hs | specialize (Hrange eq_refl)
    | apply is_success_range in Hs | specialize (Hrange eq_refl)];
    repeat split; intros;
    repeat match goal with
      | H : exists _, _ |- _ => destruct H
      | H : _ \/ _ |- _ => destruct H
      end;
    try reflexivity; try contradiction; try discriminate; eauto.
Qed.

End RequestFacts.

Lemma request_fails_exactly_when_witness :
  let request :=
    {| method := "GET"; path := "/v2/cryptocurrency/info";
       params := [("symbol", PStr "INVALID")] |} in
  sample_transport [] request = reply_error 400 "Not found"
  /\ _request sample_transport sample_client "GET" "/v2/cryptocurrency/info"
              [("symbol", PStr "INVALID")] []
     = (Raise (CoinMarketCapAPIError 400 (Some "Not found") 400), [request]).
Proof.
  split; [reflexivity|].
  destruct (request_fails_exactly_when sample_transport sample_client "GET"
              "/v2/cryptocurrency/info" [("symbol", PStr "INVALID")] []
              {| status_code := 400;
                 json := {| status := Some {| error_code := Some 400%Z;
                                              error_message :=
                                                Some (Some "Not found") |};
                            data := None |} |} eq_refl) as [H _].
  apply H. discriminate.
Defined.

(* ================================================================== *)
(** * The stable sort *)
(* ================================================================== *)

Section SortFacts.

Context {A K : Type}.
Variable key : A -> K.
Variable lt : K -> K -> bool.

Lemma insert_perm (x : A) (l : list A) :
  Permutation (insert key lt x l) (x :: l).
Proof.
  induction l as [|y l IH]; simpl; auto.
  destruct (lt (key y) (key x)); auto.
  rewrite IH. apply perm_swap.
Qed.

Lemma list_sort_perm (l : list A) : Permutation (list_sort key lt l) l.
Proof.
  induction l as [|x l IH]; simpl; auto.
  rewrite insert_perm. now constructor.
Qed.

Lemma list_sort_length (l : list A) :
  List.length (list_sort key lt l) = List.length l.
Proof. apply Permutation_length, list_sort_perm. Qed.

Lemma list_sort_In (l : list A) (x : A) :
  In x (list_sort key lt l) <-> In x l.
Proof.
  split; apply Permutation_in;
    [apply list_sort_perm | apply Permutation_sym, list_sort_perm].
Qed.

End SortFacts.

Section SortByRank.

Context {A : Type}.
Variable key : A -> Z.

Let ascending (a b : A) : Prop := (key a <= key b)%Z.

Lemma insert_sorted (x : A) (l : list A) :
  StronglySorted ascending l ->
  StronglySorted ascending (insert key Z.ltb x l).
Proof.
  induction 1 as [|y l Hl IH Hy]; simpl.
  - repeat constructor.
  - destruct (Z.ltb_spec (key y) (key x)) as [Hlt|Hge].
    + constructor; auto.
      rewrite Forall_forall in *. intros z Hz.
      apply (Permutation_in _ (insert_perm key Z.ltb x l)) in Hz.
      destruct Hz as [<- | Hz]; [unfold ascending; lia | auto].
    + constructor; [now constructor|].
      constructor; [exact Hge|].
      rewrite Forall_forall in *. intros z Hz.
      specialize (Hy z Hz). unfold ascending in *. lia.
Qed.

Lemma list_sort_sorted (l : list A) :
  StronglySorted ascending (list_sort key Z.ltb l).
Proof.
  induction l as [|x l IH]; simpl; [constructor | now apply insert_sorted].
Qed.

(** Inserting does not change the order among the elements of one key. *)
Lemma of_key_insert (k : Z) (x : A) (l : list A) :
  of_key key k (insert key Z.ltb x l) = of_key key k (x :: l).
Proof.
  unfold of_key. induction l as [|y l IH]; auto.
  simpl insert. destruct (Z.ltb_spec (key y) (key x)) as [Hlt|Hge]; auto.
  simpl in *. rewrite IH.
  destruct (Z.eqb_spec (key y) k), (Z.eqb_spec (key x) k); auto. lia.
Qed.

(** The sort is stable. *)
Lemma list_sort_stable (k : Z) (l : list A) :
  of_key key k (list_sort key Z.ltb l) = of_key key k l.
Proof.
  induction l as [|x l IH]; auto.
  simpl list_sort. rewrite of_key_insert.
  unfold of_key in *. simpl. now rewrite IH.
Qed.

Lemma sorted_firstn (n : nat) (l : list A) :
  StronglySorted ascending l -> StronglySorted ascending (firstn n l).
Proof.
  intros H. revert n. induction H as [|y l Hl IH Hy]; intros [|n]; simpl;
    try constructor; auto.
  rewrite Forall_forall in *. intros z Hz. apply Hy.
  rewrite <- (firstn_skipn n l). apply in_or_app. now left.
Qed.

Lemma sorted_no_inversion (l before between after : list A) (a b : A) :
  StronglySorted ascending l ->
  l = before ++ a :: between ++ b :: after ->
  (key a <= key b)%Z.
Proof.
  intros H ->. induction before as [|z before IH]; simpl in H.
  - apply StronglySorted_inv in H as [_ H].
    rewrite Forall_forall in H. apply H.
    apply in_or_app. right. now left.
  - apply StronglySorted_inv in H as [H _]. auto.
Qed.

Lemma of_key_firstn (k : Z) (n : nat) (l : list A) :
  exists later,
    of_key key k l = of_key key k (firstn n l) ++ later.
Proof.
  exists (of_key key k (skipn n l)). unfold of_key.
  now rewrite <- filter_app, firstn_skipn.
Qed.

End SortByRank.

(* ================================================================== *)
(** * The returned result *)
(* ================================================================== *)

Section ResultFacts.

Variable transport : Trace -> Request -> Outcome.
Variable environ : Environ.

(** A call that returns has gone through the strategies with a client. *)
Lemma search_returns (name symbol homepage : option string)
    (world world' : World) (r : SearchResult) :
  search_cryptocurrency transport environ name symbol homepage world
  = (Ok r, world') ->
  exists client slot,
    _get_client environ (_client world) = (Ok client, slot)
    /\ let run := run_strategies transport client name symbol homepage
                                 (requests world) in
       r = make_result name symbol homepage (candidates run) (log run)
       /\ world' = {| _client := slot; requests := calls run |}.
Proof.
  unfold search_cryptocurrency.
  destruct (negb (truthy_opt (or_else name symbol))); [discriminate|].
  destruct (_get_client environ (_client world)) as [[client|e] slot];
    [|discriminate].
  intros H. injection H as <- <-. now exists client, slot.
Qed.

(** C1.  In every returned result [found] is true exactly when
    [match_count] is positive, [best_match] is null exactly when
    [match_count] is zero, and [best_match] is otherwise the first
    candidate of [all_matches]. *)
Theorem found_iff_match_count (name symbol homepage : option string)
    (world world' : World) (r : SearchResult) :
  search_cryptocurrency transport environ name symbol homepage world
  = (Ok r, world') ->
  (found r = true <-> 0 < match_count r)
  /\ (best_match r = None <-> match_count r = 0)
  /\ best_match r = hd_error (all_matches r).
Proof.
  intros H. apply search_returns in H as (client & slot & _ & -> & _).
  unfold make_result. cbv zeta. simpl.
  destruct (list_sort confidence_key Z.ltb _) as [|c l]; simpl.
  - repeat split; auto; try discriminate; lia.
  - repeat split; auto; try discriminate; lia.
Qed.

Lemma confidence_key_rank (c : Candidate) :
  confidence_key c = tier_rank (_confidence c).
Proof. reflexivity. Qed.

(** C2.  In every returned result [all_matches] never places a candidate
    of a lower tier before one of a higher tier, the tiers being ranked
    verified, high, medium, low; and the candidates of one tier stand in the
    order the strategies found them. *)
Theorem all_matches_sorted_stable (name symbol homepage : option string)
    (world world' : World) (r : SearchResult) :
  search_cryptocurrency transport environ name symbol homepage world
  = (Ok r, world') ->
  (tier_rank "verified" < tier_rank "high" < tier_rank "medium")%Z
  /\ (tier_rank "medium" < tier_rank "low")%Z
  /\ (forall t1 t2 before c2 between c1 after,
         (tier_rank t1 < tier_rank t2)%Z ->
         all_matches r = before ++ c2 :: between ++ c1 :: after ->
         _confidence c2 = t2 -> _confidence c1 = t1 -> False)
  /\ exists client slot,
      _get_client environ (_client world) = (Ok client, slot)
      /\ let discovered :=
           candidates (run_strategies transport client name symbol homepage
                                      (requests world)) in
         forall k, exists later,
           of_key confidence_key k discovered
           = of_key confidence_key k (all_matches r) ++ later.
Proof.
  intros H. apply search_returns in H as (client & slot & Hc & -> & _).
  split; [vm_compute; now intuition|].
  split; [reflexivity|].
  unfold make_result. cbv zeta. cbn [all_matches].
  set (discovered := candidates _).
  split.
  - intros t1 t2 before c2 between c1 after Hlt Hall H2 H1.
    assert (confidence_key c2 <= confidence_key c1)%Z.
    { eapply sorted_no_inversion; [|exact Hall].
      apply sorted_firstn, list_sort_sorted. }
    rewrite !confidence_key_rank, H1, H2 in *. lia.
  - exists client, slot. split; [exact Hc|].
    intros k. fold discovered.
    rewrite <- (list_sort_stable confidence_key k discovered).
    apply of_key_firstn.
Qed.

End ResultFacts.

Lemma found_iff_match_count_witness :
  exists r world',
    search_cryptocurrency sample_transport sample_environ None (Some "BTC")
                          None sample_world = (Ok r, world')
    /\ (found r = true <-> 0 < match_count r)
    /\ (best_match r = None <-> match_count r = 0)
    /\ best_match r = hd_error (all_matches r).
Proof.
  eexists. eexists. split; [vm_compute; reflexivity|].
  eapply (found_iff_match_count sample_transport sample_environ None
            (Some "BTC") None sample_world).
  vm_compute. reflexivity.
Defined.

Lemma all_matches_sorted_stable_witness :
  exists r world',
    search_cryptocurrency sample_transport sample_environ (Some "Ethereum")
                          None (Some "ethereum.org") sample_world
    = (Ok r, world')
    /\ forall t1 t2 before c2 between c1 after,
         (tier_rank t1 < tier_rank t2)%Z ->
         all_matches r = before ++ c2 :: between ++ c1 :: after ->
         _confidence c2 = t2 -> _confidence c1 = t1 -> False.
Proof.
  eexists. eexists. split; [vm_compute; reflexivity|].
  eapply (all_matches_sorted_stable sample_transport sample_environ
            (Some "Ethereum") None (Some "ethereum.org") sample_world).
  vm_compute. reflexivity.
Defined.

(* ================================================================== *)
(** * The trace of requests *)
(* ================================================================== *)

Section RequestTrace.

Variable transport : Trace -> Request -> Outcome.
Variable client : Client.

Lemma request_trace (method path : string) (params : list (string * param))
    (trace : Trace) :
  snd (_request transport client method path params trace)
  = trace ++ [{| method := method; path := path; params := params |}].
Proof.
  unfold _request.
  destruct (transport trace _) as [msg|response]; [reflexivity|].
  cbv zeta. destruct (_ || _); reflexivity.
Qed.

Lemma map_lookup_trace (symbol : string) (trace : Trace) :
  snd (map_lookup transport client symbol trace)
  = trace ++ [lookup_request symbol].
Proof. apply request_trace. Qed.

End RequestTrace.

(* ================================================================== *)
(** * Every failed request leaves a log entry *)
(* ================================================================== *)

Section Accounting.

Variable transport : Trace -> Request -> Outcome.
Variables self client : Client.

Lemma failures_app (trace : Trace) (made1 made2 : list Request) :
  failures transport self trace (made1 ++ made2)
  = failures transport self trace made1
    + failures transport self (trace ++ made1) made2.
Proof.
  revert trace. induction made1 as [|request made1 IH]; intros trace; simpl.
  - now rewrite app_nil_r.
  - rewrite IH, <- app_assoc. simpl. lia.
Qed.

Lemma accounts_refl (run run' : Run) :
  calls run' = calls run -> List.length (log run) <= List.length (log run') ->
  accounts transport self run run'.
Proof.
  intros Hc Hl. exists []. rewrite app_nil_r. simpl. split; [exact Hc | lia].
Qed.

Lemma accounts_trans (run1 run2 run3 : Run) :
  accounts transport self run1 run2 -> accounts transport self run2 run3 ->
  accounts transport self run1 run3.
Proof.
  intros (made1 & Hc1 & Hl1) (made2 & Hc2 & Hl2).
  exists (made1 ++ made2). split.
  - now rewrite Hc2, Hc1, app_assoc.
  - rewrite failures_app, <- Hc1. lia.
Qed.

(** One call of [_request]: the request it adds to the trace, and whether
    it counts as a failure. *)
Lemma request_step (method path : string) (params : list (string * param))
    (trace trace' : Trace) (outcome : result Envelope) :
  _request transport client method path params trace = (outcome, trace') ->
  let request := {| method := method; path := path; params := params |} in
  trace' = trace ++ [request]
  /\ failures transport self trace [request]
     = match outcome with Raise _ => 1 | Ok _ => 0 end.
Proof.
  intros H request.
  pose proof (request_trace transport client method path params trace) as Ht.
  rewrite H in Ht. simpl in Ht. split; [exact Ht|].
  simpl. change (_request transport self method path params trace)
    with (_request transport client method path params trace).
  rewrite H. unfold raised. simpl. destruct outcome; reflexivity.
Qed.

(** A run that differs from [run] by one call and by its log. *)
Lemma accounts_step (method path : string) (params : list (string * param))
    (run run' : Run) (outcome : result Envelope) :
  _request transport client method path params (calls run)
  = (outcome, calls run') ->
  List.length (log run) + match outcome with Raise _ => 1 | Ok _ => 0 end
  <= List.length (log run') ->
  accounts transport self run run'.
Proof.
  intros H Hl. destruct (request_step _ _ _ _ _ _ H) as [Hc Hf].
  eexists. split; [exact Hc|]. rewrite Hf. exact Hl.
Qed.

Lemma exact_symbol_accounts (symbol : option string) (run : Run) :
  accounts transport self run (exact_symbol transport client symbol run).
Proof.
  unfold exact_symbol. destruct (truthy_opt symbol);
    [|now apply accounts_refl].
  unfold map_lookup, get_cryptocurrency_map.
  destruct (_request _ _ _ _ _ (calls run)) as [[result|e] trace] eqn:E.
  - destruct (get_or (data result) (DataList [])) as [[|x l]|[|x d]];
      eapply accounts_step; try exact E; simpl;
      rewrite ?length_app; simpl; lia.
  - eapply accounts_step; [exact E|]. simpl. rewrite length_app. simpl. lia.
Qed.

Lemma try_variations_accounts (symbol : string) (variations : list string)
    (run : Run) :
  accounts transport self run
           (try_variations transport client symbol variations run).
Proof.
  revert run. induction variations as [|variant rest IH]; intros run.
  - now apply accounts_refl.
  - simpl. destruct (variant =? upper symbol); [apply IH|].
    unfold map_lookup, get_cryptocurrency_map.
    destruct (_request _ _ _ _ _ (calls run)) as [[result|e] trace] eqn:E.
    + destruct (get_or (data result) (DataList [])) as [[|x l]|[|x d]];
        try (eapply accounts_trans; [|apply IH]);
        eapply accounts_step; try exact E; simpl;
        rewrite ?length_app; simpl; lia.
    + eapply accounts_trans; [|apply IH].
      eapply accounts_step; [exact E|]. simpl. rewrite length_app. simpl. lia.
Qed.

Lemma symbol_variation_accounts (symbol : option string) (run : Run) :
  accounts transport self run (symbol_variation transport client symbol run).
Proof.
  unfold symbol_variation. destruct (_ && _);
    [apply try_variations_accounts | now apply accounts_refl].
Qed.

Lemma slug_from_name_accounts (name : option string) (run : Run) :
  accounts transport self run (slug_from_name transport client name run).
Proof.
  unfold slug_from_name. destruct (_ && _); [|now apply accounts_refl].
  unfold get_cryptocurrency_info.
  destruct (set_if "address" _ _) as [|kv params].
  - apply accounts_refl; simpl; [reflexivity|].
    rewrite length_app. simpl. lia.
  - destruct (_request _ _ _ _ _ (calls run)) as [[result|e] trace] eqn:E.
    + destruct (get_or (data result) (DataDict [])) as [[|x l]|[|x d]];
        eapply accounts_step; try exact E; simpl;
        rewrite ?length_app; simpl; lia.
    + eapply accounts_step; [exact E|].
      simpl. rewrite length_app. simpl. lia.
Qed.

Lemma fuzzy_name_accounts (name : option string) (run : Run) :
  accounts transport self run (fuzzy_name transport client name run).
Proof.
  unfold fuzzy_name. destruct (_ && _); [|now apply accounts_refl].
  unfold _fuzzy_search_by_name, get_cryptocurrency_map.
  destruct (_request _ _ _ _ _ (calls run)) as [[result|e] trace] eqn:E.
  - destruct (get_or (data result) (DataList [])) as [data|d].
    + cbv zeta. destruct (firstn 5 _);
        eapply accounts_step; try exact E; simpl;
        rewrite ?length_app; simpl; lia.
    + eapply accounts_step; [exact E|].
      simpl. rewrite length_app. simpl. lia.
  - eapply accounts_step; [exact E|]. simpl. rewrite length_app. simpl. lia.
Qed.

Lemma homepage_verification_accounts (homepage : option string)
    (run : Run) :
  accounts transport self run
           (homepage_verification transport client homepage run).
Proof.
  unfold homepage_verification. destruct (_ && _);
    [|now apply accounts_refl].
  unfold _verify_candidates_by_homepage.
  destruct (map _ (firstn 10 (candidates run))) as [|cid cids].
  - apply accounts_refl; simpl; [reflexivity|].
    rewrite length_app. simpl. lia.
  - unfold get_cryptocurrency_info.
    destruct (set_if "address" _ _) as [|kv params].
    + apply accounts_refl; simpl; [reflexivity|].
      rewrite length_app. simpl. lia.
    + destruct (_request _ _ _ _ _ (calls run)) as [[result|e] trace] eqn:E.
      * destruct (get_or (data result) (DataDict [])) as [l|d];
          eapply accounts_step; try exact E; simpl;
          rewrite ?length_app; simpl; lia.
      * eapply accounts_step; [exact E|].
        simpl. rewrite length_app. simpl. lia.
Qed.

(** The five strategies together: the log has at least as many entries as
    requests failed. *)
Lemma run_strategies_accounts (name symbol homepage : option string)
    (trace : Trace) :
  let run := run_strategies transport client name symbol homepage trace in
  exists made,
    calls run = trace ++ made
    /\ failures transport self trace made <= List.length (log run).
Proof.
  unfold run_strategies.
  set (r0 := {| candidates := []; log := []; calls := trace |}).
  assert (H : accounts transport self r0
                (homepage_verification transport client homepage
                   (fuzzy_name transport client name
                      (slug_from_name transport client name
                         (symbol_variation transport client symbol
                            (exact_symbol transport client symbol r0)))))).
  { eapply accounts_trans; [|apply homepage_verification_accounts].
    eapply accounts_trans; [|apply fuzzy_name_accounts].
    eapply accounts_trans; [|apply slug_from_name_accounts].
    eapply accounts_trans; [|apply symbol_variation_accounts].
    apply exact_symbol_accounts. }
  destruct H as (made & Hc & Hl). exists made. split; [exact Hc|].
  simpl in Hl. exact Hl.
Qed.

End Accounting.

(* ================================================================== *)
(** * Errors of [search_cryptocurrency] *)
(* ================================================================== *)

Lemma truthy_or_else (a b : option string) :
  truthy_opt (or_else a b) = truthy_opt a || truthy_opt b.
Proof. unfold or_else. destruct (truthy_opt a) eqn:E; auto. Qed.

Section SearchErrors.

Variable transport : Trace -> Request -> Outcome.
Variable environ : Environ.

Lemma configured_get_client (world : World) :
  configured environ world = true ->
  exists client slot,
    _get_client environ (_client world) = (Ok client, slot).
Proof.
  unfold configured, _get_client.
  destruct (_client world) as [client|]; [eauto|].
  intros ->. simpl. eauto.
Qed.

(** ** A failure inside a strategy *)

Lemma exact_symbol_failure (client : Client) (symbol : string) (run : Run)
    (e : exn) (trace : Trace) :
  truthy symbol = true ->
  map_lookup transport client (strip (upper symbol)) (calls run)
  = (Raise e, trace) ->
  exact_symbol transport client (Some symbol) run
  = {| candidates := candidates run;
       log := log run ++ [("exact_symbol(" ++ strip (upper symbol)
                             ++ "): failed - " ++ str_exn e)%string];
       calls := trace |}.
Proof.
  intros Hs Hcall. unfold exact_symbol. simpl. now rewrite Hs, Hcall.
Qed.

Lemma try_variations_failure (client : Client) (symbol variant : string)
    (rest : list string) (run : Run) (e : exn) (trace : Trace) :
  variant <> upper symbol ->
  map_lookup transport client variant (calls run) = (Raise e, trace) ->
  try_variations transport client symbol (variant :: rest) run
  = try_variations transport client symbol rest
      {| candidates := candidates run;
         log := log run ++ [("symbol_variation(" ++ variant
                               ++ "): no match")%string];
         calls := trace |}.
Proof.
  intros Hv Hcall. simpl.
  apply String.eqb_neq in Hv. now rewrite Hv, Hcall.
Qed.

Lemma slug_from_name_failure (client : Client) (name : string) (run : Run)
    (e : exn) (trace : Trace) :
  truthy name = true -> candidates run = [] ->
  get_cryptocurrency_info transport client None None
    (Some (_name_to_slug name)) None (calls run) = (Raise e, trace) ->
  slug_from_name transport client (Some name) run
  = {| candidates := candidates run;
       log := log run ++ [("slug(" ++ _name_to_slug name
                             ++ "): no match - " ++ str_exn e)%string];
       calls := trace |}.
Proof.
  intros Hn Hc Hcall. unfold slug_from_name. simpl.
  now rewrite Hn, Hc, Hcall.
Qed.

Lemma fuzzy_name_failure (client : Client) (name : string) (run : Run)
    (e : exn) (trace : Trace) :
  truthy name = true -> candidates run = [] ->
  get_cryptocurrency_map transport client None None "active" 1 5000
                         "cmc_rank" (calls run) = (Raise e, trace) ->
  fuzzy_name transport client (Some name) run
  = {| candidates := candidates run;
       log := log run ++ [("fuzzy_name(" ++ name ++ "): no match")%string];
       calls := trace |}.
Proof.
  intros Hn Hc Hcall. unfold fuzzy_name, _fuzzy_search_by_name. simpl.
  now rewrite Hn, Hc, Hcall.
Qed.






End SearchErrors.



(** ** With a failing remote API the search degrades to "not found" *)

Section FailingTransport.

Variable transport : Trace -> Request -> Outcome.
Variable client : Client.
Hypothesis failing : always_failing transport.

Lemma map_always_fails (symbol slug : option string) (listing : string)
    (start limit : Z) (sort : string) (trace : Trace) :
  exists e trace',
    get_cryptocurrency_map transport client symbol slug listing start limit
                           sort trace = (Raise e, trace').
Proof. unfold get_cryptocurrency_map. apply failing. Qed.

Lemma info_always_fails (id symbol slug address : option string)
    (trace : Trace) :
  exists e trace',
    get_cryptocurrency_info transport client id symbol slug address trace
    = (Raise e, trace').
Proof.
  unfold get_cryptocurrency_info.
  destruct (set_if "address" _ _); [eauto | apply failing].
Qed.

Lemma exact_symbol_finds_nothing (symbol : option string) (run : Run) :
  candidates run = [] ->
  exists extra,
    finds_nothing run (exact_symbol transport client symbol run) extra
    /\ (truthy_opt symbol = true -> extra <> []).
Proof.
  intros Hc. destruct symbol as [s|]; simpl.
  - destruct (truthy s) eqn:Hs.
    + destruct (map_always_fails (Some (strip (upper s))) None "active" 1 100
                  "cmc_rank" (calls run)) as (e & trace & Hcall).
      rewrite (exact_symbol_failure transport client s run e trace Hs Hcall).
      eexists. split; [split; [exact Hc | reflexivity]|]. discriminate.
    + unfold exact_symbol. simpl. rewrite Hs.
      exists []. split; [split; [exact Hc | now rewrite app_nil_r]|].
      discriminate.
  - exists []. split; [split; [exact Hc | now rewrite app_nil_r]|].
    discriminate.
Qed.

Lemma try_variations_finds_nothing (symbol : string)
    (variations : list string) (run : Run) :
  candidates run = [] ->
  exists extra,
    finds_nothing run
      (try_variations transport client symbol variations run) extra.
Proof.
  revert run. induction variations as [|variant rest IH]; intros run Hc.
  - exists []. split; [exact Hc | now rewrite app_nil_r].
  - destruct (String.eqb_spec variant (upper symbol)) as [Heq|Hne].
    + simpl. apply String.eqb_eq in Heq. rewrite Heq. now apply IH.
    + destruct (map_always_fails (Some variant) None "active" 1 100
                  "cmc_rank" (calls run)) as (e & trace & Hcall).
      rewrite (try_variations_failure transport client symbol variant rest
                 run e trace Hne Hcall).
      set (run' := {| candidates := candidates run;
                      log := log run ++ [("symbol_variation(" ++ variant
                                            ++ "): no match")%string];
                      calls := trace |}).
      destruct (IH run' Hc) as (extra & Hnone & Hlog).
      eexists. split; [exact Hnone|].
      rewrite Hlog. simpl. now rewrite <- app_assoc.
Qed.

Lemma symbol_variation_finds_nothing (symbol : option string) (run : Run) :
  candidates run = [] ->
  exists extra,
    finds_nothing run (symbol_variation transport client symbol run) extra.
Proof.
  intros Hc. unfold symbol_variation.
  destruct (truthy_opt symbol && negb (nonempty (candidates run))).
  - now apply try_variations_finds_nothing.
  - exists []. split; [exact Hc | now rewrite app_nil_r].
Qed.

Lemma slug_from_name_finds_nothing (name : option string) (run : Run) :
  candidates run = [] ->
  exists extra,
    finds_nothing run (slug_from_name transport client name run) extra
    /\ (truthy_opt name = true -> extra <> []).
Proof.
  intros Hc. destruct name as [s|]; simpl.
  - destruct (truthy s) eqn:Hs.
    + destruct (info_always_fails None None (Some (_name_to_slug s)) None
                  (calls run)) as (e & trace & Hcall).
      rewrite (slug_from_name_failure transport client s run e trace Hs Hc
                 Hcall).
      eexists. split; [split; [exact Hc | reflexivity]|]. discriminate.
    + unfold slug_from_name. simpl. rewrite Hs.
      exists []. split; [split; [exact Hc | now rewrite app_nil_r]|].
      discriminate.
  - exists []. split; [split; [exact Hc | now rewrite app_nil_r]|].
    discriminate.
Qed.

Lemma fuzzy_name_finds_nothing (name : option string) (run : Run) :
  candidates run = [] ->
  exists extra,
    finds_nothing run (fuzzy_name transport client name run) extra.
Proof.
  intros Hc. destruct name as [s|]; simpl.
  - destruct (truthy s) eqn:Hs.
    + destruct (map_always_fails None None "active" 1 5000 "cmc_rank"
                  (calls run)) as (e & trace & Hcall).
      rewrite (fuzzy_name_failure transport client s run e trace Hs Hc Hcall).
      eexists. split; [exact Hc | reflexivity].
    + unfold fuzzy_name. simpl. rewrite Hs.
      exists []. split; [exact Hc | now rewrite app_nil_r].
  - exists []. split; [exact Hc | now rewrite app_nil_r].
Qed.

Lemma run_strategies_find_nothing (name symbol homepage : option string)
    (trace : Trace) :
  truthy_opt name = true \/ truthy_opt symbol = true ->
  let run := run_strategies transport client name symbol homepage trace in
  candidates run = [] /\ log run <> [].
Proof.
  intros Hin. unfold run_strategies.
  set (r0 := {| candidates := []; log := []; calls := trace |}).
  destruct (exact_symbol_finds_nothing symbol r0 eq_refl)
    as (x1 & [C1 L1] & N1).
  set (r1 := exact_symbol transport client symbol r0) in *.
  destruct (symbol_variation_finds_nothing symbol r1 C1) as (x2 & C2 & L2).
  set (r2 := symbol_variation transport client symbol r1) in *.
  destruct (slug_from_name_finds_nothing name r2 C2) as (x3 & [C3 L3] & N3).
  set (r3 := slug_from_name transport client name r2) in *.
  destruct (fuzzy_name_finds_nothing name r3 C3) as (x4 & C4 & L4).
  set (r4 := fuzzy_name transport client name r3) in *.
  unfold homepage_verification. rewrite C4. simpl nonempty.
  rewrite andb_false_r. split; [exact C4|].
  rewrite L4, L3, L2, L1. simpl.
  destruct Hin as [Hn|Hs].
  - specialize (N3 Hn). destruct x1, x2, x3; try discriminate. congruence.
  - specialize (N1 Hs). destruct x1; [congruence | discriminate].
Qed.

End FailingTransport.

(** With a configured client, a non-empty [name] or [symbol] and a remote
    API that fails every request, the call returns "not found" with a
    non-empty log. *)
Lemma search_degrades_to_not_found
    (transport : Trace -> Request -> Outcome) (environ : Environ)
    (name symbol homepage : option string) (world : World) :
  always_failing transport ->
  configured environ world = true ->
  truthy_opt name = true \/ truthy_opt symbol = true ->
  exists r world',
    search_cryptocurrency transport environ name symbol homepage world
    = (Ok r, world')
    /\ found r = false /\ match_count r = 0 /\ best_match r = None
    /\ all_matches r = [] /\ search_log r <> [].
Proof.
  intros Hfail Hconf Hin. unfold search_cryptocurrency.
  rewrite truthy_or_else.
  destruct (configured_get_client environ world Hconf)
    as (client & slot & ->).
  replace (truthy_opt name || truthy_opt symbol) with true
    by (destruct Hin as [-> | ->]; now rewrite ?orb_true_r).
  simpl negb. cbv iota.
  destruct (run_strategies_find_nothing transport client Hfail name symbol
              homepage (requests world) Hin) as [Hc Hl].
  eexists. eexists. split; [reflexivity|].
  unfold make_result. rewrite Hc. simpl. repeat split; auto.
Qed.

Lemma unreachable_always_failing : always_failing unreachable.
Proof. intros self method path params trace. eexists. eexists. reflexivity. Qed.

(* ================================================================== *)
(** * Homepage verification *)
(* ================================================================== *)

Section Verification.

Variable info_data : list (string * InfoValue).
Variable homepage : string.

Let normalized_homepage := _normalize_url homepage.

(** The branch of lines 363-367. *)
Lemma verify_candidate_exact (candidate : Candidate) (info : Entry)
    (url : string) :
  lookup (cid_of candidate) info_data = Some (One info) ->
  In url (website_urls_of info) ->
  _normalize_url url = normalized_homepage ->
  verify_candidate info_data homepage normalized_homepage candidate
  = Ok (with_homepage_match candidate "verified" None (inl "exact")
                            (website_urls_of info)).
Proof.
  intros Hinfo Hin Hurl. unfold verify_candidate.
  fold (cid_of candidate). rewrite Hinfo. fold (website_urls_of info).
  replace (existsb _ (website_urls_of info)) with true; [reflexivity|].
  symmetry. apply existsb_exists. exists url. split; [exact Hin|].
  now apply String.eqb_eq.
Qed.

Lemma verify_candidate_returns (candidate : Candidate) :
  not_a_list info_data candidate ->
  exists candidate',
    verify_candidate info_data homepage normalized_homepage candidate
    = Ok candidate'.
Proof.
  intros Hno. unfold verify_candidate. fold (cid_of candidate).
  destruct (lookup (cid_of candidate) info_data) as [[info|infos]|] eqn:E.
  - repeat match goal with
           | |- context [if ?b then _ else _] => destruct b
           end; eauto.
  - now destruct (Hno infos).
  - eauto.
Qed.

(** The loop updates the candidate at position [i] when it does not stop
    before it. *)
Lemma verify_loop_nth (candidates : list Candidate) (i : nat)
    (candidate candidate' : Candidate) :
  nth_error candidates i = Some candidate ->
  (forall j c, j < i -> nth_error candidates j = Some c ->
               not_a_list info_data c) ->
  verify_candidate info_data homepage normalized_homepage candidate
  = Ok candidate' ->
  nth_error (verify_loop info_data homepage normalized_homepage candidates) i
  = Some candidate'.
Proof.
  revert i. induction candidates as [|c cs IH]; intros i Hi Hbefore Hv.
  - destruct i; discriminate.
  - destruct i as [|i]; simpl in Hi.
    + injection Hi as ->. simpl. now rewrite Hv.
    + destruct (verify_candidate_returns c) as [c' Hc'].
      { apply (Hbefore 0); [lia | reflexivity]. }
      simpl. rewrite Hc'. simpl. apply IH; auto.
      intros j c0 Hj Hc0. apply (Hbefore (S j)); [lia | exact Hc0].
Qed.

End Verification.

Section VerificationCall.

Variable transport : Trace -> Request -> Outcome.
Variable client : Client.

(** C4.  When the metadata fetched for a candidate lists a website whose
    normalized URL equals the normalized homepage, the verification sets the
    candidate's confidence to verified, removes its warning and sets
    [_homepage_match] to exact, whatever its confidence was.  The candidate
    is the one at position [i]; its metadata was fetched (the request
    returned a mapping that has it) and the loop reached it (the metadata of
    the candidates before it are single objects). *)
Theorem exact_homepage_match_verifies (candidates : list Candidate)
    (homepage : string) (trace trace' : Trace) (info_result : Envelope)
    (info_data : list (string * InfoValue)) (i : nat)
    (candidate : Candidate) (info : Entry) (url : string) :
  get_cryptocurrency_info transport client
    (Some (String.concat "," (map cid_of (firstn 10 candidates))))
    None None None trace = (Ok info_result, trace') ->
  data info_result = Some (DataDict info_data) ->
  nth_error candidates i = Some candidate ->
  (forall j c, j < i -> nth_error candidates j = Some c ->
               not_a_list info_data c) ->
  lookup (cid_of candidate) info_data = Some (One info) ->
  In url (website_urls_of info) ->
  _normalize_url url = _normalize_url homepage ->
  exists candidate',
    nth_error
      (fst (_verify_candidates_by_homepage transport client candidates
                                           homepage trace)) i
    = Some candidate'
    /\ _confidence candidate' = "verified"
    /\ _warning candidate' = None
    /\ _homepage_match candidate' = Some (inl "exact")
    /\ _website_urls candidate' = Some (website_urls_of info)
    /\ item candidate' = item candidate
    /\ _match_method candidate' = _match_method candidate.
Proof.
  intros Hcall Hdata Hi Hbefore Hinfo Hin Hurl.
  exists (with_homepage_match candidate "verified" None (inl "exact")
                              (website_urls_of info)).
  split; [|repeat split].
  unfold _verify_candidates_by_homepage.
  destruct candidates as [|c0 cs]; [destruct i; discriminate|].
  change (fun c : Candidate => str_of_Z (entry_id (item c))) with cid_of.
  cbn [firstn map] in *. rewrite Hcall, Hdata. simpl get_or. cbn [fst].
  apply (verify_loop_nth info_data homepage (c0 :: cs) i candidate);
    [exact Hi | exact Hbefore|].
  now apply (verify_candidate_exact info_data homepage candidate info url).
Qed.

End VerificationCall.

(** A candidate found by the fuzzy match, of low confidence and carrying a
    warning, is verified by the homepage of its metadata. *)
Lemma exact_homepage_match_verifies_witness :
  let candidate :=
    fuzzy_candidate {| fm_item := ethereum; fm_similarity := 1;
                       fm_match_type := Some "exact" |} in
  _confidence candidate = "low"
  /\ _warning candidate <> None
  /\ exists candidate',
       nth_error
         (fst (_verify_candidates_by_homepage sample_transport sample_client
                 [candidate] "HTTPS://Ethereum.org/" [])) 0
       = Some candidate'
       /\ _confidence candidate' = "verified"
       /\ _warning candidate' = None
       /\ _homepage_match candidate' = Some (inl "exact").
Proof.
  intros candidate. split; [reflexivity|]. split; [discriminate|].
  destruct (exact_homepage_match_verifies sample_transport sample_client
              [candidate] "HTTPS://Ethereum.org/" [] _ _
              [("1", One bitcoin); ("1027", One ethereum)] 0 candidate
              ethereum "https://www.ethereum.org" eq_refl eq_refl eq_refl)
    as (c' & H1 & H2 & H3 & H4 & _).
  - intros j c Hj. lia.
  - reflexivity.
  - left. reflexivity.
  - reflexivity.
  - exists c'. auto.
Defined.

(** C4, as the specification states it, fails: the metadata fetched for
    the second candidate lists a website whose normalized URL equals the
    normalized homepage, and the candidate keeps its low confidence and its
    warning, without [_homepage_match].  The metadata of the candidate
    before it is a list, [info.get] raises there, and the one [try] block
    around the loop ends the verification. *)
Lemma exact_match_after_list_not_verified :
  let info_data := [("1027", Many [ethereum]); ("1", One bitcoin)] in
  let verified :=
    fst (_verify_candidates_by_homepage list_valued_metadata sample_client
           [fuzzy_ethereum; fuzzy_bitcoin] "https://bitcoin.org" []) in
  lookup (cid_of fuzzy_bitcoin) info_data = Some (One bitcoin)
  /\ In "https://bitcoin.org/" (website_urls_of bitcoin)
  /\ _normalize_url "https://bitcoin.org/"
     = _normalize_url "https://bitcoin.org"
  /\ nth_error verified 1 = Some fuzzy_bitcoin
  /\ _confidence fuzzy_bitcoin = "low"
  /\ _warning fuzzy_bitcoin <> None
  /\ _homepage_match fuzzy_bitcoin = None.
Proof.
  vm_compute. repeat split; try discriminate. left. reflexivity.
Qed.

(* ================================================================== *)
(** * Symbol variation lookups *)
(* ================================================================== *)

Section VariationLookups.

Variable transport : Trace -> Request -> Outcome.
Variable client : Client.

(** A variant equal to [symbol.upper()] is skipped without a lookup. *)
Lemma try_variations_skip (symbol : string) (rest : list string)
    (run : Run) :
  try_variations transport client symbol (upper symbol :: rest) run
  = try_variations transport client symbol rest run.
Proof. simpl. now rewrite String.eqb_refl. Qed.

(** The loop stops at the first variant whose lookup returns entries: the
    remaining variants are not looked up. *)
Lemma try_variations_stop (symbol variant : string) (rest : list string)
    (run : Run) (result : Envelope) (trace : Trace) (e : Entry)
    (es : list Entry) :
  variant <> upper symbol ->
  map_lookup transport client variant (calls run) = (Ok result, trace) ->
  data result = Some (DataList (e :: es)) ->
  let run' := try_variations transport client symbol (variant :: rest) run in
  calls run' = calls run ++ [lookup_request variant]
  /\ candidates run'
     = candidates run
       ++ map (fun item =>
                 new_candidate item "symbol_variation" "medium"
                               (Some variant) (Some (upper symbol)))
              (e :: es).
Proof.
  intros Hv Hcall Hdata. simpl.
  apply String.eqb_neq in Hv. rewrite Hv, Hcall, Hdata. simpl.
  split; [|reflexivity].
  now rewrite <- (map_lookup_trace transport client variant (calls run)), Hcall.
Qed.

(** Every lookup of the loop is for a generated variant other than
    [symbol.upper()], in the order of the variants. *)
Lemma try_variations_calls (symbol : string) (variations : list string)
    (run : Run) :
  exists tried,
    calls (try_variations transport client symbol variations run)
    = calls run ++ map lookup_request tried
    /\ Forall (fun v => In v variations /\ v <> upper symbol) tried.
Proof.
  revert run. induction variations as [|variant rest IH]; intros run.
  - exists []. simpl. now rewrite app_nil_r.
  - assert (Hrest : forall run',
               calls run' = calls run ++ [lookup_request variant] ->
               variant <> upper symbol ->
               exists tried,
                 calls (try_variations transport client symbol rest run')
                 = calls run ++ map lookup_request tried
                 /\ Forall (fun v => In v (variant :: rest)
                                     /\ v <> upper symbol) tried).
    { intros run' Hcalls Hne. destruct (IH run') as (tried & Ht & Hall).
      exists (variant :: tried). split.
      - rewrite Ht, Hcalls. simpl. now rewrite <- app_assoc.
      - constructor; [split; [now left | exact Hne]|].
        revert Hall. apply Forall_impl. intros v [Hin Hv].
        split; [now right | exact Hv]. }
    simpl. destruct (String.eqb_spec variant (upper symbol)) as [Heq|Hne].
    + destruct (IH run) as (tried & Ht & Hall). exists tried.
      split; [exact Ht|]. revert Hall. apply Forall_impl.
      intros v [Hin Hv]. split; [now right | exact Hv].
    + pose proof (map_lookup_trace transport client variant (calls run))
        as Htrace.
      destruct (map_lookup transport client variant (calls run))
        as [[result|e] trace]; simpl in Htrace; subst trace.
      * destruct (get_or (data result) (DataList [])) as [[|e es]|[|kv d]];
          try (apply Hrest; [reflexivity | exact Hne]).
        exists [variant]. split; [reflexivity|].
        constructor; [split; [now left | exact Hne] | constructor].
      * apply Hrest; [reflexivity | exact Hne].
Qed.

End VariationLookups.

(** C5 at the symbol [padded_a_squared]: a space, [A], U+00B2 and a space.
    The normalized symbol [a_squared] is looked up by strategy 1.  It is
    also a generated variant (rule (d): it ends in a digit that is not one of
    [0123456789]), and strategy 2 compares the variants with the upper-cased
    symbol before trimming: the variant is not skipped, and its lookup is
    made a second time. *)
Theorem padded_symbol_variant_not_skipped :
  let symbol := padded_a_squared in
  let normalized := strip (upper symbol) in
  let world' :=
    snd (search_cryptocurrency empty_catalog sample_environ None
                               (Some symbol) None sample_world) in
  normalized = a_squared
  /\ In normalized (_generate_symbol_variations symbol)
  /\ requests world'
     = [ lookup_request normalized;
         lookup_request (a_squared ++ "TOKEN");
         lookup_request (a_squared ++ "COIN");
         lookup_request normalized ].
Proof. vm_compute. repeat split. auto. Qed.

(** Without the padding the same variant is skipped. *)
Lemma unpadded_symbol_variant_skipped :
  let world' :=
    snd (search_cryptocurrency empty_catalog sample_environ None
                               (Some a_squared) None sample_world) in
  requests world'
  = [ lookup_request a_squared;
      lookup_request (a_squared ++ "TOKEN");
      lookup_request (a_squared ++ "COIN") ].
Proof. reflexivity. Qed.

(* ================================================================== *)
(** * Fuzzy name match *)
(* ================================================================== *)

Lemma contains_empty (hay : string) : contains EmptyString hay = true.
Proof. destruct hay; reflexivity. Qed.

Lemma fold_left_fuzzy_item (name_lower name_clean : string)
    (data : list Entry) (matches : list FuzzyMatch) :
  fold_left (fuzzy_item name_lower name_clean) data matches
  = matches ++ flat_map (fuzzy_item name_lower name_clean []) data.
Proof.
  revert matches. induction data as [|item data IH]; intros matches; simpl.
  - now rewrite app_nil_r.
  - rewrite IH.
    set (rest := flat_map _ data). unfold fuzzy_item.
    destruct (similarity_of name_lower name_clean item) as [similarity mt].
    destruct (Qle_bool _ similarity); simpl;
      [now rewrite <- app_assoc | reflexivity].
Qed.

(** The reverse-contains branch of lines 247-250, as the code has it: the
    guard reads the length of the entry's name, also when it is the slug
    that the query contains. *)
Lemma reverse_contains_guard (name_lower name_clean : string) (item : Entry) :
  let item_name_clean := clean (lower (entry_name item)) in
  let item_slug_clean := clean (lower (entry_slug item)) in
  (name_clean =? item_name_clean) || (name_clean =? item_slug_clean) = false ->
  contains name_clean item_name_clean || contains name_clean item_slug_clean
  = false ->
  contains item_name_clean name_clean || contains item_slug_clean name_clean
  = true ->
  similarity_of name_lower name_clean item
  = if (5 <=? String.length item_name_clean)%nat
    then (b64 (85 # 100), Some "reverse_contains")
    else (0%Q, None).
Proof.
  intros inc isc H1 H2 H3. unfold similarity_of.
  fold inc. fold isc. now rewrite H1, H2, H3.
Qed.

(** C6 at the query ["Ethereum Classic Coin"] and an entry named ["ETC"]
    with the slug ["ethereum-classic"].  The entry is matched neither by the
    exact nor by the contains rule; its alphanumeric slug has 15 characters
    and is a substring of the alphanumeric query.  The similarity is 0, not
    0.85, and the fuzzy search returns nothing: the length guard reads the
    three characters of the name. *)
Theorem reverse_contains_by_slug_scores_zero :
  let name := "Ethereum Classic Coin" in
  let item := short_name_long_slug in
  let name_lower := strip (lower name) in
  let name_clean := clean name_lower in
  let item_name_clean := clean (lower (entry_name item)) in
  let item_slug_clean := clean (lower (entry_slug item)) in
  (name_clean =? item_name_clean) || (name_clean =? item_slug_clean) = false
  /\ contains name_clean item_name_clean
     || contains name_clean item_slug_clean = false
  /\ 5 <= String.length item_slug_clean
  /\ contains item_slug_clean name_clean = true
  /\ similarity_of name_lower name_clean item = (0%Q, None)
  /\ _fuzzy_search_by_name one_asset_catalog sample_client name []
     = ([], [catalog_request]).
Proof. vm_compute. repeat split. lia. Qed.

(** The literals 1.0 and 0.9 reach the threshold 0.6, and stay at or above
    0.9 when they are rounded to two places. *)
Lemma exact_score_kept : Qle_bool (b64 (6 # 10)) 1 = true.
Proof. vm_compute. reflexivity. Qed.

Lemma contains_score_kept : Qle_bool (b64 (6 # 10)) (b64 (9 # 10)) = true.
Proof. vm_compute. reflexivity. Qed.

Lemma exact_score_rounded : (b64 (9 # 10) <= round2 1)%Q.
Proof. vm_compute. discriminate. Qed.

Lemma contains_score_rounded : (b64 (9 # 10) <= round2 (b64 (9 # 10)))%Q.
Proof. vm_compute. discriminate. Qed.

Lemma contains_below_exact : (b64 (9 # 10) <= 1)%Q.
Proof. vm_compute. discriminate. Qed.

Section EmptyQuery.

Variable transport : Trace -> Request -> Outcome.
Variable client : Client.

(** With an empty alphanumeric query an entry scores 1.0 by the exact rule
    when its alphanumeric name or slug is empty, and 0.9 by the contains
    rule otherwise. *)
Lemma similarity_of_empty_query (name_lower : string) (item : Entry) :
  let item_name_clean := clean (lower (entry_name item)) in
  let item_slug_clean := clean (lower (entry_slug item)) in
  similarity_of name_lower EmptyString item
  = if (EmptyString =? item_name_clean) || (EmptyString =? item_slug_clean)
    then (1%Q, Some "exact")
    else (b64 (9 # 10), Some "contains").
Proof.
  intros inc isc. unfold similarity_of. fold inc. fold isc.
  now rewrite !contains_empty.
Qed.

Lemma fuzzy_item_empty_query (name_lower : string) (item : Entry) :
  exists similarity match_type,
    fuzzy_item name_lower EmptyString [] item
    = [ {| fm_item := item; fm_similarity := similarity;
           fm_match_type := match_type |} ]
    /\ (b64 (9 # 10) <= similarity)%Q.
Proof.
  unfold fuzzy_item. rewrite similarity_of_empty_query.
  destruct (_ || _); cbv beta iota.
  - rewrite exact_score_kept. eexists. eexists.
    split; [reflexivity | exact exact_score_rounded].
  - rewrite contains_score_kept. eexists. eexists.
    split; [reflexivity | exact contains_score_rounded].
Qed.

Lemma fuzzy_matches_empty_query (name_lower : string) (data : list Entry) :
  let matches := flat_map (fuzzy_item name_lower EmptyString []) data in
  map fm_item matches = data
  /\ forall m, In m matches -> (b64 (9 # 10) <= fm_similarity m)%Q.
Proof.
  induction data as [|item data [IHl IHm]]; simpl.
  - split; [reflexivity | contradiction].
  - destruct (fuzzy_item_empty_query name_lower item)
      as (similarity & mt & -> & Hs).
    simpl. split; [now rewrite IHl|].
    intros m [<- | Hm]; simpl; auto.
Qed.

(** C10, as the code has it.  When the alphanumeric lower-case form of the
    query is empty, every fetched entry scores at least 0.9: 1.0 by the
    exact rule when its alphanumeric name or its alphanumeric slug is
    empty, and 0.9 by the contains rule when both are non-empty.  Every
    entry of the page is kept as a match, and the fuzzy search returns the
    first five of the sorted matches, or all of them when the page has
    fewer: not an empty result unless the page is empty. *)
Theorem empty_query_matches_whole_catalog (name : string)
    (trace trace' : Trace) (result : Envelope) (page : list Entry) :
  clean (strip (lower name)) = EmptyString ->
  get_cryptocurrency_map transport client None None "active" 1 5000
                         "cmc_rank" trace = (Ok result, trace') ->
  data result = Some (DataList page) ->
  let name_lower := strip (lower name) in
  let matches := fst (_fuzzy_search_by_name transport client name trace) in
  (forall item, In item page ->
     (b64 (9 # 10) <= fst (similarity_of name_lower EmptyString item))%Q)
  /\ (forall item, In item page ->
        clean (lower (entry_name item)) <> EmptyString ->
        clean (lower (entry_slug item)) <> EmptyString ->
        similarity_of name_lower EmptyString item
        = (b64 (9 # 10), Some "contains"))
  /\ (forall item, In item page ->
        clean (lower (entry_name item)) = EmptyString
        \/ clean (lower (entry_slug item)) = EmptyString ->
        similarity_of name_lower EmptyString item = (1%Q, Some "exact"))
  /\ (exists kept,
        map fm_item kept = page
        /\ (forall m, In m kept -> (b64 (9 # 10) <= fm_similarity m)%Q)
        /\ matches = firstn 5 (list_sort match_key pair_lt kept))
  /\ List.length matches = Nat.min 5 (List.length page)
  /\ (page <> [] -> matches <> []).
Proof.
  intros Hclean Hcall Hdata name_lower matches.
  set (kept := flat_map (fuzzy_item name_lower EmptyString []) page).
  assert (Hm : matches = firstn 5 (list_sort match_key pair_lt kept)).
  { unfold matches, kept, name_lower, _fuzzy_search_by_name.
    rewrite Hclean, Hcall, Hdata. simpl get_or. cbv zeta. cbv iota.
    cbn [fst]. now rewrite fold_left_fuzzy_item. }
  destruct (fuzzy_matches_empty_query name_lower page) as [Hitems Hsim].
  fold kept in Hitems, Hsim.
  assert (Hlength : List.length matches = Nat.min 5 (List.length page)).
  { rewrite Hm, length_firstn, list_sort_length.
    now rewrite <- Hitems, length_map. }
  split; [|split; [|split; [|split; [|split]]]].
  - intros item _. rewrite similarity_of_empty_query.
    destruct (_ || _); cbn [fst];
      [exact contains_below_exact | apply Qle_refl].
  - intros item _ Hn Hs. rewrite similarity_of_empty_query.
    apply String.eqb_neq in Hn, Hs.
    rewrite String.eqb_sym in Hn. rewrite String.eqb_sym in Hs.
    now rewrite Hn, Hs.
  - intros item _ Hempty. rewrite similarity_of_empty_query.
    replace ((EmptyString =? clean (lower (entry_name item)))
             || (EmptyString =? clean (lower (entry_slug item))))
      with true; [reflexivity|].
    symmetry. apply orb_true_iff.
    destruct Hempty as [H|H]; [left | right]; now rewrite H.
  - exists kept. auto.
  - exact Hlength.
  - intros Hpage Hnil. rewrite Hnil in Hlength. simpl in Hlength.
    destruct page; [congruence | simpl in Hlength; lia].
Qed.

End EmptyQuery.

(** A query of punctuation only against the sample catalog. *)
Lemma empty_query_matches_whole_catalog_witness :
  clean (strip (lower " -- ")) = EmptyString
  /\ List.length
       (fst (_fuzzy_search_by_name sample_transport sample_client " -- " []))
     = 3.
Proof.
  split; [reflexivity|].
  now destruct (empty_query_matches_whole_catalog sample_transport
                  sample_client " -- " [] _ _
                  [bitcoin; ethereum; ethereum_classic]
                  eq_refl eq_refl eq_refl)
    as (_ & _ & _ & _ & H & _).
Defined.

(** C10, as the specification states it, fails: the entry has a non-empty
    alphanumeric slug, the query is empty, and the entry is scored by the
    exact rule, not by the contains rule: its alphanumeric name is empty
    and equals the query. *)
Lemma empty_name_scores_by_exact_rule :
  clean (strip (lower " -- ")) = EmptyString
  /\ clean (lower (entry_slug symbols_only_name)) <> EmptyString
  /\ similarity_of (strip (lower " -- ")) EmptyString symbols_only_name
     = (1%Q, Some "exact")
  /\ snd (similarity_of (strip (lower " -- ")) EmptyString symbols_only_name)
     <> Some "contains".
Proof. vm_compute. repeat split; discriminate. Qed.

(* ================================================================== *)
(** * The unit tests of the repository, run on the model *)
(* ================================================================== *)

Example test_generate_symbol_variations_fet :
  In "ASI" (_generate_symbol_variations "FET").
Proof. vm_compute. tauto. Qed.

Example test_name_to_slug_simple :
  _name_to_slug "Bitcoin" = "bitcoin" /\ _name_to_slug "Ethereum" = "ethereum".
Proof. split; reflexivity. Qed.

Example test_normalize_url :
  _normalize_url "https://ethereum.org/" = "ethereum.org"
  /\ _normalize_url "http://ethereum.org/" = "ethereum.org"
  /\ _normalize_url "https://www.ethereum.org" = "ethereum.org"
  /\ _normalize_url "www.ethereum.org" = "ethereum.org"
  /\ _normalize_url "HTTPS://ETHEREUM.ORG" = "ethereum.org"
  /\ _normalize_url "HTTPS://Ethereum.org/" = "ethereum.org"
  /\ _normalize_url "ethereum.org" = "ethereum.org".
Proof. repeat split; reflexivity. Qed.

Example test_extract_domain :
  _extract_domain "https://ethereum.org/en/" = "ethereum.org"
  /\ _extract_domain "https://docs.ethereum.org/guide" = "docs.ethereum.org"
  /\ _extract_domain "https://localhost:8080/api" = "localhost"
  /\ _extract_domain "https://www.binance.com:443/trade" = "binance.com".
Proof. repeat split; reflexivity. Qed.

Example test_search_cryptocurrency_exact_symbol :
  exists r world',
    search_cryptocurrency mocked_map sample_environ None (Some "BTC") None
                          sample_world = (Ok r, world')
    /\ found r = true
    /\ option_map (fun c => entry_symbol (item c)) (best_match r) = Some "BTC"
    /\ option_map _confidence (best_match r) = Some "high"
    /\ option_map _match_method (best_match r) = Some "exact_symbol".
Proof. eexists. eexists. split; [vm_compute; reflexivity|]. now vm_compute. Qed.

Example test_search_cryptocurrency_not_found :
  exists r world',
    search_cryptocurrency empty_catalog sample_environ None (Some "NOTEXIST")
                          None sample_world = (Ok r, world')
    /\ found r = false /\ match_count r = 0 /\ best_match r = None.
Proof. eexists. eexists. split; [vm_compute; reflexivity|]. now vm_compute. Qed.

Example test_api_error_handling :
  fst (get_cryptocurrency_info mocked_map sample_client None (Some "INVALID")
                               None None [])
  = Raise (CoinMarketCapAPIError 400 (Some "Invalid value for symbol") 400).
Proof. reflexivity. Qed.

Example test_missing_parameter_error :
  get_cryptocurrency_info mocked_map sample_client None None None None []
  = (Raise (ValueError
              "At least one of id, symbol, slug, or address is required"),
     []).
Proof. reflexivity. Qed.

Example test_missing_api_key_raises_error :
  exists msg,
    _get_client {| COINMARKETCAP_API_KEY := None; CMC_API_KEY := None |} None
    = (Raise (ValueError msg), None).
Proof. eexists. reflexivity. Qed.

Example test_fallback_api_key :
  _get_client {| COINMARKETCAP_API_KEY := None;
                 CMC_API_KEY := Some "fallback-key" |} None
  = (Ok {| api_key := "fallback-key" |},
     Some {| api_key := "fallback-key" |}).
Proof. reflexivity. Qed.

(** Specification, section 8: for the query ["Ethereum"] the entry matched
    exactly ranks before the one that contains the query. *)
Example fuzzy_exact_ranks_first :
  map (fun m => (entry_name (fm_item m), fm_match_type m))
      (fst (_fuzzy_search_by_name sample_transport sample_client "Ethereum"
                                  []))
  = [("Ethereum", Some "exact"); ("Ethereum Classic", Some "contains")].
Proof. reflexivity. Qed.

(* ================================================================== *)
(** * Homepage verification: what it keeps *)
(* ================================================================== *)

Lemma tier_rank_range (tier : string) : (0 <= tier_rank tier <= 3)%Z.
Proof.
  unfold tier_rank, confidence_order. simpl.
  repeat match goal with
         | |- context [if ?b then _ else _] => destruct b
         end; simpl; lia.
Qed.

Lemma upgrade_of_refl (c : Candidate) : upgrade_of c c.
Proof. unfold upgrade_of. repeat split; auto. lia. Qed.

(** Equal normalized URLs have equal domains. *)
Lemma exact_match_domain_match (homepage : string) (urls : list string) :
  exact_match homepage urls = true -> domain_match homepage urls = true.
Proof.
  unfold exact_match, domain_match. rewrite !existsb_exists.
  intros (url & Hin & Heq). exists url. split; [exact Hin|].
  apply String.eqb_eq in Heq. apply String.eqb_eq.
  unfold _extract_domain. now rewrite Heq.
Qed.

Section VerificationKeeps.

Variable info_data : list (string * InfoValue).
Variable homepage : string.

Lemma verify_candidate_upgrade (c c' : Candidate) :
  verify_candidate info_data homepage (_normalize_url homepage) c = Ok c' ->
  upgrade_of c c'.
Proof.
  unfold verify_candidate.
  destruct (lookup _ info_data) as [[info|infos]|]; [|discriminate|].
  - pose proof (tier_rank_range (_confidence c)) as Hr.
    destruct (existsb _ _); [|destruct (existsb _ _)];
      intros H; injection H as <-; unfold upgrade_of; simpl;
      repeat split; auto; try lia.
    + apply Hr.
    + destruct (String.eqb_spec (_confidence c) "low") as [->|_];
        [vm_compute; discriminate | lia].
  - intros H. injection H as <-. apply upgrade_of_refl.
Qed.

Lemma verify_loop_upgrade (candidates : list Candidate) :
  Forall2 upgrade_of candidates
          (verify_loop info_data homepage (_normalize_url homepage)
                       candidates).
Proof.
  assert (Hrefl : forall l, Forall2 upgrade_of l l).
  { induction l; constructor; auto using upgrade_of_refl. }
  induction candidates as [|c cs IH]; simpl; [constructor|].
  destruct (verify_candidate _ _ _ c) as [c'|e] eqn:E.
  - constructor; [now apply verify_candidate_upgrade | exact IH].
  - apply Hrefl.
Qed.

(** The branches of lines 368-375, reached when no website matches
    exactly. *)
Lemma verify_candidate_not_exact (candidate : Candidate) (info : Entry) :
  lookup (cid_of candidate) info_data = Some (One info) ->
  exact_match homepage (website_urls_of info) = false ->
  verify_candidate info_data homepage (_normalize_url homepage) candidate
  = Ok (if domain_match homepage (website_urls_of info)
        then with_homepage_match candidate
               (if _confidence candidate =? "low"
                then "medium" else _confidence candidate)
               (_warning candidate) (inl "domain") (website_urls_of info)
        else with_homepage_match candidate (_confidence candidate)
               (_warning candidate) (inr false) (website_urls_of info)).
Proof.
  intros Hinfo Hex. unfold verify_candidate.
  fold (cid_of candidate). rewrite Hinfo. fold (website_urls_of info).
  fold (exact_match homepage (website_urls_of info)).
  fold (domain_match homepage (website_urls_of info)).
  rewrite Hex. now destruct (domain_match _ _).
Qed.

(** The loop leaves the candidates from the first list-valued metadata on
    as they were. *)
Lemma verify_loop_after_list (candidates : list Candidate) (j : nat)
    (stopper : Candidate) (infos : list Entry) :
  nth_error candidates j = Some stopper ->
  lookup (cid_of stopper) info_data = Some (Many infos) ->
  forall i candidate,
    j <= i -> nth_error candidates i = Some candidate ->
    nth_error
      (verify_loop info_data homepage (_normalize_url homepage) candidates) i
    = Some candidate.
Proof.
  intros Hj Hlist. revert j Hj.
  induction candidates as [|c cs IH]; intros j Hj i candidate Hji Hi.
  - destruct i; discriminate.
  - simpl.
    destruct (verify_candidate info_data homepage (_normalize_url homepage)
                               c) as [c'|e] eqn:E; [|exact Hi].
    destruct j as [|j].
    + simpl in Hj. injection Hj as ->.
      unfold verify_candidate in E. fold (cid_of stopper) in E.
      rewrite Hlist in E. discriminate.
    + destruct i as [|i]; [lia|]. simpl in *.
      apply (IH j Hj); [lia | exact Hi].
Qed.

End VerificationKeeps.

Section VerificationResult.

Variable transport : Trace -> Request -> Outcome.
Variable client : Client.

(** X1.  Homepage verification returns the same entries in the same order,
    each with its match method, matched query and similarity as before and
    with a confidence that is the same or a higher tier; this also holds
    when the metadata request fails or the loop stops early. *)
Theorem verification_only_upgrades (candidates : list Candidate)
    (homepage : string) (trace : Trace) :
  Forall2 upgrade_of candidates
    (fst (_verify_candidates_by_homepage transport client candidates
                                         homepage trace)).
Proof.
  assert (Hrefl : forall l, Forall2 upgrade_of l l).
  { induction l; constructor; auto using upgrade_of_refl. }
  unfold _verify_candidates_by_homepage.
  destruct (map _ (firstn 10 candidates)); [apply Hrefl|].
  destruct (get_cryptocurrency_info _ _ _ _ _ _ _) as [[result|e] trace'];
    [|apply Hrefl].
  destruct (get_or (data result) (DataDict [])); [apply Hrefl|].
  apply verify_loop_upgrade.
Qed.

(** X2.  When the metadata fetched for a candidate lists no website whose
    normalized URL equals the normalized homepage, the verification keeps
    the candidate's warning; if a website has the homepage's domain it sets
    [_homepage_match] to domain and raises a low confidence to medium,
    leaving every other confidence as it is; otherwise it sets
    [_homepage_match] to [False] and leaves the confidence.  The candidate
    is the one at position [i]; its metadata was fetched (the request
    returned a mapping that has it as a single object) and the loop reached
    it (the metadata of the candidates before it are single objects). *)
Theorem homepage_mismatch_keeps_warning (candidates : list Candidate)
    (homepage : string) (trace trace' : Trace) (info_result : Envelope)
    (info_data : list (string * InfoValue)) (i : nat)
    (candidate : Candidate) (info : Entry) :
  get_cryptocurrency_info transport client
    (Some (String.concat "," (map cid_of (firstn 10 candidates))))
    None None None trace = (Ok info_result, trace') ->
  data info_result = Some (DataDict info_data) ->
  nth_error candidates i = Some candidate ->
  (forall j c, j < i -> nth_error candidates j = Some c ->
               not_a_list info_data c) ->
  lookup (cid_of candidate) info_data = Some (One info) ->
  exact_match homepage (website_urls_of info) = false ->
  exists candidate',
    nth_error
      (fst (_verify_candidates_by_homepage transport client candidates
                                           homepage trace)) i
    = Some candidate'
    /\ _warning candidate' = _warning candidate
    /\ _website_urls candidate' = Some (website_urls_of info)
    /\ (domain_match homepage (website_urls_of info) = true ->
        _homepage_match candidate' = Some (inl "domain")
        /\ (_confidence candidate = "low" ->
            _confidence candidate' = "medium")
        /\ (_confidence candidate <> "low" ->
            _confidence candidate' = _confidence candidate))
    /\ (domain_match homepage (website_urls_of info) = false ->
        _homepage_match candidate' = Some (inr false)
        /\ _confidence candidate' = _confidence candidate).
Proof.
  intros Hcall Hdata Hi Hbefore Hinfo Hex.
  pose proof (verify_candidate_not_exact info_data homepage candidate info
                Hinfo Hex) as Hv.
  eexists. split.
  - unfold _verify_candidates_by_homepage.
    destruct candidates as [|c0 cs]; [destruct i; discriminate|].
    change (fun c : Candidate => str_of_Z (entry_id (item c))) with cid_of.
    cbn [firstn map] in *. rewrite Hcall, Hdata. simpl get_or. cbn [fst].
    apply (verify_loop_nth info_data homepage (c0 :: cs) i candidate);
      [exact Hi | exact Hbefore | exact Hv].
  - destruct (domain_match homepage (website_urls_of info)); simpl;
      repeat split; try discriminate; auto.
    + intros ->. reflexivity.
    + intros Hne. apply String.eqb_neq in Hne. now rewrite Hne.
Qed.

(** X25.  The verification stops at the first candidate whose fetched
    metadata is a list: that candidate and every candidate after it are
    returned as they were, whatever websites their metadata list. *)
Theorem verification_stops_at_list (candidates : list Candidate)
    (homepage : string) (trace trace' : Trace) (info_result : Envelope)
    (info_data : list (string * InfoValue)) (j : nat) (stopper : Candidate)
    (infos : list Entry) :
  get_cryptocurrency_info transport client
    (Some (String.concat "," (map cid_of (firstn 10 candidates))))
    None None None trace = (Ok info_result, trace') ->
  data info_result = Some (DataDict info_data) ->
  nth_error candidates j = Some stopper ->
  lookup (cid_of stopper) info_data = Some (Many infos) ->
  forall i candidate,
    j <= i -> nth_error candidates i = Some candidate ->
    nth_error
      (fst (_verify_candidates_by_homepage transport client candidates
                                           homepage trace)) i
    = Some candidate.
Proof.
  intros Hcall Hdata Hj Hlist i candidate Hji Hi.
  unfold _verify_candidates_by_homepage.
  destruct candidates as [|c0 cs]; [destruct i; discriminate|].
  change (fun c : Candidate => str_of_Z (entry_id (item c))) with cid_of.
  cbn [firstn map] in *. rewrite Hcall, Hdata. simpl get_or. cbn [fst].
  now apply (verify_loop_after_list info_data homepage (c0 :: cs) j stopper
               infos Hj Hlist).
Qed.

End VerificationResult.

(** A fuzzy match of ethereum checked against a page of the same site: the
    domain matches, the URL does not. *)
Lemma homepage_mismatch_keeps_warning_witness :
  let candidate :=
    fuzzy_candidate {| fm_item := ethereum; fm_similarity := 1;
                       fm_match_type := Some "exact" |} in
  exists candidate',
    nth_error
      (fst (_verify_candidates_by_homepage sample_transport sample_client
              [candidate] "https://ethereum.org/en/" [])) 0
    = Some candidate'
    /\ _warning candidate' = _warning candidate
    /\ _confidence candidate' = "medium"
    /\ _homepage_match candidate' = Some (inl "domain").
Proof.
  intros candidate.
  destruct (homepage_mismatch_keeps_warning sample_transport sample_client
              [candidate] "https://ethereum.org/en/" [] _ _
              [("1", One bitcoin); ("1027", One ethereum)] 0 candidate
              ethereum eq_refl eq_refl eq_refl)
    as (c' & H1 & H2 & _ & H3 & _).
  - intros j c Hj. lia.
  - reflexivity.
  - reflexivity.
  - destruct (H3 eq_refl) as (H4 & H5 & _).
    exists c'. repeat split; auto.
Defined.

Lemma verification_stops_at_list_witness :
  nth_error
    (fst (_verify_candidates_by_homepage list_valued_metadata sample_client
            [fuzzy_ethereum; fuzzy_bitcoin] "https://bitcoin.org" [])) 1
  = Some fuzzy_bitcoin.
Proof.
  apply (verification_stops_at_list list_valued_metadata sample_client
           [fuzzy_ethereum; fuzzy_bitcoin] "https://bitcoin.org" [] _ _
           [("1027", Many [ethereum]); ("1", One bitcoin)] 0 fuzzy_ethereum
           [ethereum] eq_refl eq_refl eq_refl eq_refl 1 fuzzy_bitcoin);
    [lia | reflexivity].
Defined.

(* ================================================================== *)
(** * Invariants of the candidates *)
(* ================================================================== *)

Lemma base_tier_not_verified (m : string) : base_tier m <> "verified".
Proof.
  unfold base_tier. destruct (m =? "exact_symbol");
    [|destruct (m =? "fuzzy_name")]; discriminate.
Qed.

Lemma fresh_coherent (c : Candidate) : fresh c -> coherent c.
Proof.
  intros (Hm & Hc & _ & _ & Hw). unfold coherent.
  split; [exact Hm|]. split; [now left|].
  rewrite Hw, Hc. split; [|tauto].
  intros H. split; [exact H | apply base_tier_not_verified].
Qed.

Lemma fresh_new_candidate (e : Entry) (m : string)
    (matched original : option string) :
  In m ["exact_symbol"; "symbol_variation"; "slug"] ->
  fresh (new_candidate e m (base_tier m) matched original).
Proof.
  intros Hm. unfold fresh. simpl.
  assert (Hf : m <> "fuzzy_name")
    by (destruct Hm as [<-|[<-|[<-|[]]]]; discriminate).
  split; [|split; [reflexivity|split; [reflexivity|split; [reflexivity|]]]].
  - destruct Hm as [<-|[<-|[<-|[]]]]; auto.
  - split; [congruence | contradiction].
Qed.

Lemma fresh_fuzzy_candidate (m : FuzzyMatch) : fresh (fuzzy_candidate m).
Proof.
  unfold fresh. simpl. repeat split; auto; try tauto. discriminate.
Qed.

Lemma all_fresh_nil (m : string) : all_fresh m [].
Proof. constructor. Qed.

Lemma all_fresh_map_new (m : string) (matched original : option string)
    (entries : list Entry) :
  In m ["exact_symbol"; "symbol_variation"; "slug"] ->
  all_fresh m (map (fun e => new_candidate e m (base_tier m) matched
                                           original) entries).
Proof.
  intros Hm. unfold all_fresh. rewrite Forall_map, Forall_forall.
  intros e _. split; [now apply fresh_new_candidate | reflexivity].
Qed.

Section StrategyInvariants.

Variable transport : Trace -> Request -> Outcome.
Variable client : Client.

Lemma exact_symbol_fresh (symbol : option string) (run : Run) :
  candidates run = [] ->
  all_fresh "exact_symbol"
            (candidates (exact_symbol transport client symbol run)).
Proof.
  intros Hc. unfold exact_symbol.
  destruct (truthy_opt symbol); [|rewrite Hc; constructor].
  destruct (map_lookup _ _ _ _) as [[result|e] trace]; simpl;
    [|rewrite Hc; constructor].
  destruct (get_or (data result) (DataList [])) as [[|x l]|[|x d]]; simpl;
    rewrite Hc; try constructor.
  - split; [apply (fresh_new_candidate x "exact_symbol"); simpl; auto
           | reflexivity].
  - apply (all_fresh_map_new "exact_symbol"). simpl. auto.
Qed.

Lemma try_variations_fresh (symbol : string) (variations : list string)
    (run : Run) :
  candidates run = [] ->
  all_fresh "symbol_variation"
    (candidates (try_variations transport client symbol variations run)).
Proof.
  revert run. induction variations as [|variant rest IH]; intros run Hc.
  - simpl. rewrite Hc. constructor.
  - simpl. destruct (variant =? upper symbol); [now apply IH|].
    destruct (map_lookup _ _ _ _) as [[result|e] trace];
      [|now apply IH].
    destruct (get_or (data result) (DataList [])) as [[|x l]|[|x d]];
      try (now apply IH).
    simpl. rewrite Hc. simpl. constructor.
    + split; [apply (fresh_new_candidate x "symbol_variation"); simpl; auto
             | reflexivity].
    + apply (all_fresh_map_new "symbol_variation"). simpl. auto.
Qed.

Lemma slug_candidates_fresh (slug : string) (kv : string * InfoValue) :
  all_fresh "slug" (slug_candidates slug kv).
Proof.
  unfold slug_candidates, slug_candidate.
  destruct (snd kv) as [info|infos].
  - constructor; [|constructor].
    split; [apply (fresh_new_candidate _ "slug"); simpl; auto | reflexivity].
  - unfold all_fresh. rewrite Forall_map, Forall_forall. intros e _.
    split; [apply (fresh_new_candidate _ "slug"); simpl; auto | reflexivity].
Qed.

Lemma symbol_variation_gated (symbol : option string) :
  gated "symbol_variation" (symbol_variation transport client symbol).
Proof.
  intros run. unfold symbol_variation. split; intros Hc.
  - destruct (candidates run) eqn:E; [congruence|]. simpl.
    now rewrite andb_false_r.
  - destruct (_ && _); [now apply try_variations_fresh|].
    rewrite Hc. constructor.
Qed.

Lemma slug_from_name_gated (name : option string) :
  gated "slug" (slug_from_name transport client name).
Proof.
  intros run. unfold slug_from_name. split; intros Hc.
  - destruct (candidates run) eqn:E; [congruence|]. simpl.
    now rewrite andb_false_r.
  - destruct (_ && _); [|rewrite Hc; constructor].
    destruct (get_cryptocurrency_info _ _ _ _ _ _ _) as [[result|e] trace];
      simpl; [|rewrite Hc; constructor].
    destruct (get_or (data result) (DataDict [])) as [[|x l]|[|x d]]; simpl;
      rewrite Hc; try constructor.
    simpl. apply Forall_app. split; [apply slug_candidates_fresh|].
    unfold all_fresh. apply Forall_flat_map. rewrite Forall_forall.
    intros kv _. apply slug_candidates_fresh.
Qed.

Lemma fuzzy_name_gated (name : option string) :
  gated "fuzzy_name" (fuzzy_name transport client name).
Proof.
  intros run. unfold fuzzy_name. split; intros Hc.
  - destruct (candidates run) eqn:E; [congruence|]. simpl.
    now rewrite andb_false_r.
  - destruct (_ && _); [|rewrite Hc; constructor].
    destruct (_fuzzy_search_by_name _ _ _ _) as [[|m ms] trace]; simpl;
      rewrite Hc; [constructor|].
    simpl. constructor; [split; [apply fresh_fuzzy_candidate | reflexivity]|].
    unfold all_fresh. rewrite Forall_map, Forall_forall. intros x _.
    split; [apply fresh_fuzzy_candidate | reflexivity].
Qed.

(** What a gated strategy makes of candidates of one method. *)
Lemma gated_step (m m' : string) (strategy : Run -> Run) (run : Run) :
  gated m' strategy ->
  all_fresh m (candidates run) ->
  In m match_methods -> In m' match_methods ->
  exists m'', In m'' match_methods
              /\ all_fresh m'' (candidates (strategy run)).
Proof.
  intros Hg Hf Hm Hm'. destruct (Hg run) as [Hkeep Hnew].
  destruct (candidates run) as [|c cs] eqn:E.
  - exists m'. split; [exact Hm' | now apply Hnew].
  - exists m. split; [exact Hm|]. rewrite Hkeep by discriminate. exact Hf.
Qed.

(** The candidates the lookup strategies find come from one strategy. *)
Lemma lookup_strategies_fresh (name symbol : option string) (trace : Trace) :
  exists m, In m match_methods
            /\ all_fresh m (candidates (lookup_strategies transport client
                                          name symbol trace)).
Proof.
  unfold lookup_strategies.
  set (r0 := {| candidates := []; log := []; calls := trace |}).
  pose proof (exact_symbol_fresh symbol r0 eq_refl) as H1.
  destruct (gated_step _ _ _ _ (symbol_variation_gated symbol) H1)
    as (m2 & Hm2 & H2); [simpl; auto | simpl; auto |].
  destruct (gated_step _ _ _ _ (slug_from_name_gated name) H2)
    as (m3 & Hm3 & H3); [exact Hm2 | simpl; auto |].
  destruct (gated_step _ _ _ _ (fuzzy_name_gated name) H3)
    as (m4 & Hm4 & H4); [exact Hm3 | simpl; auto |].
  now exists m4.
Qed.

End StrategyInvariants.

Lemma base_tier_low (m : string) : base_tier m = "low" -> m = "fuzzy_name".
Proof.
  unfold base_tier. destruct (m =? "exact_symbol"); [discriminate|].
  destruct (String.eqb_spec m "fuzzy_name"); [auto | discriminate].
Qed.

Lemma all_fresh_coherent (m : string) (cands : list Candidate) :
  all_fresh m cands -> all_coherent m cands.
Proof.
  apply Forall_impl. intros c [Hf Hm]. split; [now apply fresh_coherent | auto].
Qed.

Section VerificationInvariants.

Variable info_data : list (string * InfoValue).
Variable homepage : string.

Lemma verify_candidate_coherent (c c' : Candidate) :
  fresh c ->
  verify_candidate info_data homepage (_normalize_url homepage) c = Ok c' ->
  coherent c' /\ _match_method c' = _match_method c.
Proof.
  intros Hf. pose proof Hf as (Hm & Hc & _ & _ & Hw).
  pose proof (base_tier_not_verified (_match_method c)) as Hnv.
  unfold verify_candidate.
  destruct (lookup _ info_data) as [[info|infos]|]; [|discriminate|].
  - destruct (existsb _ _); [|destruct (existsb _ _)];
      intros H; injection H as <-; (split; [|reflexivity]);
      unfold coherent; simpl.
    + split; [exact Hm|]. split; [auto|]. split; [congruence | tauto].
    + destruct (String.eqb_spec (_confidence c) "low") as [Hlow|Hnot].
      * assert (_match_method c = "fuzzy_name")
          by (apply base_tier_low; congruence).
        split; [exact Hm|]. split; [auto|].
        rewrite Hw. split; [|tauto]. intros. split; [auto | discriminate].
      * split; [exact Hm|]. split; [auto|].
        rewrite Hw, Hc. split; [|tauto]. intros. split; auto.
    + split; [exact Hm|]. split; [auto|].
      rewrite Hw, Hc. split; [|tauto]. intros. split; auto.
  - intros H. injection H as <-. split; [now apply fresh_coherent | auto].
Qed.

Lemma verify_loop_coherent (m : string) (cands : list Candidate) :
  all_fresh m cands ->
  all_coherent m (verify_loop info_data homepage (_normalize_url homepage)
                              cands).
Proof.
  induction 1 as [|c cs [Hf Hm] Hcs IH]; simpl; [constructor|].
  destruct (verify_candidate _ _ _ c) as [c'|e] eqn:E.
  - destruct (verify_candidate_coherent c c' Hf E) as [Hc' Hm'].
    constructor; [split; [exact Hc' | congruence] | exact IH].
  - apply all_fresh_coherent. constructor; auto.
Qed.

End VerificationInvariants.

Section ResultInvariants.

Variable transport : Trace -> Request -> Outcome.
Variable environ : Environ.

Lemma homepage_verification_coherent (client : Client)
    (homepage : option string) (m : string) (run : Run) :
  all_fresh m (candidates run) ->
  all_coherent m
    (candidates (homepage_verification transport client homepage run)).
Proof.
  intros Hf. unfold homepage_verification.
  destruct (_ && _); [|now apply all_fresh_coherent].
  unfold _verify_candidates_by_homepage.
  destruct (map _ (firstn 10 (candidates run)));
    [now apply all_fresh_coherent|].
  destruct (get_cryptocurrency_info _ _ _ _ _ _ _) as [[result|e] trace];
    [|now apply all_fresh_coherent].
  destruct (get_or (data result) (DataDict []));
    [now apply all_fresh_coherent|].
  simpl. now apply verify_loop_coherent.
Qed.

Lemma homepage_verification_skipped (client : Client)
    (homepage : option string) (run : Run) :
  truthy_opt homepage = false ->
  homepage_verification transport client homepage run = run.
Proof. intros H. unfold homepage_verification. now rewrite H. Qed.

(** Every candidate of [all_matches] is a candidate the strategies left. *)
Lemma all_matches_In (name symbol homepage : option string)
    (cands : list Candidate) (search_log : list string) (c : Candidate) :
  In c (all_matches (make_result name symbol homepage cands search_log)) ->
  In c cands.
Proof.
  unfold make_result. cbv zeta. cbn [all_matches]. intros H.
  apply (list_sort_In confidence_key Z.ltb).
  rewrite <- (firstn_skipn 10). apply in_or_app. now left.
Qed.

(** X3.  The candidates of a result come from one strategy: they all carry
    the same match method, one of the four. *)
Theorem result_has_one_match_method (name symbol homepage : option string)
    (world world' : World) (r : SearchResult) :
  search_cryptocurrency transport environ name symbol homepage world
  = (Ok r, world') ->
  exists m,
    In m match_methods
    /\ forall c, In c (all_matches r) -> _match_method c = m.
Proof.
  intros H. apply search_returns in H as (client & slot & _ & -> & _).
  destruct (lookup_strategies_fresh transport client name symbol
              (requests world)) as (m & Hm & Hf).
  exists m. split; [exact Hm|]. intros c Hc.
  apply all_matches_In in Hc.
  pose proof (homepage_verification_coherent client homepage m _ Hf) as Hv.
  unfold all_coherent in Hv. rewrite Forall_forall in Hv.
  now apply Hv.
Qed.

(** X4.  In a result the confidence of a candidate is the one its strategy
    gives (high for an exact symbol, medium for a symbol variation or a
    slug, low for a fuzzy name), or verified, or medium for a fuzzy name;
    and a candidate carries a warning exactly when it is a fuzzy match that
    is not verified. *)
Theorem result_candidates_coherent (name symbol homepage : option string)
    (world world' : World) (r : SearchResult) :
  search_cryptocurrency transport environ name symbol homepage world
  = (Ok r, world') ->
  forall c, In c (all_matches r) -> coherent c.
Proof.
  intros H c Hc. apply search_returns in H as (client & slot & _ & -> & _).
  destruct (lookup_strategies_fresh transport client name symbol
              (requests world)) as (m & Hm & Hf).
  apply all_matches_In in Hc.
  pose proof (homepage_verification_coherent client homepage m _ Hf) as Hv.
  unfold all_coherent in Hv. rewrite Forall_forall in Hv.
  now apply Hv.
Qed.

(** X5.  Without a homepage no candidate is verified: every candidate of the
    result has the confidence of its strategy and no [_homepage_match]. *)
Theorem no_homepage_no_verification (name symbol homepage : option string)
    (world world' : World) (r : SearchResult) :
  truthy_opt homepage = false ->
  search_cryptocurrency transport environ name symbol homepage world
  = (Ok r, world') ->
  forall c, In c (all_matches r) ->
    _confidence c = base_tier (_match_method c)
    /\ _homepage_match c = None /\ _website_urls c = None.
Proof.
  intros Hh H c Hc. apply search_returns in H as (client & slot & _ & -> & _).
  destruct (lookup_strategies_fresh transport client name symbol
              (requests world)) as (m & Hm & Hf).
  apply all_matches_In in Hc. unfold run_strategies in Hc.
  rewrite homepage_verification_skipped in Hc by exact Hh.
  unfold all_fresh in Hf. rewrite Forall_forall in Hf.
  destruct (Hf c Hc) as [(_ & H1 & H2 & H3 & _) _]. auto.
Qed.

End ResultInvariants.

(* ================================================================== *)
(** * How the strategies compose *)
(* ================================================================== *)

Ltac by_running thm :=
  eexists; eexists; split;
  [vm_compute; reflexivity | eapply thm; vm_compute; reflexivity].

Lemma result_has_one_match_method_witness :
  exists r world',
    search_cryptocurrency sample_transport sample_environ (Some "Ethereum")
                          None (Some "ethereum.org") sample_world
    = (Ok r, world')
    /\ exists m,
         In m match_methods
         /\ forall c, In c (all_matches r) -> _match_method c = m.
Proof.
  by_running (result_has_one_match_method sample_transport sample_environ
                (Some "Ethereum") None (Some "ethereum.org") sample_world).
Defined.

Lemma result_candidates_coherent_witness :
  exists r world',
    search_cryptocurrency sample_transport sample_environ (Some "Ethereum")
                          None (Some "ethereum.org") sample_world
    = (Ok r, world')
    /\ forall c, In c (all_matches r) -> coherent c.
Proof.
  by_running (result_candidates_coherent sample_transport sample_environ
                (Some "Ethereum") None (Some "ethereum.org") sample_world).
Defined.

Lemma no_homepage_no_verification_witness :
  exists r world',
    search_cryptocurrency sample_transport sample_environ (Some "Ethereum")
                          None None sample_world
    = (Ok r, world')
    /\ forall c, In c (all_matches r) ->
         _confidence c = base_tier (_match_method c)
         /\ _homepage_match c = None /\ _website_urls c = None.
Proof.
  eexists. eexists. split; [vm_compute; reflexivity|].
  eapply (no_homepage_no_verification sample_transport sample_environ
            (Some "Ethereum") None None sample_world);
    [reflexivity | vm_compute; reflexivity].
Defined.

(** Sorting a list whose elements have one key leaves it as it is. *)
Lemma list_sort_one_key {A : Type} (key : A -> Z) (k : Z) (l : list A) :
  Forall (fun a => key a = k) l -> list_sort key Z.ltb l = l.
Proof.
  induction 1 as [|x l Hx Hl IH]; simpl; [reflexivity|].
  rewrite IH. destruct Hl as [|y l Hy Hl]; simpl; [reflexivity|].
  now rewrite Hx, Hy, Z.ltb_irrefl.
Qed.

Section Gating.

Variable transport : Trace -> Request -> Outcome.
Variable client : Client.

Lemma exact_symbol_calls (symbol : string) (run : Run) :
  truthy symbol = true ->
  calls (exact_symbol transport client (Some symbol) run)
  = calls run ++ [lookup_request (strip (upper symbol))].
Proof.
  intros Hs. unfold exact_symbol. simpl. rewrite Hs.
  pose proof (map_lookup_trace transport client (strip (upper symbol))
                (calls run)) as Ht.
  destruct (map_lookup _ _ _ _) as [[result|e] trace]; simpl in Ht;
    subst trace; [|reflexivity].
  destruct (get_or (data result) (DataList [])) as [[|x l]|[|x d]];
    reflexivity.
Qed.

(** When the exact lookup returns entries, the lookup strategies stop
    there. *)
Lemma exact_hit_stops_lookups (name : option string) (symbol : string)
    (trace trace' : Trace) (result : Envelope) (e : Entry)
    (es : list Entry) :
  truthy symbol = true ->
  map_lookup transport client (strip (upper symbol)) trace
  = (Ok result, trace') ->
  data result = Some (DataList (e :: es)) ->
  lookup_strategies transport client name (Some symbol) trace
  = {| candidates :=
         map (fun item =>
                new_candidate item "exact_symbol" "high"
                              (Some (strip (upper symbol))) None) (e :: es);
       log := [("exact_symbol(" ++ strip (upper symbol) ++ "): "
                  ++ str_of_nat (S (List.length es)) ++ " found")%string];
       calls := trace ++ [lookup_request (strip (upper symbol))] |}.
Proof.
  intros Hs Hcall Hdata. unfold lookup_strategies.
  assert (H1 : exact_symbol transport client (Some symbol)
                 {| candidates := []; log := []; calls := trace |}
               = {| candidates :=
                      map (fun item =>
                             new_candidate item "exact_symbol" "high"
                               (Some (strip (upper symbol))) None) (e :: es);
                    log := [("exact_symbol(" ++ strip (upper symbol) ++ "): "
                               ++ str_of_nat (S (List.length es))
                               ++ " found")%string];
                    calls := trace ++ [lookup_request (strip (upper symbol))]
                 |}).
  { pose proof (map_lookup_trace transport client (strip (upper symbol))
                  trace) as Ht.
    unfold exact_symbol. simpl. rewrite Hs. simpl in Hcall.
    rewrite Hcall in *. rewrite Hdata. simpl in *. now subst trace'. }
  rewrite H1.
  unfold symbol_variation, slug_from_name, fuzzy_name. simpl.
  now rewrite !andb_false_r.
Qed.

End Gating.

Section GatingResult.

Variable transport : Trace -> Request -> Outcome.
Variable environ : Environ.

(** X6.  When the lookup of the normalized symbol returns entries and no
    homepage is given, that lookup is the only request of the call: no
    variation, slug or fuzzy lookup is made, whatever the name.  The result
    counts the returned entries, lists the first ten of them in the order
    of the reply as exact-symbol candidates of high confidence, and its log
    has the one entry of the strategy. *)
Theorem exact_symbol_hit_is_final (name homepage : option string)
    (symbol : string) (world : World) (client : Client)
    (slot : option Client) (trace' : Trace) (result : Envelope) (e : Entry)
    (es : list Entry) :
  truthy symbol = true ->
  truthy_opt homepage = false ->
  _get_client environ (_client world) = (Ok client, slot) ->
  map_lookup transport client (strip (upper symbol)) (requests world)
  = (Ok result, trace') ->
  data result = Some (DataList (e :: es)) ->
  let tagged :=
    map (fun item =>
           new_candidate item "exact_symbol" "high"
                         (Some (strip (upper symbol))) None) (e :: es) in
  exists r world',
    search_cryptocurrency transport environ name (Some symbol) homepage world
    = (Ok r, world')
    /\ requests world'
       = requests world ++ [lookup_request (strip (upper symbol))]
    /\ match_count r = S (List.length es)
    /\ all_matches r = firstn 10 tagged
    /\ best_match r = hd_error tagged
    /\ search_log r
       = [("exact_symbol(" ++ strip (upper symbol) ++ "): "
             ++ str_of_nat (S (List.length es)) ++ " found")%string].
Proof.
  intros Hs Hh Hclient Hcall Hdata tagged.
  unfold search_cryptocurrency. rewrite truthy_or_else. simpl truthy_opt.
  rewrite Hs, orb_true_r, Hclient. simpl negb. cbv iota.
  unfold run_strategies.
  rewrite (homepage_verification_skipped transport client homepage _ Hh).
  change (fuzzy_name _ _ _ _)
    with (lookup_strategies transport client name (Some symbol)
                            (requests world)).
  rewrite (exact_hit_stops_lookups transport client name symbol
             (requests world) trace' result e es Hs Hcall Hdata).
  fold tagged. cbn [candidates log calls].
  eexists. eexists. split; [reflexivity|].
  unfold make_result. cbv zeta.
  rewrite (list_sort_one_key confidence_key 1%Z tagged).
  - cbn [requests match_count all_matches best_match search_log].
    repeat split; try reflexivity.
    unfold tagged. now rewrite length_map.
  - unfold tagged. rewrite Forall_map, Forall_forall. reflexivity.
Qed.

End GatingResult.

Lemma exact_symbol_hit_is_final_witness :
  exists r world',
    search_cryptocurrency sample_transport sample_environ (Some "Bitcoin")
                          (Some " btc ") None sample_world
    = (Ok r, world')
    /\ requests world' = [lookup_request "BTC"]
    /\ match_count r = 1.
Proof.
  destruct (exact_symbol_hit_is_final sample_transport sample_environ
              (Some "Bitcoin") None " btc " sample_world sample_client
              (Some sample_client) _ _ bitcoin []
              eq_refl eq_refl eq_refl eq_refl eq_refl)
    as (r & world' & H & Hr & Hm & _).
  exists r, world'. auto.
Defined.

(* ================================================================== *)
(** * The requests of a search *)
(* ================================================================== *)

Lemma sends_refl (run run' : Run) (n : nat) :
  calls run' = calls run -> sends n run run'.
Proof. intros H. exists []. rewrite app_nil_r. simpl. split; [exact H | lia]. Qed.

Lemma sends_trans (n m : nat) (run1 run2 run3 : Run) :
  sends n run1 run2 -> sends m run2 run3 -> sends (n + m) run1 run3.
Proof.
  intros (made1 & H1 & L1) (made2 & H2 & L2). exists (made1 ++ made2).
  split; [now rewrite H2, H1, app_assoc | rewrite length_app; lia].
Qed.

Lemma app_cons_neq {A : Type} (l m : list A) (x : A) : l ++ x :: m <> l.
Proof.
  intros H. apply (f_equal (@List.length A)) in H.
  rewrite length_app in H. simpl in H. lia.
Qed.

Lemma lookup_request_symbol (symbol : string) :
  has_param "symbol" (lookup_request symbol) = truthy symbol.
Proof.
  unfold has_param, lookup_request, set_if. simpl.
  destruct (truthy symbol); reflexivity.
Qed.

Section SearchRequests.

Variable transport : Trace -> Request -> Outcome.
Variable client : Client.

Lemma request_sends_one (method path : string)
    (params : list (string * param)) (run run' : Run)
    (outcome : result Envelope) :
  _request transport client method path params (calls run)
  = (outcome, calls run') ->
  sends 1 run run'.
Proof.
  intros H.
  pose proof (request_trace transport client method path params (calls run))
    as Ht.
  rewrite H in Ht. simpl in Ht. eexists. split; [exact Ht | simpl; lia].
Qed.

(** The lookups of the loop of strategy 2: a prefix of the variants that are
    not skipped, in their order; the whole of them when the loop leaves the
    candidates as they were. *)
Lemma try_variations_prefix (symbol : string) (variations : list string)
    (run : Run) :
  exists tried rest,
    filter (fun v => negb (v =? upper symbol)) variations = tried ++ rest
    /\ calls (try_variations transport client symbol variations run)
       = calls run ++ map lookup_request tried
    /\ (candidates (try_variations transport client symbol variations run)
        = candidates run -> rest = []).
Proof.
  revert run. induction variations as [|variant rest IH]; intros run.
  - exists [], []. simpl. now rewrite app_nil_r.
  - assert (Hnext : forall run',
               calls run' = calls run ++ [lookup_request variant] ->
               candidates run' = candidates run ->
               exists tried rest0,
                 variant :: filter (fun v => negb (v =? upper symbol)) rest
                 = tried ++ rest0
                 /\ calls (try_variations transport client symbol rest run')
                    = calls run ++ map lookup_request tried
                 /\ (candidates
                       (try_variations transport client symbol rest run')
                     = candidates run -> rest0 = [])).
    { intros run' Hcalls Hcands.
      destruct (IH run') as (tried & rest0 & Hf & Hc & Hall).
      exists (variant :: tried), rest0. split; [simpl; now rewrite Hf|].
      split; [rewrite Hc, Hcalls; simpl; now rewrite <- app_assoc|].
      rewrite <- Hcands. exact Hall. }
    simpl. destruct (variant =? upper symbol) eqn:Heq; simpl; [apply IH|].
    pose proof (map_lookup_trace transport client variant (calls run))
      as Htrace.
    destruct (map_lookup transport client variant (calls run))
      as [[result|e] trace]; simpl in Htrace; subst trace.
    + destruct (get_or (data result) (DataList [])) as [[|e es]|[|kv d]];
        try (apply Hnext; reflexivity).
      exists [variant], (filter (fun v => negb (v =? upper symbol)) rest).
      simpl. repeat split; auto.
      intros H. now apply app_cons_neq in H.
    + apply Hnext; reflexivity.
Qed.

Lemma exact_symbol_sends (symbol : option string) (run : Run) :
  sends 1 run (exact_symbol transport client symbol run).
Proof.
  destruct symbol as [s|]; [|now apply sends_refl].
  destruct (truthy s) eqn:Hs.
  - exists [lookup_request (strip (upper s))].
    split; [now apply exact_symbol_calls | simpl; lia].
  - apply sends_refl. unfold exact_symbol. simpl. now rewrite Hs.
Qed.

Lemma symbol_variation_sends (symbol : option string) (run : Run) :
  sends (List.length (_generate_symbol_variations (get_or symbol "")))
        run (symbol_variation transport client symbol run).
Proof.
  unfold symbol_variation. destruct (_ && _); [|now apply sends_refl].
  destruct (try_variations_prefix (get_or symbol "")
              (_generate_symbol_variations (get_or symbol "")) run)
    as (tried & rest & Hf & Hc & _).
  exists (map lookup_request tried). split; [exact Hc|].
  rewrite length_map.
  pose proof (filter_length_le
                (fun v => negb (v =? upper (get_or symbol "")))
                (_generate_symbol_variations (get_or symbol ""))) as Hle.
  rewrite Hf, length_app in Hle. lia.
Qed.

Lemma info_sends_one (id symbol slug address : option string) (run run' : Run)
    (outcome : result Envelope) :
  get_cryptocurrency_info transport client id symbol slug address (calls run)
  = (outcome, calls run') ->
  sends 1 run run'.
Proof.
  unfold get_cryptocurrency_info.
  destruct (set_if "address" _ _) as [|kv params].
  - intros H. injection H as _ H. now apply sends_refl.
  - apply request_sends_one.
Qed.

Lemma slug_from_name_sends (name : option string) (run : Run) :
  sends 1 run (slug_from_name transport client name run).
Proof.
  unfold slug_from_name. destruct (_ && _); [|now apply sends_refl].
  destruct (get_cryptocurrency_info _ _ _ _ _ _ _) as [[result|e] trace]
    eqn:E.
  - destruct (get_or (data result) (DataDict [])) as [[|x l]|[|x d]];
      eapply info_sends_one; exact E.
  - eapply info_sends_one. exact E.
Qed.

Lemma fuzzy_name_sends (name : option string) (run : Run) :
  sends 1 run (fuzzy_name transport client name run).
Proof.
  unfold fuzzy_name. destruct (_ && _); [|now apply sends_refl].
  unfold _fuzzy_search_by_name, get_cryptocurrency_map.
  destruct (_request _ _ _ _ _ (calls run)) as [[result|e] trace] eqn:E.
  - destruct (get_or (data result) (DataList [])) as [data|d].
    + cbv zeta. destruct (firstn 5 _); eapply request_sends_one; exact E.
    + eapply request_sends_one. exact E.
  - eapply request_sends_one. exact E.
Qed.

Lemma homepage_verification_sends (homepage : option string) (run : Run) :
  sends 1 run (homepage_verification transport client homepage run).
Proof.
  unfold homepage_verification. destruct (_ && _); [|now apply sends_refl].
  unfold _verify_candidates_by_homepage.
  destruct (map _ (firstn 10 (candidates run))) as [|cid cids];
    [now apply sends_refl|].
  destruct (get_cryptocurrency_info _ _ _ _ _ _ _) as [[result|e] trace]
    eqn:E.
  - destruct (get_or (data result) (DataDict [])) as [l|d];
      eapply info_sends_one; exact E.
  - eapply info_sends_one. exact E.
Qed.

Lemma run_strategies_sends (name symbol homepage : option string)
    (trace : Trace) :
  exists made,
    calls (run_strategies transport client name symbol homepage trace)
    = trace ++ made
    /\ List.length made
       <= 4 + List.length (_generate_symbol_variations (get_or symbol "")).
Proof.
  unfold run_strategies.
  set (r0 := {| candidates := []; log := []; calls := trace |}).
  pose proof (sends_trans _ _ _ _ _
                (sends_trans _ _ _ _ _
                   (sends_trans _ _ _ _ _
                      (sends_trans _ _ _ _ _
                         (exact_symbol_sends symbol r0)
                         (symbol_variation_sends symbol _))
                      (slug_from_name_sends name _))
                   (fuzzy_name_sends name _))
                (homepage_verification_sends homepage _))
    as (made & Hc & Hl).
  exists made. split; [exact Hc | lia].
Qed.

(** After the exact lookup the strategies only add requests. *)
Lemma run_strategies_first_request (name homepage : option string)
    (symbol : string) (trace : Trace) :
  truthy symbol = true ->
  exists later,
    calls (run_strategies transport client name (Some symbol) homepage trace)
    = trace ++ lookup_request (strip (upper symbol)) :: later.
Proof.
  intros Hs. unfold run_strategies.
  set (r0 := {| candidates := []; log := []; calls := trace |}).
  pose proof (sends_trans _ _ _ _ _
                (sends_trans _ _ _ _ _
                   (sends_trans _ _ _ _ _
                      (symbol_variation_sends (Some symbol)
                         (exact_symbol transport client (Some symbol) r0))
                      (slug_from_name_sends name _))
                   (fuzzy_name_sends name _))
                (homepage_verification_sends homepage _))
    as (made & Hc & _).
  exists made. rewrite Hc, exact_symbol_calls by exact Hs.
  simpl. now rewrite <- app_assoc.
Qed.

End SearchRequests.

Lemma rule_a_length (s : string) : List.length (rule_a s) <= 2.
Proof.
  unfold rule_a, expansions. simpl.
  repeat match goal with
         | |- context [if ?b then _ else _] => destruct b
         end; simpl; lia.
Qed.

Lemma rule_b_length (s : string) : List.length (rule_b s) <= 7.
Proof.
  unfold rule_b, suffixes. simpl.
  repeat match goal with
         | |- context [if ?b then _ else _] => destruct b
         end; simpl; lia.
Qed.

(** The rules give at most fourteen variations. *)
Lemma generate_symbol_variations_length (symbol : string) :
  List.length (_generate_symbol_variations symbol) <= 14.
Proof.
  rewrite generate_symbol_variations_rules. cbv zeta.
  rewrite !length_app.
  pose proof (rule_a_length (strip (upper symbol))).
  pose proof (rule_b_length (strip (upper symbol))).
  unfold rule_c, rule_d, rule_e, rule_f.
  repeat match goal with
         | |- context [if ?b then _ else _] => destruct b
         end; simpl; lia.
Qed.

Section SearchRequestsResult.

Variable transport : Trace -> Request -> Outcome.
Variable environ : Environ.

(** X7.  A call sends its requests one after the other and none twice for
    the same step: at most one for the exact symbol, one for each generated
    variation, one for the slug, one for the fuzzy match and one for the
    verification; never more than eighteen in all. *)
Theorem search_sends_bounded_requests (name symbol homepage : option string)
    (world world' : World) (r : SearchResult) :
  search_cryptocurrency transport environ name symbol homepage world
  = (Ok r, world') ->
  exists made,
    requests world' = requests world ++ made
    /\ List.length made
       <= 4 + List.length (_generate_symbol_variations (get_or symbol ""))
    /\ List.length made <= 18.
Proof.
  intros H. apply search_returns in H as (client & slot & _ & _ & ->).
  destruct (run_strategies_sends transport client name symbol homepage
              (requests world)) as (made & Hc & Hl).
  exists made. split; [exact Hc|]. split; [exact Hl|].
  pose proof (generate_symbol_variations_length (get_or symbol "")). lia.
Qed.

(** X8.  With a non-empty symbol the first request of a call is the map
    lookup of the normalized symbol.  That request carries a symbol filter
    exactly when the normalized symbol is not empty: for a symbol of
    whitespace only it asks for the unfiltered listing. *)
Theorem first_request_is_exact_lookup (name homepage : option string)
    (symbol : string) (world world' : World) (r : SearchResult) :
  truthy symbol = true ->
  search_cryptocurrency transport environ name (Some symbol) homepage world
  = (Ok r, world') ->
  exists later,
    requests world'
    = requests world ++ lookup_request (strip (upper symbol)) :: later
    /\ has_param "symbol" (lookup_request (strip (upper symbol)))
       = truthy (strip (upper symbol)).
Proof.
  intros Hs H. apply search_returns in H as (client & slot & _ & _ & ->).
  destruct (run_strategies_first_request transport client name homepage
              symbol (requests world) Hs) as (later & Hc).
  exists later. split; [exact Hc | apply lookup_request_symbol].
Qed.

End SearchRequestsResult.

Lemma search_sends_bounded_requests_witness :
  exists r world',
    search_cryptocurrency empty_catalog sample_environ (Some "Render Token")
                          (Some "RNDR") None sample_world = (Ok r, world')
    /\ exists made,
         requests world' = requests sample_world ++ made
         /\ List.length made
            <= 4 + List.length (_generate_symbol_variations "RNDR")
         /\ List.length made <= 18.
Proof.
  by_running (search_sends_bounded_requests empty_catalog sample_environ
                (Some "Render Token") (Some "RNDR") None sample_world).
Defined.

Lemma first_request_is_exact_lookup_witness :
  truthy " " = true
  /\ strip (upper " ") = EmptyString
  /\ exists r world',
       search_cryptocurrency sample_transport sample_environ None (Some " ")
                             None sample_world = (Ok r, world')
       /\ exists later,
            requests world'
            = requests sample_world
              ++ lookup_request (strip (upper " ")) :: later
            /\ has_param "symbol" (lookup_request (strip (upper " ")))
               = truthy (strip (upper " ")).
Proof.
  split; [reflexivity|]. split; [reflexivity|].
  eexists. eexists. split; [vm_compute; reflexivity|].
  eapply (first_request_is_exact_lookup sample_transport sample_environ None
            None " " sample_world); [reflexivity | vm_compute; reflexivity].
Defined.

(** X9.  Entered with a non-empty symbol and no candidate, strategy 2 looks
    up the generated variants other than [symbol.upper()] in their order,
    each once, and stops after the first that gives candidates: the
    lookups are a prefix of those variants, and all of them when the
    strategy ends without a candidate. *)
Theorem variation_lookups_in_order
    (transport : Trace -> Request -> Outcome) (client : Client)
    (symbol : string) (run : Run) :
  truthy symbol = true ->
  candidates run = [] ->
  let run' := symbol_variation transport client (Some symbol) run in
  exists tried rest,
    unskipped symbol = tried ++ rest
    /\ calls run' = calls run ++ map lookup_request tried
    /\ (candidates run' = [] -> rest = []).
Proof.
  intros Hs Hc. unfold symbol_variation. simpl. rewrite Hs, Hc. simpl.
  destruct (try_variations_prefix transport client symbol
              (_generate_symbol_variations symbol) run)
    as (tried & rest & Hf & Hcalls & Hall).
  exists tried, rest. rewrite Hc in Hall. auto.
Qed.

Lemma variation_lookups_in_order_witness :
  let run := {| candidates := []; log := []; calls := [] |} in
  exists tried rest,
    unskipped "MATIC" = tried ++ rest
    /\ calls (symbol_variation sample_transport sample_client (Some "MATIC")
                               run)
       = calls run ++ map lookup_request tried.
Proof.
  intros run.
  destruct (variation_lookups_in_order sample_transport sample_client
              "MATIC" run eq_refl eq_refl) as (tried & rest & H1 & H2 & _).
  exists tried, rest. auto.
Defined.

(* ================================================================== *)
(** * The pure helpers: shapes of their results *)
(* ================================================================== *)

(** X10.  A derived slug consists of lower-case letters, digits and hyphens
    only; it neither starts nor ends with a hyphen and has no two hyphens
    in a row. *)
Theorem name_to_slug_shape (name : string) :
  let slug := _name_to_slug name in
  all_chars slug_letter slug = true
  /\ no_adjacent is_hyphen slug = true
  /\ starts_in is_hyphen slug = false
  /\ last_is is_hyphen slug = false.
Proof.
  pose proof (name_to_slug_is_slug name) as H. unfold is_slug in H.
  apply andb_true_iff in H as [H H4]. apply andb_true_iff in H as [H H3].
  apply andb_true_iff in H as [H1 H2].
  apply negb_true_iff in H3, H4. cbv zeta. auto.
Qed.

Lemma lowered_lower_char (c : ascii) : lowered (lower_char c) = true.
Proof. by_char c. Qed.

Lemma upper_char_fixed (c : ascii) : all_chars upper_fixed (upper_char c) = true.
Proof. by_char c. Qed.

Lemma upper_fixed_char (c : ascii) :
  upper_fixed c = true -> upper_char c = String c EmptyString.
Proof. unfold upper_fixed. apply String.eqb_eq. Qed.

Lemma all_chars_app (p : ascii -> bool) (a b : string) :
  all_chars p (a ++ b) = all_chars p a && all_chars p b.
Proof.
  induction a as [|c a IH]; simpl; [reflexivity|].
  now rewrite IH, andb_assoc.
Qed.

Lemma all_lowered_lower (s : string) : all_chars lowered (lower s) = true.
Proof.
  induction s as [|c s IH]; simpl; [reflexivity|].
  now rewrite lowered_lower_char, IH.
Qed.

Lemma lower_fixed (s : string) : all_chars lowered s = true -> lower s = s.
Proof.
  induction s as [|c s IH]; simpl; [reflexivity|].
  intros H. apply andb_true_iff in H as [Hc H].
  apply Ascii.eqb_eq in Hc. now rewrite Hc, IH.
Qed.

Lemma all_upper_fixed_upper (s : string) :
  all_chars upper_fixed (upper s) = true.
Proof.
  induction s as [|c s IH]; simpl; [reflexivity|].
  now rewrite all_chars_app, upper_char_fixed, IH.
Qed.

Lemma upper_fixed_id (s : string) :
  all_chars upper_fixed s = true -> upper s = s.
Proof.
  induction s as [|c s IH]; simpl; [reflexivity|].
  intros H. apply andb_true_iff in H as [Hc H].
  now rewrite (upper_fixed_char c Hc), IH.
Qed.

Lemma substring_all (s : string) : substring 0 (String.length s) s = s.
Proof. induction s as [|c s IH]; simpl; [reflexivity | now rewrite IH]. Qed.

Lemma drop_0 (s : string) : drop 0 s = s.
Proof. unfold drop. rewrite Nat.sub_0_r. apply substring_all. Qed.

Lemma drop_cons (n : nat) (c : ascii) (s : string) :
  drop (S n) (String c s) = drop n s.
Proof. reflexivity. Qed.

Lemma drop_empty (n : nat) : drop n EmptyString = EmptyString.
Proof. destruct n; reflexivity. Qed.

Lemma all_chars_drop (p : ascii -> bool) (n : nat) (s : string) :
  all_chars p s = true -> all_chars p (drop n s) = true.
Proof.
  revert n. induction s as [|c s IH]; intros n H.
  - now rewrite drop_empty.
  - destruct n as [|n]; [now rewrite drop_0|].
    rewrite drop_cons. simpl in H. apply andb_true_iff in H as [_ H]. auto.
Qed.

Lemma last_is_cons (p : ascii -> bool) (c : ascii) (s : string) :
  s <> EmptyString -> last_is p (String c s) = last_is p s.
Proof. unfold last_is. destruct s; [congruence | reflexivity]. Qed.

Lemma last_is_drop (p : ascii -> bool) (n : nat) (s : string) :
  last_is p s = false -> last_is p (drop n s) = false.
Proof.
  revert n. induction s as [|c s IH]; intros n H.
  - now rewrite drop_empty.
  - destruct n as [|n]; [now rewrite drop_0|].
    rewrite drop_cons. destruct s as [|c' s'].
    + now rewrite drop_empty.
    + apply IH. rewrite last_is_cons in H by discriminate. exact H.
Qed.

(** X11.  A normalized URL is in lower case and does not end with a slash,
    whatever the input. *)
Theorem normalize_url_shape (url : string) :
  lower (_normalize_url url) = _normalize_url url
  /\ last_is is_slash (_normalize_url url) = false.
Proof.
  unfold _normalize_url. cbv zeta.
  set (u := rstrip is_slash (strip (lower url))).
  assert (Hl : all_chars lowered u = true).
  { unfold u, strip, strip_chars.
    apply all_chars_rstrip, all_chars_rstrip, all_chars_lstrip,
      all_lowered_lower. }
  assert (Hs : last_is is_slash u = false) by apply last_is_rstrip.
  assert (Hstep : forall pre v,
             all_chars lowered v = true /\ last_is is_slash v = false ->
             all_chars lowered (remove_prefix pre v) = true
             /\ last_is is_slash (remove_prefix pre v) = false).
  { intros pre v [H1 H2]. unfold remove_prefix.
    destruct (startswith v pre); [|auto].
    split; [now apply all_chars_drop | now apply last_is_drop]. }
  simpl fold_left.
  destruct (Hstep "www." _ (Hstep "http://" _ (Hstep "https://" u
                                                 (conj Hl Hs)))) as [H1 H2].
  split; [now apply lower_fixed | exact H2].
Qed.

Lemma before_outside (sep : ascii -> bool) (s : string) :
  all_chars (fun c => negb (sep c)) (before sep s) = true.
Proof.
  induction s as [|c s IH]; simpl; [reflexivity|].
  destruct (sep c) eqn:E; simpl; [reflexivity | now rewrite E, IH].
Qed.

Lemma all_chars_before (p sep : ascii -> bool) (s : string) :
  all_chars p s = true -> all_chars p (before sep s) = true.
Proof.
  induction s as [|c s IH]; simpl; [reflexivity|].
  intros H. apply andb_true_iff in H as [Hc H].
  destruct (sep c); simpl; [reflexivity | now rewrite Hc, IH].
Qed.

Lemma all_chars_and (p q : ascii -> bool) (s : string) :
  all_chars p s = true -> all_chars q s = true ->
  all_chars (fun c => p c && q c) s = true.
Proof.
  induction s as [|c s IH]; simpl; [reflexivity|].
  intros Hp Hq. apply andb_true_iff in Hp as [-> Hp].
  apply andb_true_iff in Hq as [-> Hq]. now rewrite IH.
Qed.

(** X12.  An extracted domain holds neither a slash nor a colon, and URLs
    with equal normalized forms have equal domains: a website that matches
    the homepage exactly also matches it by domain. *)
Theorem extract_domain_shape (url : string) :
  all_chars host_char (_extract_domain url) = true
  /\ forall other,
       _normalize_url other = _normalize_url url ->
       _extract_domain other = _extract_domain url.
Proof.
  split.
  - unfold _extract_domain, host_char. cbv zeta.
    apply all_chars_and; [|apply before_outside].
    apply all_chars_before, before_outside.
  - intros other H. unfold _extract_domain. now rewrite H.
Qed.

(* ------------------------------------------------------------------ *)
(** ** Symbol variations and the normalized symbol *)

Lemma strip_strip (s : string) : strip (strip s) = strip s.
Proof.
  unfold strip, strip_chars.
  rewrite (lstrip_none isspace (rstrip isspace (lstrip isspace s)))
    by apply starts_in_rstrip, starts_in_lstrip.
  apply rstrip_none, last_is_rstrip.
Qed.

Lemma normalized_fixed (symbol : string) :
  strip (upper (strip (upper symbol))) = strip (upper symbol).
Proof.
  rewrite (upper_fixed_id (strip (upper symbol))); [apply strip_strip|].
  unfold strip, strip_chars.
  apply all_chars_rstrip, all_chars_lstrip, all_upper_fixed_upper.
Qed.

(** X13.  The variations depend on the symbol through its upper-cased,
    trimmed form only: a symbol and its normalized form have the same
    variations, and so have two symbols that differ in case or in padding. *)
Theorem variations_of_normalized_symbol (symbol : string) :
  _generate_symbol_variations (strip (upper symbol))
  = _generate_symbol_variations symbol
  /\ forall other,
       strip (upper other) = strip (upper symbol) ->
       _generate_symbol_variations other = _generate_symbol_variations symbol.
Proof.
  split.
  - rewrite !generate_symbol_variations_rules. cbv zeta.
    now rewrite normalized_fixed.
  - intros other H. rewrite !generate_symbol_variations_rules. cbv zeta.
    now rewrite H.
Qed.

Lemma length_append (a b : string) :
  String.length (a ++ b) = String.length a + String.length b.
Proof. induction a as [|c a IH]; simpl; [reflexivity | now rewrite IH]. Qed.

Lemma length_take (n : nat) (s : string) :
  n <= String.length s -> String.length (take n s) = n.
Proof.
  unfold take. revert n. induction s as [|c s IH]; intros [|n] H; simpl in *;
    try reflexivity; try lia.
  rewrite IH by lia. reflexivity.
Qed.

Lemma rule_a_other (s : string) : ~ In s (rule_a s).
Proof.
  unfold rule_a, expansions. simpl.
  repeat match goal with
         | |- context [if ?x =? ?k then _ else _] =>
             destruct (String.eqb_spec x k); [subst; simpl; intuition discriminate|]
         end.
  simpl. tauto.
Qed.

Lemma rule_b_other (s : string) : ~ In s (rule_b s).
Proof.
  unfold rule_b. intros H. apply in_flat_map in H as (suffix & Hin & H).
  destruct (endswith s suffix) eqn:He; [|destruct H].
  destruct (Nat.ltb_spec (String.length suffix) (String.length s)) as [Hl|Hl];
    [|destruct H].
  simpl in H. destruct H as [H|[]].
  apply (f_equal String.length) in H. rewrite length_take in H by lia.
  assert (0 < String.length suffix)
    by (simpl in Hin; repeat destruct Hin as [<-|Hin]; simpl; try lia;
        destruct Hin).
  lia.
Qed.

Lemma longer_other (s extra : string) :
  0 < String.length extra -> s <> (s ++ extra)%string.
Proof.
  intros He H. apply (f_equal String.length) in H.
  rewrite length_append in H. lia.
Qed.

(** X14.  The normalized symbol is among its own variations exactly when
    its last character is a digit other than [0-9] (a superscript digit):
    only then has the comparison that skips a variant anything to skip. *)
Theorem normalized_symbol_among_variations (symbol : string) :
  let normalized := strip (upper symbol) in
  In normalized (_generate_symbol_variations symbol)
  <-> last_is other_digit normalized = true.
Proof.
  cbv zeta. rewrite generate_symbol_variations_rules. cbv zeta.
  set (s := strip (upper symbol)).
  assert (Hlast : last_is other_digit s
                  = last_is isdigit s && negb (last_is is_09 s)).
  { unfold last_is, other_digit. destruct (last_char s); reflexivity. }
  split.
  - intros H.
    apply in_app_or in H as [H|H]; [|
    apply (in_app_or (rule_b s)) in H as [H|H]; [|
    apply (in_app_or (rule_c s)) in H as [H|H]; [|
    apply (in_app_or (rule_d s)) in H as [H|H]; [|
    apply (in_app_or (rule_e s)) in H as [H|H]]]]].
    + now apply rule_a_other in H.
    + now apply rule_b_other in H.
    + unfold rule_c in H. destruct (_ <=? 4)%nat; [|destruct H].
      destruct H as [H|[H|[]]]; symmetry in H;
        apply longer_other in H; simpl; try lia; contradiction.
    + unfold rule_d in H.
      destruct (truthy s && last_is isdigit s) eqn:E; [|destruct H].
      destruct H as [H|[]]. apply andb_true_iff in E as [_ E].
      rewrite Hlast, E. simpl.
      pose proof (last_is_rstrip is_09 s) as Hr. rewrite H in Hr.
      now rewrite Hr.
    + unfold rule_e in H.
      destruct (Nat.leb_spec 3 (String.length s)) as [Hl|Hl]; [|destruct H].
      destruct (endswith s "R"); [|destruct H].
      destruct H as [H|[]]. apply (f_equal String.length) in H.
      rewrite length_append, length_take in H by lia. simpl in H. lia.
    + unfold rule_f in H.
      destruct ((3 <=? String.length s)%nat && endswith s "N");
        [|destruct H].
      destruct H as [H|[]]. symmetry in H.
      apply longer_other in H; simpl; try lia; contradiction.
  - intros H. rewrite Hlast in H. apply andb_true_iff in H as [Hd H9].
    apply negb_true_iff in H9.
    apply in_or_app. right. apply in_or_app. right.
    apply in_or_app. right. apply in_or_app. left.
    unfold rule_d.
    assert (Ht : truthy s = true).
    { destruct s; [discriminate Hd | reflexivity]. }
    rewrite Ht, Hd. simpl. left. now apply rstrip_none.
Qed.

(* ================================================================== *)
(** * The catalog client: identifying parameters *)
(* ================================================================== *)

Lemma set_if_supplied (key : string) (value : option string)
    (params : list (string * param)) :
  set_if key value params = params ++ supplied [(key, value)].
Proof.
  unfold set_if, supplied. simpl.
  destruct (truthy_opt value); simpl; [reflexivity | now rewrite app_nil_r].
Qed.

Lemma supplied_app (a b : list (string * option string)) :
  supplied (a ++ b) = supplied a ++ supplied b.
Proof. unfold supplied. now rewrite filter_app, map_app. Qed.

Lemma supplied_nil_iff (arguments : list (string * option string)) :
  supplied arguments = []
  <-> forall key value, In (key, value) arguments -> truthy_opt value = false.
Proof.
  unfold supplied. induction arguments as [|[k v] l IH]; simpl.
  - split; [intros _ key value [] | reflexivity].
  - destruct (truthy_opt v) eqn:E; simpl.
    + split; [discriminate|]. intros H.
      specialize (H k v (or_introl eq_refl)). congruence.
    + rewrite IH. split.
      * intros H key value [Heq|Hin]; [congruence | eauto].
      * intros H key value Hin. eauto.
Qed.

Section ClientParameters.

Variable transport : Trace -> Request -> Outcome.
Variable self : Client.

(** X15.  [get_cryptocurrency_info] raises the argument error, without a
    request, exactly when none of id, symbol, slug and address is a
    non-empty string; otherwise it sends one request to the info endpoint
    whose parameters are the supplied ones, in that order, and returns what
    the request step returns. *)
Theorem info_needs_an_identifier (id symbol slug address : option string)
    (trace : Trace) :
  let arguments :=
    [("id", id); ("symbol", symbol); ("slug", slug); ("address", address)] in
  let call :=
    get_cryptocurrency_info transport self id symbol slug address trace in
  (supplied arguments = [] ->
   call
   = (Raise (ValueError
               "At least one of id, symbol, slug, or address is required"),
      trace))
  /\ (supplied arguments <> [] ->
      call = _request transport self "GET" "/v2/cryptocurrency/info"
                      (supplied arguments) trace
      /\ snd call
         = trace ++ [ {| method := "GET"; path := "/v2/cryptocurrency/info";
                         params := supplied arguments |} ]).
Proof.
  cbv zeta. unfold get_cryptocurrency_info. cbv zeta.
  rewrite !set_if_supplied, app_nil_l, <- !supplied_app. simpl app.
  destruct (supplied _) as [|kv params].
  - split; [reflexivity | congruence].
  - split; [discriminate|]. intros _. split; [reflexivity|].
    apply request_trace.
Qed.

(** X16.  [get_cryptocurrency_quotes_latest] raises the argument error,
    without a request, exactly when none of id, symbol and slug is a
    non-empty string, although its parameters always hold the conversion
    currency; otherwise it sends one request to the quotes endpoint with
    the currency followed by the supplied identifiers. *)
Theorem quotes_need_an_identifier (id symbol slug : option string)
    (convert : string) (trace : Trace) :
  let arguments := [("id", id); ("symbol", symbol); ("slug", slug)] in
  let call :=
    get_cryptocurrency_quotes_latest transport self id symbol slug convert
                                     trace in
  (supplied arguments = [] ->
   call
   = (Raise (ValueError "At least one of id, symbol, or slug is required"),
      trace))
  /\ (supplied arguments <> [] ->
      snd call
      = trace
        ++ [ {| method := "GET"; path := "/v2/cryptocurrency/quotes/latest";
                params := ("convert", PStr convert) :: supplied arguments |} ]).
Proof.
  cbv zeta. unfold get_cryptocurrency_quotes_latest. cbv zeta.
  rewrite !set_if_supplied, <- !app_assoc, <- !supplied_app. simpl app.
  rewrite !truthy_or_else.
  unfold supplied. simpl.
  destruct (truthy_opt id), (truthy_opt symbol), (truthy_opt slug); simpl;
    (split; [try discriminate; reflexivity
            | intros H; try congruence; apply request_trace]).
Qed.

End ClientParameters.

(* ================================================================== *)
(** * The process-wide client *)
(* ================================================================== *)

(** X17.  Once [_get_client] has returned a client, the global holds it and
    every later call returns the same client and leaves the global as it
    is, whatever the environment then holds; a call that raises leaves the
    global empty. *)
Theorem get_client_is_cached (environ : Environ) (slot slot' : option Client)
    (outcome : result Client) :
  _get_client environ slot = (outcome, slot') ->
  match outcome with
  | Ok client =>
      slot' = Some client
      /\ forall environ', _get_client environ' slot' = (Ok client, slot')
  | Raise _ => slot = None /\ slot' = None
  end.
Proof.
  unfold _get_client. destruct slot as [client|].
  - intros H. injection H as <- <-. auto.
  - destruct (negb _); intros H; injection H as <- <-; auto.
Qed.

Lemma get_client_is_cached_witness :
  _get_client sample_environ None = (Ok sample_client, Some sample_client)
  /\ (Some sample_client = Some sample_client
      /\ forall environ',
           _get_client environ' (Some sample_client)
           = (Ok sample_client, Some sample_client)).
Proof.
  split; [reflexivity|].
  apply (get_client_is_cached sample_environ None (Some sample_client)
           (Ok sample_client) eq_refl).
Defined.

(* ================================================================== *)
(** * The fuzzy name match: scores *)
(* ================================================================== *)

Lemma round2_hundredths (x : Q) :
  (b64 (6 # 10) <= x)%Q -> (x <= 1)%Q -> hundredths (round2 x).
Proof.
  intros Hlow Hup. unfold hundredths, round2.
  exists (rne (x * 100)). split; [|reflexivity].
  assert (H0 : (0 <= b64 (6 # 10))%Q) by (vm_compute; discriminate).
  assert (H60 : rne (b64 (6 # 10) * 100) = 60%Z) by (vm_compute; reflexivity).
  assert (H100 : rne (1 * 100) = 100%Z) by (vm_compute; reflexivity).
  split.
  - apply (Z.le_trans _ (rne (b64 (6 # 10) * 100))); [now rewrite H60|].
    apply rne_monotone, Qmult_le_compat_r; [exact Hlow | discriminate].
  - apply (Z.le_trans _ (rne (1 * 100))); [|now rewrite H100].
    apply rne_monotone, Qmult_le_compat_r; [exact Hup | discriminate].
Qed.

(** The literals of the rules and the threshold, compared as floats. *)
Lemma threshold_nonneg : (0 <= b64 (6 # 10))%Q.
Proof. vm_compute. discriminate. Qed.

Lemma threshold_positive : ~ (b64 (6 # 10) <= 0)%Q.
Proof. vm_compute. congruence. Qed.

Lemma threshold_le_exact : (b64 (6 # 10) <= 1)%Q.
Proof. vm_compute. discriminate. Qed.

Lemma threshold_le_contains : (b64 (6 # 10) <= b64 (9 # 10))%Q.
Proof. vm_compute. discriminate. Qed.

Lemma threshold_le_reverse : (b64 (6 # 10) <= b64 (85 # 100))%Q.
Proof. vm_compute. discriminate. Qed.

Lemma reverse_le_contains : (b64 (85 # 100) <= b64 (9 # 10))%Q.
Proof. vm_compute. discriminate. Qed.

Lemma contains_lt_exact : (b64 (9 # 10) < 1)%Q.
Proof. vm_compute. reflexivity. Qed.

Lemma round2_exact : (round2 1 == 1)%Q.
Proof. vm_compute. reflexivity. Qed.

Lemma round2_threshold : (b64 (6 # 10) <= round2 (b64 (6 # 10)))%Q.
Proof. vm_compute. discriminate. Qed.

Lemma round2_contains : (round2 (b64 (9 # 10)) <= b64 (9 # 10))%Q.
Proof. vm_compute. discriminate. Qed.

Lemma overlap_score_low :
  (b64 (6 # 10) <= float_add (b64 (6 # 10)) (float_mul 0 (b64 (3 # 10))))%Q.
Proof. vm_compute. discriminate. Qed.

Lemma overlap_score_high :
  (float_add (b64 (6 # 10)) (float_mul 1 (b64 (3 # 10))) <= b64 (9 # 10))%Q.
Proof. vm_compute. discriminate. Qed.

Lemma overlap_score_range (k m : nat) :
  k <= m ->
  let score :=
    float_add (b64 (6 # 10)) (float_mul (int_div k m) (b64 (3 # 10))) in
  (b64 (6 # 10) <= score)%Q /\ (score <= b64 (9 # 10))%Q.
Proof.
  intros Hm score. unfold score.
  destruct (int_div_range k m Hm) as [H0 H1].
  destruct (scaled_sum_bounds (b64 (6 # 10)) (b64 (3 # 10)) (int_div k m)
              0 1) as [Hlow Hup];
    [apply b64_nonneg; discriminate | apply b64_nonneg; discriminate
    | apply Qle_refl | exact H0 | exact H1 |].
  split.
  - apply (Qle_trans _ _ _ overlap_score_low Hlow).
  - apply (Qle_trans _ _ _ Hup overlap_score_high).
Qed.

Lemma nonempty_length {A : Type} (l : list A) :
  nonempty l = true -> 1 <= List.length l.
Proof. destruct l; simpl; [discriminate | lia]. Qed.

Lemma inter_length (a b : list string) :
  List.length (inter a b) <= Nat.max (List.length a) (List.length b).
Proof.
  unfold inter. pose proof (filter_length_le (fun x => mem x b) a). lia.
Qed.

(** Every branch of lines 239-259 leaves no rule and 0, or a rule and a
    similarity it bounds. *)
Lemma similarity_of_well_scored (name_lower name_clean : string)
    (item : Entry) :
  well_scored (fst (similarity_of name_lower name_clean item))
              (snd (similarity_of name_lower name_clean item)).
Proof.
  unfold similarity_of.
  destruct (_ || _).
  { cbn [fst snd well_scored]. split; [simpl; auto|].
    split; [exact threshold_le_exact|]. left. split; reflexivity. }
  destruct (_ || _).
  { cbn [fst snd well_scored]. split; [simpl; auto|].
    split; [exact threshold_le_contains|]. right.
    split; [discriminate | apply Qle_refl]. }
  destruct (_ || _).
  { destruct (5 <=? _)%nat; cbn [fst snd well_scored]; [|reflexivity].
    split; [simpl; auto|]. split; [exact threshold_le_reverse|]. right.
    split; [discriminate | exact reverse_le_contains]. }
  destruct (nonempty (set_of (findall_words name_lower)) && _); [|reflexivity].
  destruct (nonempty (inter _ _)) eqn:Hover; [|reflexivity].
  cbn [fst snd well_scored].
  destruct (overlap_score_range _ _
              (inter_length (set_of (findall_words name_lower))
                 (set_of (findall_words (lower (entry_name item))))))
    as [Hlow Hup].
  split; [simpl; auto|]. split; [exact Hlow|]. right.
  split; [discriminate | exact Hup].
Qed.

Lemma well_scored_kept (similarity : Q) (match_type : option string) :
  well_scored similarity match_type ->
  (Qle_bool (b64 (6 # 10)) similarity = true <-> match_type <> None).
Proof.
  unfold well_scored. destruct match_type as [rule|].
  - intros (_ & Hlow & _). rewrite Qle_bool_iff.
    split; [discriminate | auto].
  - intros ->. rewrite Qle_bool_iff. split; [|congruence].
    intros H. now apply threshold_positive in H.
Qed.

(** X18.  The threshold of line 261 keeps an entry exactly when one of the
    four rules matched it: a matched rule scores between the floats 0.6
    and 1.0, 1.0 by the exact rule only and at most 0.9 by the others (the
    word-overlap score is computed in binary64 and stays in that range),
    and an entry no rule matched scores 0.0. *)
Theorem entry_kept_iff_rule_matched (name_lower name_clean : string)
    (item : Entry) :
  let similarity := fst (similarity_of name_lower name_clean item) in
  let match_type := snd (similarity_of name_lower name_clean item) in
  well_scored similarity match_type
  /\ (fuzzy_item name_lower name_clean [] item <> [] <-> match_type <> None)
  /\ (match_type = Some "exact" <-> (similarity == 1)%Q).
Proof.
  cbv zeta.
  pose proof (similarity_of_well_scored name_lower name_clean item) as Hws.
  pose proof (well_scored_kept _ _ Hws) as Hkept.
  split; [exact Hws|]. split.
  - unfold fuzzy_item.
    destruct (similarity_of name_lower name_clean item) as [s mt].
    cbn [fst snd] in *. rewrite <- Hkept.
    destruct (Qle_bool (b64 (6 # 10)) s); simpl;
      split; congruence.
  - destruct (similarity_of name_lower name_clean item) as [s mt].
    cbn [fst snd] in *. unfold well_scored in Hws.
    destruct mt as [rule|].
    + destruct Hws as (_ & _ & [[-> Hs] | [Hr Hs]]).
      * split; auto.
      * split; [congruence|]. intros H1.
        pose proof contains_lt_exact. exfalso. lra.
    + rewrite Hws. split; [discriminate|]. intros H. discriminate H.
Qed.

(* ================================================================== *)
(** * The fuzzy name match: the returned matches *)
(* ================================================================== *)

Section SortOrder.

Context {A K : Type}.
Variable key : A -> K.
Variable lt : K -> K -> bool.

Hypothesis lt_asym : forall a b, lt a b = true -> lt b a = false.
Hypothesis not_lt_trans :
  forall a b c, lt b a = false -> lt c b = false -> lt c a = false.

(** [x] is not behind [y]: the key of [y] is not smaller. *)
Let not_behind (x y : A) : Prop := lt (key y) (key x) = false.

Lemma insert_not_behind (x : A) (l : list A) :
  StronglySorted not_behind l -> StronglySorted not_behind (insert key lt x l).
Proof.
  induction 1 as [|y l Hl IH Hy]; simpl.
  - constructor; constructor.
  - rewrite Forall_forall in Hy.
    destruct (lt (key y) (key x)) eqn:E.
    + constructor; [exact IH|].
      apply Forall_forall. intros z Hz.
      apply (Permutation_in _ (insert_perm key lt x l)) in Hz.
      destruct Hz as [<- | Hz]; [apply lt_asym, E | now apply Hy].
    + constructor.
      * constructor; [exact Hl | now apply Forall_forall].
      * constructor; [exact E|].
        apply Forall_forall. intros z Hz.
        apply (not_lt_trans (key x) (key y) (key z) E). now apply Hy.
Qed.

Lemma list_sort_not_behind (l : list A) :
  StronglySorted not_behind (list_sort key lt l).
Proof.
  induction l as [|x l IH]; simpl;
    [constructor | now apply insert_not_behind].
Qed.

End SortOrder.

Lemma firstn_in {A : Type} (n : nat) (l : list A) (x : A) :
  In x (firstn n l) -> In x l.
Proof.
  intros H. rewrite <- (firstn_skipn n l). apply in_or_app. now left.
Qed.

Lemma strongly_sorted_firstn {A : Type} (R : A -> A -> Prop) (n : nat)
    (l : list A) :
  StronglySorted R l -> StronglySorted R (firstn n l).
Proof.
  intros H. revert n. induction H as [|x l Hl IH Hx]; intros [|n]; simpl;
    try constructor; auto.
  rewrite Forall_forall in *. intros y Hy. apply Hx.
  now apply firstn_in in Hy.
Qed.

Lemma strongly_sorted_app {A : Type} (R : A -> A -> Prop) (a b : list A) :
  StronglySorted R (a ++ b) ->
  forall x y, In x a -> In y b -> R x y.
Proof.
  induction a as [|z a IH]; simpl; intros H x y Hx Hy; [contradiction|].
  inversion H as [|? ? Hs Hz]; subst.
  destruct Hx as [<- | Hx]; [|now apply IH].
  rewrite Forall_forall in Hz. apply Hz, in_or_app. now right.
Qed.

Lemma pair_lt_false (k1 k2 : Q * Z) :
  pair_lt k2 k1 = false
  <-> (fst k1 < fst k2)%Q \/ ((fst k1 == fst k2)%Q /\ (snd k1 <= snd k2)%Z).
Proof.
  unfold pair_lt. destruct (Qcompare_spec (fst k2) (fst k1)) as [H|H|H].
  - rewrite Z.ltb_ge. split.
    + intros Hs. right. split; [symmetry; exact H | exact Hs].
    + intros [Hlt | [_ Hs]]; [|exact Hs].
      rewrite H in Hlt. now apply Qlt_irrefl in Hlt.
  - split; [discriminate|].
    intros [Hlt | [Heq _]].
    + exfalso. apply (Qlt_irrefl (fst k1)). now apply (Qlt_trans _ (fst k2)).
    + rewrite Heq in H. now apply Qlt_irrefl in H.
  - split; [now left | reflexivity].
Qed.

Lemma pair_lt_asym (a b : Q * Z) : pair_lt a b = true -> pair_lt b a = false.
Proof.
  intros H. apply pair_lt_false.
  unfold pair_lt in H. destruct (Qcompare_spec (fst a) (fst b)) as [E|E|E].
  - right. split; [exact E|]. apply Z.ltb_lt in H. lia.
  - now left.
  - discriminate.
Qed.

Lemma pair_not_lt_trans (a b c : Q * Z) :
  pair_lt b a = false -> pair_lt c b = false -> pair_lt c a = false.
Proof.
  rewrite !pair_lt_false.
  intros [Hab | [Hab Hsab]] [Hbc | [Hbc Hsbc]].
  - left. now apply (Qlt_trans _ (fst b)).
  - left. now rewrite <- Hbc.
  - left. now rewrite Hab.
  - right. split; [now rewrite Hab | lia].
Qed.

Lemma ranked_before_key (a b : FuzzyMatch) :
  pair_lt (match_key b) (match_key a) = false <-> ranked_before a b.
Proof.
  rewrite pair_lt_false. unfold match_key, ranked_before, rank_of.
  cbn [fst snd].
  split; (intros [H | [H Hr]]; [left | right; split; [|exact Hr]]).
  - now apply Qopp_lt_compat in H; rewrite !Qopp_opp in H.
  - now rewrite <- (Qopp_opp (fm_similarity a)), H, Qopp_opp.
  - now apply Qopp_lt_compat.
  - now rewrite H.
Qed.

Lemma list_sort_ranked (l : list FuzzyMatch) :
  StronglySorted ranked_before (list_sort match_key pair_lt l).
Proof.
  pose proof (list_sort_not_behind match_key pair_lt pair_lt_asym
                pair_not_lt_trans l) as H.
  induction H as [|x s Hs IH Hx]; constructor; [exact IH|].
  rewrite Forall_forall in *. intros y Hy. apply ranked_before_key. auto.
Qed.

Lemma kept_scored (name_lower name_clean : string) (data : list Entry)
    (m : FuzzyMatch) :
  In m (flat_map (fuzzy_item name_lower name_clean []) data) ->
  In (fm_item m) data /\ scored name_lower name_clean m.
Proof.
  rewrite in_flat_map. intros (item & Hitem & Hm).
  unfold fuzzy_item in Hm.
  destruct (similarity_of name_lower name_clean item) as [s mt] eqn:E.
  destruct (Qle_bool (b64 (6 # 10)) s) eqn:Hs; [|contradiction].
  destruct Hm as [<- | []]. cbn [fm_item]. split; [exact Hitem|].
  unfold scored. cbn [fm_item fm_similarity fm_match_type]. rewrite E.
  cbn [fst snd]. apply Qle_bool_iff in Hs. auto.
Qed.

(** What a match holds after the rounding of line 264. *)
Lemma scored_well_scored (name_lower name_clean : string) (m : FuzzyMatch) :
  scored name_lower name_clean m ->
  hundredths (fm_similarity m)
  /\ fm_match_type m <> None
  /\ well_scored (fm_similarity m) (fm_match_type m).
Proof.
  intros (Hlow & -> & ->).
  pose proof (similarity_of_well_scored name_lower name_clean (fm_item m))
    as Hws.
  destruct (similarity_of name_lower name_clean (fm_item m)) as [s mt].
  cbn [fst snd] in *.
  pose proof threshold_nonneg as H0.
  pose proof contains_lt_exact as H9.
  unfold well_scored in *. destruct mt as [rule|].
  - destruct Hws as (Hin & _ & Hcase).
    assert (Hup : (s <= 1)%Q) by (destruct Hcase as [[_ Hs] | [_ Hs]]; lra).
    split; [now apply round2_hundredths|]. split; [discriminate|].
    split; [exact Hin|].
    assert (Hlow' : (b64 (6 # 10) <= round2 s)%Q).
    { apply (Qle_trans _ _ _ round2_threshold).
      now apply round2_monotone. }
    split; [exact Hlow'|].
    destruct Hcase as [[-> Hs] | [Hr Hs]].
    + left. split; [reflexivity|].
      rewrite (round2_comp s 1) by lra. exact round2_exact.
    + right. split; [exact Hr|].
      apply (Qle_trans _ (round2 (b64 (9 # 10)))); [|exact round2_contains].
      apply round2_monotone; lra.
  - subst s. now apply threshold_positive in Hlow.
Qed.

Section FuzzyMatches.

Variable transport : Trace -> Request -> Outcome.
Variable client : Client.

(** The matches of a fuzzy search are the first five of the sorted kept
    entries of some page. *)
Lemma fuzzy_search_cases (name : string) (trace : Trace) :
  exists page,
    fst (_fuzzy_search_by_name transport client name trace)
    = firstn 5 (list_sort match_key pair_lt
                  (flat_map (fuzzy_item (strip (lower name))
                                        (query_clean name) []) page)).
Proof.
  unfold _fuzzy_search_by_name, query_clean.
  destruct (get_cryptocurrency_map _ _ _ _ _ _ _ _ _) as [[result|e] trace'].
  - destruct (get_or (data result) (DataList [])) as [page|entries].
    + exists page. cbv zeta. cbn [fst].
      now rewrite fold_left_fuzzy_item.
    + exists []. reflexivity.
  - exists []. reflexivity.
Qed.

(** X19.  The fuzzy search sends the one request for the first 5000 active
    entries and never raises.  It returns at most five matches; each holds
    a similarity that is the float nearest to a number of hundredths
    between 0.60 and 1.00, and the rule that gave it: 1.0 for the exact
    rule only and at most 0.9 for the others. *)
Theorem fuzzy_search_matches_shape (name : string) (trace : Trace) :
  let call := _fuzzy_search_by_name transport client name trace in
  snd call = trace ++ [catalog_request]
  /\ List.length (fst call) <= 5
  /\ Forall (fun m =>
               hundredths (fm_similarity m)
               /\ fm_match_type m <> None
               /\ well_scored (fm_similarity m) (fm_match_type m))
            (fst call).
Proof.
  cbv zeta. split; [|split].
  - unfold _fuzzy_search_by_name.
    pose proof (request_trace transport client "GET" "/v1/cryptocurrency/map"
                  (params catalog_request) trace) as Ht.
    unfold get_cryptocurrency_map, set_if. cbn [truthy_opt].
    change (params catalog_request) with
      [ ("listing_status", PStr "active"); ("start", PInt 1);
        ("limit", PInt 5000); ("sort", PStr "cmc_rank") ] in Ht.
    destruct (_request _ _ _ _ _ _) as [[result|e] trace'];
      cbn [snd] in Ht; subst trace'; [|reflexivity].
    destruct (get_or (data result) (DataList [])); reflexivity.
  - destruct (fuzzy_search_cases name trace) as [page ->].
    rewrite length_firstn. lia.
  - destruct (fuzzy_search_cases name trace) as [page ->].
    rewrite Forall_forall. intros m Hm.
    apply firstn_in in Hm. rename Hm into Hin.
    apply list_sort_In in Hin.
    apply kept_scored in Hin. destruct Hin as [_ Hs].
    now apply scored_well_scored in Hs.
Qed.

(** X20.  The matches come in the order of line 269: no match is behind
    one of a smaller similarity, nor behind one of the same similarity and
    a larger rank, an absent rank counting as 99999. *)
Theorem fuzzy_search_matches_ranked (name : string) (trace : Trace) :
  StronglySorted ranked_before
    (fst (_fuzzy_search_by_name transport client name trace)).
Proof.
  destruct (fuzzy_search_cases name trace) as [page ->].
  apply strongly_sorted_firstn, list_sort_ranked.
Qed.

Lemma fuzzy_search_of_page (name : string) (trace trace' : Trace)
    (result : Envelope) (page : list Entry) :
  get_cryptocurrency_map transport client None None "active" 1 5000
                         "cmc_rank" trace = (Ok result, trace') ->
  data result = Some (DataList page) ->
  fst (_fuzzy_search_by_name transport client name trace)
  = firstn 5 (list_sort match_key pair_lt
                (flat_map (fuzzy_item (strip (lower name))
                                      (query_clean name) []) page)).
Proof.
  intros Hcall Hdata. unfold _fuzzy_search_by_name, query_clean.
  rewrite Hcall, Hdata. simpl get_or. cbv zeta. cbv iota. cbn [fst].
  now rewrite fold_left_fuzzy_item.
Qed.

(** X21.  When the alphanumeric lower-case query equals the alphanumeric
    lower-case name or slug of an entry of the fetched page, the fuzzy
    search returns a non-empty list whose first match is an exact one of
    similarity 1, with a rank that is at most the rank of that entry. *)
Theorem exact_name_ranks_first (name : string) (trace trace' : Trace)
    (result : Envelope) (page : list Entry) (item : Entry) :
  get_cryptocurrency_map transport client None None "active" 1 5000
                         "cmc_rank" trace = (Ok result, trace') ->
  data result = Some (DataList page) ->
  In item page ->
  query_clean name = clean (lower (entry_name item))
  \/ query_clean name = clean (lower (entry_slug item)) ->
  exists best rest,
    fst (_fuzzy_search_by_name transport client name trace) = best :: rest
    /\ fm_match_type best = Some "exact"
    /\ (fm_similarity best == 1)%Q
    /\ (rank_of best <= get_or (entry_rank item) 99999)%Z.
Proof.
  intros Hcall Hdata Hitem Hexact.
  rewrite (fuzzy_search_of_page name trace trace' result page Hcall Hdata).
  set (name_lower := strip (lower name)).
  set (kept := flat_map (fuzzy_item name_lower (query_clean name) []) page).
  set (exact := {| fm_item := item; fm_similarity := round2 1;
                   fm_match_type := Some "exact" |}).
  assert (Hkept : In exact kept).
  { apply in_flat_map. exists item. split; [exact Hitem|].
    unfold fuzzy_item, similarity_of.
    replace ((query_clean name =? clean (lower (entry_name item)))
             || (query_clean name =? clean (lower (entry_slug item))))
      with true.
    - cbv beta iota. rewrite exact_score_kept. left. reflexivity.
    - symmetry. apply orb_true_iff.
      destruct Hexact as [H|H]; [left | right]; now apply String.eqb_eq. }
  pose proof (list_sort_ranked kept) as Hsorted.
  apply (list_sort_In match_key pair_lt) in Hkept.
  assert (Hall : forall m, In m (list_sort match_key pair_lt kept) ->
                           well_scored (fm_similarity m) (fm_match_type m)).
  { intros m Hm. apply list_sort_In in Hm. apply kept_scored in Hm.
    destruct Hm as [_ Hm]. now apply scored_well_scored in Hm. }
  destruct (list_sort match_key pair_lt kept) as [|best rest];
    [contradiction|].
  exists best, (firstn 4 rest). split; [reflexivity|].
  destruct Hkept as [-> | Hrest].
  { split; [reflexivity|]. split; [exact round2_exact|].
    unfold rank_of. cbn [fm_item exact]. lia. }
  inversion Hsorted as [|? ? _ Hbest]; subst.
  rewrite Forall_forall in Hbest. specialize (Hbest exact Hrest).
  specialize (Hall best (or_introl eq_refl)).
  pose proof round2_exact as H1. pose proof contains_lt_exact as H9.
  unfold ranked_before in Hbest. cbn [fm_similarity exact] in Hbest.
  unfold well_scored in Hall.
  destruct (fm_match_type best) as [rule|].
  - destruct Hall as (_ & _ & Hcase).
    destruct Hbest as [Hlt | [Heq Hrank]].
    + exfalso. destruct Hcase as [[_ Hs] | [_ Hs]]; lra.
    + destruct Hcase as [[-> Hs] | [_ Hs]].
      * split; [reflexivity|]. split; [exact Hs|]. exact Hrank.
      * exfalso. lra.
  - rewrite Hall in Hbest. exfalso.
    destruct Hbest as [Hlt | [Heq _]]; lra.
Qed.

(** X22.  The fuzzy search returns the top five of the matched entries of
    the fetched page: each match is an entry of the page with its rounded
    score, there are five of them or as many as the page has matched
    entries, and no matched entry that is left out is ranked strictly
    before a returned one. *)
Theorem fuzzy_search_keeps_top_five (name : string) (trace trace' : Trace)
    (result : Envelope) (page : list Entry) :
  get_cryptocurrency_map transport client None None "active" 1 5000
                         "cmc_rank" trace = (Ok result, trace') ->
  data result = Some (DataList page) ->
  let name_lower := strip (lower name) in
  let matches := fst (_fuzzy_search_by_name transport client name trace) in
  let kept := flat_map (fuzzy_item name_lower (query_clean name) []) page in
  (forall m, In m matches ->
     In (fm_item m) page /\ scored name_lower (query_clean name) m)
  /\ List.length matches = Nat.min 5 (List.length kept)
  /\ exists dropped,
       Permutation (matches ++ dropped) kept
       /\ forall m d, In m matches -> In d dropped -> ranked_before m d.
Proof.
  intros Hcall Hdata name_lower matches kept. unfold matches.
  rewrite (fuzzy_search_of_page name trace trace' result page Hcall Hdata).
  fold name_lower. fold kept. split; [|split].
  - intros m Hm. apply firstn_in, list_sort_In in Hm.
    now apply kept_scored in Hm.
  - now rewrite length_firstn, list_sort_length.
  - exists (skipn 5 (list_sort match_key pair_lt kept)). split.
    + rewrite firstn_skipn. apply list_sort_perm.
    + pose proof (list_sort_ranked kept) as Hsorted.
      rewrite <- (firstn_skipn 5 (list_sort _ _ kept)) in Hsorted.
      now apply strongly_sorted_app.
Qed.

End FuzzyMatches.

(** The query ["ethereum"] against the sample catalog: the entry of that
    name comes first, before the entry whose name contains it. *)
Lemma exact_name_ranks_first_witness :
  exists best rest,
    fst (_fuzzy_search_by_name sample_transport sample_client "ethereum" [])
    = best :: rest
    /\ fm_match_type best = Some "exact"
    /\ (fm_similarity best == 1)%Q
    /\ (rank_of best <= 2)%Z.
Proof.
  apply (exact_name_ranks_first sample_transport sample_client "ethereum"
           [] _ _ [bitcoin; ethereum; ethereum_classic] ethereum
           eq_refl eq_refl).
  - simpl. auto.
  - left. reflexivity.
Defined.

Lemma fuzzy_search_keeps_top_five_witness :
  List.length
    (fst (_fuzzy_search_by_name sample_transport sample_client "ethereum" []))
  = 2.
Proof.
  now destruct (fuzzy_search_keeps_top_five sample_transport sample_client
                  "ethereum" [] _ _ [bitcoin; ethereum; ethereum_classic]
                  eq_refl eq_refl)
    as (_ & H & _).
Defined.

(* ================================================================== *)
(** * The stand-alone similarity score *)
(* ================================================================== *)

Lemma inter_union_length (a b : list string) :
  NoDup a -> List.length (inter a b) <= List.length (union a b).
Proof.
  intros Ha. unfold inter, union.
  transitivity (List.length a); [apply filter_length_le|].
  apply NoDup_incl_length; [exact Ha|].
  intros x Hx. apply nodup_In, in_or_app. now left.
Qed.

Lemma common_prefix_le (a b : string) :
  common_prefix a b <= Nat.max (String.length a) (String.length b).
Proof.
  revert b. induction a as [|x a IH]; intros [|y b]; simpl; try lia.
  destruct (Ascii.eqb x y); [|lia]. specialize (IH b). lia.
Qed.

Lemma Some_score (a b : Q) : Some a = Some b -> a = b.
Proof. congruence. Qed.

(** The bounds of the word rule and of the prefix rule, as closed
    computations on floats. *)
Lemma jaccard_score_low :
  (b64 (76 # 100)
   <= float_add (b64 (7 # 10)) (float_mul (b64 (5 # 10)) (b64 (2 # 10))))%Q.
Proof. vm_compute. discriminate. Qed.

Lemma jaccard_score_high :
  (float_add (b64 (7 # 10)) (float_mul 1 (b64 (2 # 10))) <= b64 (9 # 10))%Q.
Proof. vm_compute. discriminate. Qed.

Lemma prefix_score_low :
  (b64 (76 # 100)
   <= float_add (b64 (7 # 10)) (float_mul (b64 (6 # 10)) (b64 (1 # 10))))%Q.
Proof. vm_compute. discriminate. Qed.

Lemma prefix_score_high :
  (float_add (b64 (7 # 10)) (float_mul 1 (b64 (1 # 10))) <= b64 (9 # 10))%Q.
Proof. vm_compute. discriminate. Qed.

Lemma jaccard_score_range (query_lower name_lower : string) (score : Q) :
  jaccard_score query_lower name_lower = Some score ->
  (b64 (76 # 100) <= score)%Q /\ (score <= b64 (9 # 10))%Q.
Proof.
  unfold jaccard_score. destruct (_ && _); [|discriminate].
  cbv zeta.
  destruct (int_div_range _ _
              (inter_union_length (set_of (findall_all_words query_lower))
                 (set_of (findall_all_words name_lower))
                 (NoDup_nodup _ _))) as [_ Hup].
  set (jaccard := int_div _ _) in *. clearbody jaccard.
  destruct (Qle_bool (b64 (5 # 10)) jaccard) eqn:Hlow; [|discriminate].
  intros H. apply Some_score in H. subst score.
  apply Qle_bool_iff in Hlow.
  destruct (scaled_sum_bounds (b64 (7 # 10)) (b64 (2 # 10)) jaccard
              (b64 (5 # 10)) 1) as [Ha Hb];
    [apply b64_nonneg; discriminate | apply b64_nonneg; discriminate
    | apply b64_nonneg; discriminate | exact Hlow | exact Hup |].
  split.
  - apply (Qle_trans _ _ _ jaccard_score_low Ha).
  - apply (Qle_trans _ _ _ Hb jaccard_score_high).
Qed.

Lemma prefix_score_range (query_clean name_clean : string) (score : Q) :
  prefix_score query_clean name_clean = Some score ->
  (b64 (76 # 100) <= score)%Q /\ (score <= b64 (9 # 10))%Q.
Proof.
  unfold prefix_score. destruct (_ && _); [|discriminate].
  cbv zeta. destruct (0 <? _)%nat; [|discriminate].
  destruct (int_div_range _ _ (common_prefix_le query_clean name_clean))
    as [_ Hup].
  set (prefix_ratio := int_div _ _) in *. clearbody prefix_ratio.
  destruct (Qle_bool (b64 (6 # 10)) prefix_ratio) eqn:Hlow; [|discriminate].
  intros H. apply Some_score in H. subst score.
  apply Qle_bool_iff in Hlow.
  destruct (scaled_sum_bounds (b64 (7 # 10)) (b64 (1 # 10)) prefix_ratio
              (b64 (6 # 10)) 1) as [Ha Hb];
    [apply b64_nonneg; discriminate | apply b64_nonneg; discriminate
    | apply b64_nonneg; discriminate | exact Hlow | exact Hup |].
  split.
  - apply (Qle_trans _ _ _ prefix_score_low Ha).
  - apply (Qle_trans _ _ _ Hb prefix_score_high).
Qed.

Lemma prefix_contains (needle hay : string) :
  prefix needle hay = true -> contains needle hay = true.
Proof. intros H. destruct hay; simpl in *; rewrite H; reflexivity. Qed.

Lemma same_clean_eqb (query name slug : string) :
  (clean (lower query) =? clean (lower name))
  || (clean (lower query) =? clean (lower slug)) = true
  <-> same_clean query name slug.
Proof.
  unfold same_clean. rewrite orb_true_iff, !String.eqb_eq. reflexivity.
Qed.

(** X23.  [_calculate_similarity] returns a value between 0 and 1, as its
    docstring says: it is 0.0 or at least the float 0.76, and it is 1.0
    exactly when the query is the name or the slug up to case and to
    characters that are not letters or digits; every other score is at
    most the float 0.9. *)
Theorem calculate_similarity_range (query name symbol slug : string) :
  let score := _calculate_similarity query name symbol slug in
  (0 <= score)%Q /\ (score <= 1)%Q
  /\ (score = 0%Q \/ (b64 (76 # 100) <= score)%Q)
  /\ ((score == 1)%Q <-> same_clean query name slug)
  /\ (~ same_clean query name slug -> (score <= b64 (9 # 10))%Q).
Proof.
  cbv zeta.
  assert (H76 : (0 <= b64 (76 # 100))%Q) by (vm_compute; discriminate).
  assert (H76_85 : (b64 (76 # 100) <= b64 (85 # 100))%Q)
    by (vm_compute; discriminate).
  assert (H76_90 : (b64 (76 # 100) <= b64 (9 # 10))%Q)
    by (vm_compute; discriminate).
  pose proof reverse_le_contains as H85_90.
  pose proof contains_lt_exact as H90.
  assert (Hcases :
    (same_clean query name slug
     /\ _calculate_similarity query name symbol slug = 1%Q)
    \/ (~ same_clean query name slug
        /\ (_calculate_similarity query name symbol slug = 0%Q
            \/ ((b64 (76 # 100)
                 <= _calculate_similarity query name symbol slug)%Q
                /\ (_calculate_similarity query name symbol slug
                    <= b64 (9 # 10))%Q)))).
  { pose proof (same_clean_eqb query name slug) as Hsame.
    unfold _calculate_similarity. cbv zeta.
    set (qc := clean (lower query)) in *.
    set (nc := clean (lower name)) in *.
    set (sc := clean (lower slug)) in *.
    clearbody qc nc sc.
    destruct ((qc =? nc) || (qc =? sc)).
    { left. split; [now apply Hsame | reflexivity]. }
    right. split.
    { intros H. apply Hsame in H. discriminate. }
    destruct (contains qc nc || contains qc sc).
    { right. split; [exact H76_90 | apply Qle_refl]. }
    destruct (startswith nc qc || startswith sc qc).
    { right. split; [exact H76_85 | exact H85_90]. }
    destruct (jaccard_score (lower query) (lower name)) as [score|] eqn:Hj.
    { right. now apply jaccard_score_range in Hj. }
    destruct (prefix_score qc nc) as [score|] eqn:Hp; [|now left].
    right. now apply prefix_score_range in Hp. }
  set (score := _calculate_similarity query name symbol slug) in *.
  clearbody score.
  split; [|split; [|split; [|split]]].
  - destruct Hcases as [[_ ->] | [_ [-> | [Hlow _]]]]; lra.
  - destruct Hcases as [[_ ->] | [_ [-> | [_ Hup]]]]; lra.
  - destruct Hcases as [[_ ->] | [_ [-> | [Hlow _]]]];
      [right; vm_compute; discriminate | now left | now right].
  - destruct Hcases as [[Hs ->] | [Hs [-> | [_ Hup]]]].
    + split; [auto | reflexivity].
    + split; [|contradiction].
      intros E. unfold Qeq in E. simpl in E. discriminate E.
    + split; [|contradiction]. intros E. exfalso. lra.
  - intros Hn. destruct Hcases as [[Hs _] | [_ [-> | [_ Hup]]]];
      [contradiction | | exact Hup].
    apply b64_nonneg. discriminate.
Qed.

(** X24.  The rule of lines 294-295 never decides: when the alphanumeric
    name or slug starts with the alphanumeric query, the exact or the
    contains rule has returned before it, so the score is 1.0 or 0.9 and
    not the 0.85 of the rule. *)
Theorem starts_with_rule_never_decides (query name symbol slug : string) :
  startswith (clean (lower name)) (clean (lower query)) = true
  \/ startswith (clean (lower slug)) (clean (lower query)) = true ->
  _calculate_similarity query name symbol slug = 1%Q
  \/ _calculate_similarity query name symbol slug = b64 (9 # 10).
Proof.
  intros H. unfold _calculate_similarity.
  destruct (_ || _); [now left|].
  replace (contains (clean (lower query)) (clean (lower name))
           || contains (clean (lower query)) (clean (lower slug)))
    with true; [now right|].
  symmetry. apply orb_true_iff.
  destruct H as [H|H]; [left | right]; now apply prefix_contains.
Qed.

Lemma starts_with_rule_never_decides_witness :
  _calculate_similarity "Bit" "Bitcoin" "BTC" "bitcoin" = 1%Q
  \/ _calculate_similarity "Bit" "Bitcoin" "BTC" "bitcoin" = b64 (9 # 10).
Proof.
  apply (starts_with_rule_never_decides "Bit" "Bitcoin" "BTC" "bitcoin").
  left. reflexivity.
Defined.
